(** * Streaming JSON chunkers: a shallow embedding and its properties

    The development embeds the four chunking scripts of the repository:

    - [chunk_large_file.py]        (class [LargeJSONChunker], the brace-counting scanner),
    - [chunk_large_file_ijson.py]  (class [LargeJSONChunkerIjson], rebuilt from ijson events),
    - [chunk-zainjo-python.py] and [chunk-zainjo-ijson.py] (fixed 500-record chunks).

    Python text is a list of Unicode code points, Python integers are [Z] or
    [nat] (lengths and counters), a [dict] is an association list in
    insertion order, a [list] is a [list].  Files written by the scripts are
    kept as the ordered log of the writes. *)

From Stdlib Require Import ZArith NArith Ascii String DecimalString Lia.
From stdpp Require Import base tactics option list numbers.

Local Open Scope Z_scope.

(* ===================================================================== *)
(** ** Python text *)
(* ===================================================================== *)

(** A code point; a Python [str] is a list of them. *)
Definition char : Type := N.
Definition str : Type := list N.

Definition chr (a : ascii) : char := N_of_ascii a.

(** The double quote, written by its code so that no literal needs one. *)
Definition DQUOTE : char := 34%N.
Definition BACKSLASH : char := 92%N.

(** Sample texts are written with apostrophes standing for double quotes. *)
Definition text (s : string) : str :=
  map (fun a => if Ascii.eqb a "'"%char then DQUOTE else N_of_ascii a)
      (list_ascii_of_string s).

(** A plain ASCII literal, as the source writes ['item.'] or ['.']. *)
Definition lit (s : string) : str := map N_of_ascii (list_ascii_of_string s).

Definition char_eqb (a b : char) : bool := N.eqb a b.

Fixpoint str_eqb (a b : str) : bool :=
  match a, b with
  | [], [] => true
  | x :: a', y :: b' => char_eqb x y && str_eqb a' b'
  | _, _ => false
  end.

(** [len(c.encode('utf-8'))] for one code point. *)
Definition utf8_width (c : char) : nat :=
  if (c <? 128)%N then 1%nat
  else if (c <? 2048)%N then 2%nat
  else if (c <? 65536)%N then 3%nat
  else 4%nat.

(** [len(s.encode('utf-8'))]. *)
Definition encoded_len (s : str) : nat := sum_list_with utf8_width s.

(** [s[a:b]] for [0 <= a]; the scripts never slice with another start. *)
Definition slice (s : str) (a b : Z) : str :=
  take (Z.to_nat (b - a)) (drop (Z.to_nat a) s).

(** [s[a:]] for [0 <= a]. *)
Definition slice_from (s : str) (a : Z) : str := drop (Z.to_nat a) s.

(** [s.rfind(c)]: index of the last occurrence, [-1] when there is none. *)
Fixpoint rfind_from (s : str) (c : char) (i : Z) (found : Z) : Z :=
  match s with
  | [] => found
  | x :: s' => rfind_from s' c (i + 1) (if char_eqb x c then i else found)
  end.

Definition rfind (s : str) (c : char) : Z := rfind_from s c 0 (-1).

(** [s.startswith(p)]. *)
Fixpoint startswith (s p : str) : bool :=
  match p, s with
  | [], _ => true
  | y :: p', x :: s' => char_eqb x y && startswith s' p'
  | _ :: _, [] => false
  end.

(** [s.count(c)] for a one-character [c]. *)
Definition count_char (s : str) (c : char) : nat :=
  length (filter (fun x => x = c) s).

(** [s.split(c)] for a one-character separator: never the empty list. *)
Fixpoint split_on (c : char) (s : str) : list str :=
  match s with
  | [] => [[]]
  | x :: s' =>
      if char_eqb x c then [] :: split_on c s'
      else match split_on c s' with
           | [] => [[x]]
           | w :: ws => (x :: w) :: ws
           end
  end.

(** [s.replace(old, '')] for a non-empty [old]: every non-overlapping
    occurrence, found left to right, is removed. *)
Fixpoint remove_all_fuel (fuel : nat) (old s : str) : str :=
  match fuel with
  | O => s
  | S fuel' =>
      match s with
      | [] => []
      | x :: s' =>
          if startswith s old then remove_all_fuel fuel' old (drop (length old) s)
          else x :: remove_all_fuel fuel' old s'
      end
  end.

Definition remove_all (old s : str) : str := remove_all_fuel (length s) old s.

Definition is_ascii_digit (c : char) : bool := (48 <=? c)%N && (c <=? 57)%N.

(** The characters with [Numeric_Type=Decimal] (the category Nd) of
    Unicode 14.0, the version CPython 3.11 carries, as ranges of code
    points.  Every range starts at a digit zero and runs through whole tens:
    the value of a character is its distance from the start of its range,
    modulo ten. *)
Definition decimal_ranges : list (N * N) :=
  [(48, 57); (1632, 1641); (1776, 1785); (1984, 1993); (2406, 2415);
   (2534, 2543); (2662, 2671); (2790, 2799); (2918, 2927); (3046, 3055);
   (3174, 3183); (3302, 3311); (3430, 3439); (3558, 3567); (3664, 3673);
   (3792, 3801); (3872, 3881); (4160, 4169); (4240, 4249); (6112, 6121);
   (6160, 6169); (6470, 6479); (6608, 6617); (6784, 6793); (6800, 6809);
   (6992, 7001); (7088, 7097); (7232, 7241); (7248, 7257); (42528, 42537);
   (43216, 43225); (43264, 43273); (43472, 43481); (43504, 43513);
   (43600, 43609); (44016, 44025); (65296, 65305); (66720, 66729);
   (68912, 68921); (69734, 69743); (69872, 69881); (69942, 69951);
   (70096, 70105); (70384, 70393); (70736, 70745); (70864, 70873);
   (71248, 71257); (71360, 71369); (71472, 71481); (71904, 71913);
   (72016, 72025); (72784, 72793); (73040, 73049); (73120, 73129);
   (92768, 92777); (92864, 92873); (93008, 93017); (120782, 120831);
   (123200, 123209); (123632, 123641); (125264, 125273); (130032, 130041)]%N.

(** The other characters with [Numeric_Type=Digit]: the superscript and
    subscript digits, the circled digits and the like. *)
Definition other_digit_ranges : list (N * N) :=
  [(178, 179); (185, 185); (4969, 4977); (6618, 6618); (8304, 8304);
   (8308, 8313); (8320, 8329); (9312, 9320); (9332, 9340); (9352, 9360);
   (9450, 9450); (9461, 9469); (9471, 9471); (10102, 10110); (10112, 10120);
   (10122, 10130); (68160, 68163); (69216, 69224); (69714, 69722);
   (127232, 127242)]%N.

Definition in_range (c : char) (r : N * N) : bool := (r.1 <=? c)%N && (c <=? r.2)%N.

(** [c.isdecimal()] and [c.isdigit()] for one character. *)
Definition isdecimal_char (c : char) : bool := existsb (in_range c) decimal_ranges.

Definition isdigit_char (c : char) : bool :=
  isdecimal_char c || existsb (in_range c) other_digit_ranges.

(** [s.isdigit()]: non-empty and digits only. *)
Definition isdigit (s : str) : bool :=
  match s with
  | [] => false
  | _ => forallb isdigit_char s
  end.

(** The value of a decimal character. *)
Definition decimal_value (c : char) : nat :=
  match List.find (in_range c) decimal_ranges with
  | Some r => N.to_nat ((c - r.1) mod 10)
  | None => 0
  end.

(** The number that a text of decimal characters denotes. *)
Definition int_of_digits (s : str) : nat :=
  fold_left (fun acc c => (10 * acc + decimal_value c)%nat) s 0%nat.

(** A code point of the surrogate range, U+D800 to U+DFFF. *)
Definition is_surrogate (c : char) : bool := (55296 <=? c)%N && (c <=? 57343)%N.

(** Whether [s.encode('utf-8')] goes through: a surrogate, which stands
    alone in a Python text, cannot be encoded. *)
Definition encodable (s : str) : bool := forallb (fun c => negb (is_surrogate c)) s.

(* ===================================================================== *)
(** ** JSON values as Python holds them *)
(* ===================================================================== *)

(** [JReal m e] is the number [m * 10^e] written with a fraction or an
    exponent: a [float] after [json.loads], a [Decimal] after ijson.
    [JNonFinite] is one of Python's [NaN], [Infinity], [-Infinity]. *)
Inductive nonfinite := NaN | Infinity | NegInfinity.

#[local] Unset Elimination Schemes.
Inductive json :=
| JNull
| JBool (b : bool)
| JInt (z : Z)
| JReal (m e : Z)
| JNonFinite (k : nonfinite)
| JStr (s : str)
| JList (l : list json)
| JDict (d : list (str * json)).
#[local] Set Elimination Schemes.

(** Exceptions the scripts can meet. *)
Inductive exn :=
| TypeError | AttributeError | FileNotFoundError | ValueError | UnicodeEncodeError.

Inductive result (A : Type) :=
| Ok (a : A)
| Raise (e : exn).
Arguments Ok {A} a.
Arguments Raise {A} e.

#[global] Instance result_ret : MRet result := fun _ a => Ok a.

#[global] Instance result_bind : MBind result := fun _ _ k r =>
  match r with
  | Ok a => k a
  | Raise e => Raise e
  end.

(** [sys.get_int_max_str_digits()]: 4300 unless it is configured. *)
Definition INT_MAX_STR_DIGITS : nat := 4300.

(** [int(s)]: the decimal characters of any script are read as their
    values; a character that is no decimal character (a superscript two is
    a digit for [isdigit], and no decimal character), an empty text, or
    more digits than the limit raise [ValueError]. *)
Definition int_of_str (s : str) : result nat :=
  match s with
  | [] => Raise ValueError
  | _ :: _ =>
      if forallb isdecimal_char s && (length s <=? INT_MAX_STR_DIGITS)%nat
      then Ok (int_of_digits s)
      else Raise ValueError
  end.

(** *** Dictionaries in insertion order *)

Fixpoint dict_get (d : list (str * json)) (k : str) : option json :=
  match d with
  | [] => None
  | (k', v) :: d' => if str_eqb k' k then Some v else dict_get d' k
  end.

Definition dict_mem (d : list (str * json)) (k : str) : bool :=
  match dict_get d k with Some _ => true | None => false end.

(** [d[k] = v]: an existing key keeps its place, a new key goes last. *)
Fixpoint dict_set (d : list (str * json)) (k : str) (v : json) : list (str * json) :=
  match d with
  | [] => [(k, v)]
  | (k', v') :: d' =>
      if str_eqb k' k then (k', v) :: d' else (k', v') :: dict_set d' k v
  end.

(** Python truth value of a JSON value whose non-integer numbers are
    exact, the [Decimal] that ijson makes of them: such a number is false
    when its coefficient is zero. *)
Definition truthy (v : json) : bool :=
  match v with
  | JNull => false
  | JBool b => b
  | JInt z => negb (z =? 0)
  | JReal m _ => negb (m =? 0)
  | JNonFinite _ => true
  | JStr s => match s with [] => false | _ => true end
  | JList l => match l with [] => false | _ => true end
  | JDict d => match d with [] => false | _ => true end
  end.

(** Whether the [float] that [json.loads] makes of the literal [m * 10^e]
    is zero.  The literal is rounded to the nearest double, to the even one
    on a tie: it becomes zero when its magnitude is at most [2^-1075], half
    the smallest positive double. *)
Definition float_is_zero (m e : Z) : bool :=
  (m =? 0) || ((e <? 0) && (Z.abs m * 2 ^ 1075 <=? 10 ^ (- e))).

(** Python truth value of a value that [json.load] returned, where a
    non-integer number is a [float]. *)
Definition truthy_loaded (v : json) : bool :=
  match v with
  | JReal m e => negb (float_is_zero m e)
  | _ => truthy v
  end.

(** Whether [json.dump(v, f, ensure_ascii=False)] can write [v] into a file
    opened with [encoding='utf-8']: no text and no key of [v] holds a
    surrogate.  [json.loads] makes one of an escape such as [\ud83d] that
    has no partner. *)
Fixpoint writable (v : json) : bool :=
  match v with
  | JStr s => encodable s
  | JList l => forallb writable l
  | JDict d => forallb (fun kv => encodable kv.1 && writable kv.2) d
  | _ => true
  end.

(* ===================================================================== *)
(** ** [json.loads], after CPython's decoder *)
(* ===================================================================== *)

Module PyJson.

Definition is_ws (c : char) : bool :=
  char_eqb c 32%N || char_eqb c 9%N || char_eqb c 10%N || char_eqb c 13%N.

Fixpoint skip_ws (s : str) : str :=
  match s with
  | c :: s' => if is_ws c then skip_ws s' else s
  | [] => []
  end.

Definition hex_val (c : char) : option N :=
  if is_ascii_digit c then Some (c - 48)%N
  else if (97 <=? c)%N && (c <=? 102)%N then Some (c - 87)%N
  else if (65 <=? c)%N && (c <=? 70)%N then Some (c - 55)%N
  else None.

(** [_decode_uXXXX]: four hexadecimal digits. *)
Definition decode_uXXXX (s : str) : option (N * str) :=
  match s with
  | a :: b :: c :: d :: s' =>
      match hex_val a, hex_val b, hex_val c, hex_val d with
      | Some a, Some b, Some c, Some d =>
          Some ((((a * 16 + b) * 16 + c) * 16 + d)%N, s')
      | _, _, _, _ => None
      end
  | _ => None
  end.

(** The one-letter escapes of [BACKSLASH]. *)
Definition simple_escape (c : char) : option char :=
  if char_eqb c DQUOTE then Some DQUOTE
  else if char_eqb c BACKSLASH then Some BACKSLASH
  else if char_eqb c (chr "/") then Some (chr "/")
  else if char_eqb c (chr "b") then Some 8%N
  else if char_eqb c (chr "f") then Some 12%N
  else if char_eqb c (chr "n") then Some 10%N
  else if char_eqb c (chr "r") then Some 13%N
  else if char_eqb c (chr "t") then Some 9%N
  else None.

(** [scanstring] in strict mode, from just after the opening quote; [acc]
    holds the decoded characters in reverse. *)
Fixpoint scanstring (fuel : nat) (s : str) (acc : str) : option (str * str) :=
  match fuel with
  | O => None
  | S fuel' =>
      match s with
      | [] => None
      | c :: r =>
          if char_eqb c DQUOTE then Some (reverse acc, r)
          else if char_eqb c BACKSLASH then
            match r with
            | [] => None
            | e :: r' =>
                if char_eqb e (chr "u") then
                  match decode_uXXXX r' with
                  | None => None
                  | Some (uni, r'') =>
                      if (55296 <=? uni)%N && (uni <=? 56319)%N
                         && startswith r'' [BACKSLASH; chr "u"] then
                        match decode_uXXXX (drop 2 r'') with
                        | None => None
                        | Some (uni2, r3) =>
                            if (56320 <=? uni2)%N && (uni2 <=? 57343)%N then
                              scanstring fuel' r3
                                ((65536 + ((uni - 55296) * 1024 + (uni2 - 56320)))%N :: acc)
                            else scanstring fuel' r'' (uni :: acc)
                        end
                      else scanstring fuel' r'' (uni :: acc)
                  end
                else
                  match simple_escape e with
                  | Some x => scanstring fuel' r' (x :: acc)
                  | None => None
                  end
            end
          else if (c <? 32)%N then None
          else scanstring fuel' r (c :: acc)
      end
  end.

(** The longest prefix of ASCII digits, and what follows it. *)
Fixpoint span_digits (s : str) : str * str :=
  match s with
  | c :: s' =>
      if is_ascii_digit c then let '(ds, r) := span_digits s' in (c :: ds, r)
      else ([], s)
  | [] => ([], [])
  end.

Definition Z_of_digits (ds : str) : Z :=
  fold_left (fun acc c => 10 * acc + Z.of_N (c - 48)) ds 0.

(** [NUMBER_RE]: an optional minus sign, then 0 or a digit string without
    a leading zero, then an optional fraction (a dot and digits), then an
    optional exponent (e or E, an optional sign, digits).  Each part returns
    what it matched and the text after it. *)
Definition match_minus (s : str) : bool * str :=
  match s with
  | c :: r => if char_eqb c (chr "-") then (true, r) else (false, s)
  | [] => (false, s)
  end.

Definition match_integer (s : str) : option (str * str) :=
  match s with
  | c :: r =>
      if char_eqb c (chr "0") then Some ([c], r)
      else if is_ascii_digit c then Some (span_digits s)
      else None
  | [] => None
  end.

Definition match_fraction (s : str) : option str * str :=
  match s with
  | c :: r =>
      if char_eqb c (chr ".") then
        match span_digits r with
        | ([], _) => (None, s)
        | (fs, r') => (Some fs, r')
        end
      else (None, s)
  | [] => (None, s)
  end.

Definition match_exponent (s : str) : option Z * str :=
  match s with
  | c :: r =>
      if char_eqb c (chr "e") || char_eqb c (chr "E") then
        let '(eneg, r1) :=
          match r with
          | g :: r0 =>
              if char_eqb g (chr "-") then (true, r0)
              else if char_eqb g (chr "+") then (false, r0)
              else (false, r)
          | [] => (false, r)
          end in
        match span_digits r1 with
        | ([], _) => (None, s)
        | (es, r') => (Some (if eneg then - Z_of_digits es else Z_of_digits es), r')
        end
      else (None, s)
  | [] => (None, s)
  end.

(** A match of [NUMBER_RE] at the start of [s], as [scan_once] reads it:
    an [int] without fraction and exponent, a [float] otherwise. *)
Definition match_number (s : str) : option (json * str) :=
  let '(neg, s1) := match_minus s in
  match match_integer s1 with
  | None => None
  | Some (ids, s2) =>
      let '(frac, s3) := match_fraction s2 in
      let '(exp, s4) := match_exponent s3 in
      let sign (z : Z) := if neg then - z else z in
      match frac, exp with
      | None, None => Some (JInt (sign (Z_of_digits ids)), s4)
      | _, _ =>
          let fs := default [] frac in
          Some (JReal (sign (Z_of_digits (ids ++ fs)))
                      (default 0 exp - Z.of_nat (length fs)), s4)
      end
  end.

(** The constants the scanner tries by their first letter. *)
Definition match_constant (s : str) : option (json * str) :=
  if startswith s (lit "null") then Some (JNull, drop 4 s)
  else if startswith s (lit "true") then Some (JBool true, drop 4 s)
  else if startswith s (lit "false") then Some (JBool false, drop 5 s)
  else None.

Definition match_nonfinite (s : str) : option (json * str) :=
  if startswith s (lit "NaN") then Some (JNonFinite NaN, drop 3 s)
  else if startswith s (lit "Infinity") then Some (JNonFinite Infinity, drop 8 s)
  else if startswith s (lit "-Infinity") then Some (JNonFinite NegInfinity, drop 9 s)
  else None.

(** [scan_once], [JSONArray] and [JSONObject].  [parse_items] and
    [parse_members] start at the first character of a value, respectively of
    a key's opening quote. *)
Fixpoint scan_once (fuel : nat) (s : str) {struct fuel} : option (json * str) :=
  match fuel with
  | O => None
  | S fuel' =>
      match s with
      | [] => None
      | c :: r =>
          if char_eqb c DQUOTE then
            match scanstring fuel' r [] with
            | Some (v, r') => Some (JStr v, r')
            | None => None
            end
          else if char_eqb c (chr "{") then
            match skip_ws r with
            | c' :: r' =>
                if char_eqb c' (chr "}") then Some (JDict [], r')
                else parse_members fuel' (c' :: r') []
            | [] => None
            end
          else if char_eqb c (chr "[") then
            match skip_ws r with
            | c' :: r' =>
                if char_eqb c' (chr "]") then Some (JList [], r')
                else parse_items fuel' (c' :: r') []
            | [] => None
            end
          else
            match match_constant s with
            | Some x => Some x
            | None =>
                match match_number s with
                | Some x => Some x
                | None => match_nonfinite s
                end
            end
      end
  end
with parse_items (fuel : nat) (s : str) (acc : list json) {struct fuel}
  : option (json * str) :=
  match fuel with
  | O => None
  | S fuel' =>
      match scan_once fuel' s with
      | None => None
      | Some (v, r) =>
          match skip_ws r with
          | c :: r' =>
              if char_eqb c (chr "]") then Some (JList (reverse (v :: acc)), r')
              else if char_eqb c (chr ",") then parse_items fuel' (skip_ws r') (v :: acc)
              else None
          | [] => None
          end
      end
  end
with parse_members (fuel : nat) (s : str) (acc : list (str * json)) {struct fuel}
  : option (json * str) :=
  match fuel with
  | O => None
  | S fuel' =>
      match s with
      | [] => None
      | q :: r =>
          if negb (char_eqb q DQUOTE) then None
          else
            match scanstring fuel' r [] with
            | None => None
            | Some (key, r1) =>
                match skip_ws r1 with
                | c :: r2 =>
                    if negb (char_eqb c (chr ":")) then None
                    else
                      match scan_once fuel' (skip_ws r2) with
                      | None => None
                      | Some (v, r3) =>
                          match skip_ws r3 with
                          | c' :: r4 =>
                              if char_eqb c' (chr "}")
                              then Some (JDict (dict_set acc key v), r4)
                              else if char_eqb c' (chr ",")
                              then parse_members fuel' (skip_ws r4) (dict_set acc key v)
                              else None
                          | [] => None
                          end
                      end
                | [] => None
                end
            end
      end
  end.

(** [json.loads(s)]: one value, white space allowed around it, nothing
    else; [None] is [json.JSONDecodeError].  The fuel is more than the calls
    below can use. *)
Definition json_loads (s : str) : option json :=
  match scan_once (2 * length s + 2) (skip_ws s) with
  | Some (v, r) => match skip_ws r with [] => Some v | _ :: _ => None end
  | None => None
  end.

End PyJson.

(* ===================================================================== *)
(** ** [json.dumps(..., ensure_ascii=False)], after CPython's encoder *)
(* ===================================================================== *)

Module PyJsonEncoder.

Definition hex_digit (n : N) : char :=
  if (n <? 10)%N then (48 + n)%N else (87 + n)%N.

(** [ESCAPE_DCT]: what [encode_basestring] writes for one character. *)
Definition escape_char (c : char) : str :=
  if char_eqb c BACKSLASH then [BACKSLASH; BACKSLASH]
  else if char_eqb c DQUOTE then [BACKSLASH; DQUOTE]
  else if char_eqb c 8%N then [BACKSLASH; chr "b"]
  else if char_eqb c 12%N then [BACKSLASH; chr "f"]
  else if char_eqb c 10%N then [BACKSLASH; chr "n"]
  else if char_eqb c 13%N then [BACKSLASH; chr "r"]
  else if char_eqb c 9%N then [BACKSLASH; chr "t"]
  else if (c <? 32)%N then
    [BACKSLASH; chr "u"; chr "0"; chr "0"; hex_digit (c / 16)%N; hex_digit (c mod 16)%N]
  else [c].

(** [encode_basestring(s)]. *)
Definition encode_basestring (s : str) : str :=
  [DQUOTE] ++ concat (map escape_char s) ++ [DQUOTE].

(** [int.__repr__]. *)
Definition int_repr (z : Z) : str :=
  lit (DecimalString.NilZero.string_of_int (Z.to_int z)).

Definition nonfinite_repr (k : nonfinite) : str :=
  match k with
  | NaN => lit "NaN"
  | Infinity => lit "Infinity"
  | NegInfinity => lit "-Infinity"
  end.

(** [sep.join(items)]. *)
Fixpoint join (sep : str) (items : list str) : str :=
  match items with
  | [] => []
  | [x] => x
  | x :: items' => x ++ sep ++ join sep items'
  end.

(** The pieces written for the elements of a container, unless one of
    them raises. *)
Definition collect {A} (f : A -> result str) : list A -> result (list str) :=
  fix go (l : list A) : result (list str) :=
    match l with
    | [] => Ok []
    | x :: l' => s ← f x; ss ← go l'; Ok (s :: ss)
    end.

Section Encoder.

(** What the encoder does with a non-integer number [m * 10^e]. *)
Variable real_repr : Z -> Z -> result str.

(** [indent=None] or [indent=n]. *)
Variable indent : option nat.

(** ['\n' + ' ' * (indent * level)], nothing without [indent]. *)
Definition newline_indent (level : nat) : str :=
  match indent with
  | None => []
  | Some n => 10%N :: replicate (n * level) 32%N
  end.

(** [', '] without [indent], [','] with it. *)
Definition item_separator : str :=
  match indent with
  | None => lit ", "
  | Some _ => lit ","
  end.

Definition key_separator : str := lit ": ".

(** [_iterencode] with [_current_indent_level = level], joined. *)
Fixpoint encode (level : nat) (v : json) : result str :=
  match v with
  | JNull => Ok (lit "null")
  | JBool true => Ok (lit "true")
  | JBool false => Ok (lit "false")
  | JInt z => Ok (int_repr z)
  | JReal m e => real_repr m e
  | JNonFinite k => Ok (nonfinite_repr k)
  | JStr s => Ok (encode_basestring s)
  | JList [] => Ok (lit "[]")
  | JList l =>
      items ← collect (encode (S level)) l;
      Ok (lit "[" ++ newline_indent (S level)
            ++ join (item_separator ++ newline_indent (S level)) items
            ++ newline_indent level ++ lit "]")
  | JDict [] => Ok (lit "{}")
  | JDict d =>
      items ← collect (fun kv =>
                 s ← encode (S level) kv.2;
                 Ok (encode_basestring kv.1 ++ key_separator ++ s)) d;
      Ok (lit "{" ++ newline_indent (S level)
            ++ join (item_separator ++ newline_indent (S level)) items
            ++ newline_indent level ++ lit "}")
  end.

End Encoder.

End PyJsonEncoder.

(* ===================================================================== *)
(** ** The chunk assembler shared by both [LargeJSONChunker] classes *)
(* ===================================================================== *)

(** [round(n / unit, 2)], counted in hundredths.  For [unit] a power of
    two and [n] below 2^53 the quotient is an exact double, and Python
    rounds it to the nearest hundredth, an exact tie to the even one. *)
Definition round_hundredths (n : nat) (unit : Z) : Z :=
  let scaled := Z.of_nat n * 100 in
  let q := scaled / unit in
  let r := scaled mod unit in
  if 2 * r <? unit then q
  else if unit <? 2 * r then q + 1
  else if Z.even q then q else q + 1.

(** One entry of [self.chunks]; [sizeMB] is
    [round(size / (1024 * 1024), 2)] in hundredths of a megabyte. *)
Record chunk_info := {
  index : nat;
  conversations : nat;
  sizeMB : Z
}.

(** One call of [_save_chunk(chunk_data, index, size)]: the file
    [conversations_chunk_<index>.json] receives [chunk_data]. *)
Record saved_chunk := {
  saved_index : nat;
  saved_data : list json;
  saved_size : nat
}.

(** The fields of [self] that the assembler reads and writes, and the log
    of the files written so far. *)
Record chunker := {
  input_file : str;
  chunk_size_mb : Z;
  current_chunk : list json;
  current_chunk_size : nat;
  chunk_index : nat;
  total_conversations : nat;
  chunks : list chunk_info;
  files : list saved_chunk
}.

Definition chunk_size_bytes (self : chunker) : Z :=
  chunk_size_mb self * 1024 * 1024.

(** [__init__(input_file, chunk_size_mb)]. *)
Definition init (input_file : str) (chunk_size_mb : Z) : chunker :=
  {| input_file := input_file;
     chunk_size_mb := chunk_size_mb;
     current_chunk := [];
     current_chunk_size := 0;
     chunk_index := 0;
     total_conversations := 0;
     chunks := [];
     files := [] |}.

(** The test of [_add_conversation_to_chunk]:
    [current_chunk_size + conversation_size > chunk_size_bytes and
     len(current_chunk) > 0]. *)
Definition must_close (self : chunker) (conversation_size : nat) : bool :=
  (Z.of_nat (current_chunk_size self + conversation_size) >? chunk_size_bytes self)
  && (0 <? length (current_chunk self))%nat.

(** [_save_chunk] followed by [self.chunks.append({...})], as both callers
    do it, for the chunk in progress. *)
Definition save_current (self : chunker) : chunker :=
  {| input_file := input_file self;
     chunk_size_mb := chunk_size_mb self;
     current_chunk := current_chunk self;
     current_chunk_size := current_chunk_size self;
     chunk_index := chunk_index self;
     total_conversations := total_conversations self;
     chunks := chunks self ++
       [{| index := chunk_index self;
           conversations := length (current_chunk self);
           sizeMB := round_hundredths (current_chunk_size self) (1024 * 1024) |}];
     files := files self ++
       [{| saved_index := chunk_index self;
           saved_data := current_chunk self;
           saved_size := current_chunk_size self |}] |}.

(** "Start new chunk". *)
Definition start_new_chunk (self : chunker) : chunker :=
  {| input_file := input_file self;
     chunk_size_mb := chunk_size_mb self;
     current_chunk := [];
     current_chunk_size := 0;
     chunk_index := S (chunk_index self);
     total_conversations := total_conversations self;
     chunks := chunks self;
     files := files self |}.

(** The body of [_add_conversation_to_chunk] once [conversation_size] is
    known; the two classes differ only in how they compute it. *)
Definition add_sized (self : chunker) (conversation : json) (conversation_size : nat)
  : chunker :=
  let self1 :=
    if must_close self conversation_size
    then start_new_chunk (save_current self)
    else self in
  {| input_file := input_file self1;
     chunk_size_mb := chunk_size_mb self1;
     current_chunk := current_chunk self1 ++ [conversation];
     current_chunk_size := current_chunk_size self1 + conversation_size;
     chunk_index := chunk_index self1;
     total_conversations := S (total_conversations self1);
     chunks := chunks self1;
     files := files self1 |}.

(** "Save final chunk" of [chunk_file]: [if self.current_chunk: ...]. *)
Definition save_final_chunk (self : chunker) : chunker :=
  match current_chunk self with
  | [] => self
  | _ :: _ => save_current self
  end.

(* ===================================================================== *)
(** ** [chunk_large_file.py]: the brace-counting scanner *)
(* ===================================================================== *)

(** What [chunk_file] leaves behind when it returns: the list it returns,
    the summary it writes, the chunk files, and the positions named by the
    "Skipping malformed JSON object at position ..." lines it printed. *)
Record summary := {
  originalFile : str;
  originalSizeGB : Z;
  totalConversations : nat;
  totalChunks : nat;
  targetChunkSizeMB : Z;
  summary_chunks : list chunk_info
}.

Record run := {
  returned : list chunk_info;
  summary_file : summary;
  chunk_files : list saved_chunk;
  skip_messages : list Z
}.

(** [_generate_summary(chunks, total_conversations, original_size_gb)],
    given the size of the source in bytes: [originalSizeGB] is
    [round(original_size_gb, 2)] in hundredths of a gigabyte.  The averages
    and estimates of [processingStats] are computed from [chunks] and
    [total_conversations]; they and the time stamp are left out. *)
Definition _generate_summary (self : chunker) (chunks : list chunk_info)
    (total_conversations : nat) (original_size : nat) : summary :=
  {| originalFile := input_file self;
     originalSizeGB := round_hundredths original_size (1024 * 1024 * 1024);
     totalConversations := total_conversations;
     totalChunks := length chunks;
     targetChunkSizeMB := chunk_size_mb self;
     summary_chunks := chunks |}.

Module LargeJSONChunker.

(** The locals of [_process_file_streaming] other than [buffer], together
    with [self] and the skip lines printed so far. *)
Record cursor := {
  bracket_depth : Z;
  in_array : bool;
  object_start : Z;
  self : chunker;
  skipped : list Z
}.

Definition with_object_start (c : cursor) (v : Z) : cursor :=
  {| bracket_depth := bracket_depth c; in_array := in_array c;
     object_start := v; self := self c; skipped := skipped c |}.

Definition with_bracket_depth (c : cursor) (v : Z) : cursor :=
  {| bracket_depth := v; in_array := in_array c;
     object_start := object_start c; self := self c; skipped := skipped c |}.

Definition with_in_array (c : cursor) (v : bool) : cursor :=
  {| bracket_depth := bracket_depth c; in_array := v;
     object_start := object_start c; self := self c; skipped := skipped c |}.

Definition with_self (c : cursor) (v : chunker) : cursor :=
  {| bracket_depth := bracket_depth c; in_array := in_array c;
     object_start := object_start c; self := v; skipped := skipped c |}.

Definition with_skipped (c : cursor) (v : list Z) : cursor :=
  {| bracket_depth := bracket_depth c; in_array := in_array c;
     object_start := object_start c; self := self c; skipped := v |}.

(** [_add_conversation_to_chunk(conversation, conversation_str)]: the size
    is that of the text the object was cut from. *)
Definition _add_conversation_to_chunk (self : chunker) (conversation : json)
    (conversation_str : str) : chunker :=
  add_sized self conversation (encoded_len conversation_str).

(** [_save_chunk(chunk_data, index, size)]: [json.dump] with
    [ensure_ascii=False] into a file opened with [encoding='utf-8'] raises
    [UnicodeEncodeError] when a record holds a text that cannot be
    encoded. *)
Definition _save_chunk (chunk_data : list json) : result unit :=
  if forallb writable chunk_data then Ok () else Raise UnicodeEncodeError.

(** The calls of [_save_chunk] that [files] logs, in their order. *)
Fixpoint save_all (files : list saved_chunk) : result unit :=
  match files with
  | [] => Ok ()
  | f :: files' => _save_chunk (saved_data f) ≫= fun _ => save_all files'
  end.

Section Scanner.

(** [json.loads]: [None] stands for [json.JSONDecodeError].  The limits of
    the interpreter under which it raises something else (the depth of the
    recursion, the number of digits of an integer) are left out. *)
Variable json_loads : str -> option json.

(** "We have a complete object": lines 107-113. *)
Definition complete_object (buffer : str) (i : Z) (c : cursor) : cursor :=
  let object_str := slice buffer (object_start c) (i + 1) in
  let c' :=
    match json_loads object_str with
    | Some conversation =>
        with_self c (_add_conversation_to_chunk (self c) conversation object_str)
    | None =>
        with_skipped c (skipped c ++ [object_start c])
    end in
  with_object_start c' (-1).

(** One turn of [while i < len(buffer)] at [char = buffer[i]]. *)
Definition scan_char (buffer : str) (i : Z) (char : char) (c : cursor) : cursor :=
  if char_eqb char (chr "[") && negb (in_array c) then
    with_object_start (with_in_array c true) (i + 1)
  else if char_eqb char (chr "{") && in_array c then
    let c1 := if bracket_depth c =? 0 then with_object_start c i else c in
    with_bracket_depth c1 (bracket_depth c1 + 1)
  else if char_eqb char (chr "}") && in_array c then
    let c1 := with_bracket_depth c (bracket_depth c - 1) in
    if (bracket_depth c1 =? 0) && negb (object_start c1 =? -1)
    then complete_object buffer i c1
    else c1
  else c.

(** The inner loop from index [i] on, [rest] being [buffer[i:]]. *)
Fixpoint scan_from (buffer rest : str) (i : Z) (c : cursor) : cursor :=
  match rest with
  | [] => c
  | char :: rest' => scan_from buffer rest' (i + 1) (scan_char buffer i char c)
  end.

(** "Process the buffer": [i = 0; while i < len(buffer): ...]. *)
Definition process_buffer (buffer : str) (c : cursor) : cursor :=
  scan_from buffer buffer 0 c.

(** "Keep only the unprocessed part of the buffer": lines 118-125. *)
Definition keep_unprocessed (buffer : str) (c : cursor) : str * cursor :=
  if negb (object_start c =? -1) && (0 <? object_start c) then
    (slice_from buffer (object_start c), with_object_start c 0)
  else if (bracket_depth c =? 0) && in_array c then
    let last_brace := rfind buffer (chr "}") in
    if negb (last_brace =? -1) then (slice_from buffer (last_brace + 1), c)
    else (buffer, c)
  else (buffer, c).

(** One turn of [while True] after a non-empty [file.read]. *)
Definition read_step (bc : str * cursor) (chunk : str) : str * cursor :=
  let buffer := bc.1 ++ chunk in
  keep_unprocessed buffer (process_buffer buffer bc.2).

(** The successive non-empty results of [file.read(n)] on a file holding
    [file]; the fuel [length file] is never exhausted for [0 < n]. *)
Fixpoint read_blocks_fuel (fuel n : nat) (file : str) : list str :=
  match fuel with
  | O => []
  | S fuel' =>
      match file with
      | [] => []
      | _ :: _ => take n file :: read_blocks_fuel fuel' n (drop n file)
      end
  end.

Definition read_blocks (n : nat) (file : str) : list str :=
  read_blocks_fuel (length file) n file.

Definition start (self : chunker) : str * cursor :=
  ([], {| bracket_depth := 0; in_array := false; object_start := -1;
          self := self; skipped := [] |}).

(** [_process_file_streaming] reading [n] characters at a time. *)
Definition process_file_by (n : nat) (self : chunker) (file : str) : str * cursor :=
  fold_left read_step (read_blocks n file) (start self).

(** [_process_file_streaming]: [file.read(64 * 1024)]. *)
Definition READ_SIZE : nat := Z.to_nat (64 * 1024).

Definition _process_file_streaming (self : chunker) (file : str) : str * cursor :=
  process_file_by READ_SIZE self file.

(** [chunk_file]; [input] is the text of [data/<input_file>] as the text
    layer delivers it, with the size of the file in bytes, [None] when the
    file does not exist.  An exception of [_save_chunk] leaves the scan and
    [chunk_file] at once, and the handler raises it again: the run ends
    with it exactly when one of the chunks that the scan closes, or the
    final one, cannot be written, and nothing after the failed call is
    observed.  So the scan is run through, and the calls of [_save_chunk]
    it logs are gone through in their order before the summary.  The name
    of the input file, which the run prints and writes into the summary,
    is taken to be a text that encodes in UTF-8, and the console to take
    the lines the run prints. *)
Definition chunk_file (self : chunker) (input : option (str * nat)) : result run :=
  match input with
  | None => Raise FileNotFoundError
  | Some (file, file_size) =>
      let '(_, c) := _process_file_streaming self file in
      let self' := save_final_chunk (LargeJSONChunker.self c) in
      save_all (files self') ≫= fun _ =>
      Ok {| returned := chunks self';
            summary_file :=
              _generate_summary self' (chunks self') (total_conversations self')
                                file_size;
            chunk_files := files self';
            skip_messages := skipped c |}
  end.

End Scanner.

End LargeJSONChunker.


(* ===================================================================== *)
(** ** [chunk_large_file_ijson.py]: rebuilding records from ijson events *)
(* ===================================================================== *)

(** The scripts that read their input with ijson are followed on the
    document the file holds.  Its texts are taken to be texts that UTF-8
    encodes: ijson decodes the bytes of the file itself, and what it makes
    of the escape of a lone surrogate depends on its backend.  The
    non-integer numbers of the document reach the scripts as [Decimal]. *)

(** The events of [ijson.parse]. *)
Inductive event_name :=
| start_map | end_map | map_key | start_array | end_array
| string_ev | number_ev | boolean_ev | null_ev | integer_ev | double_ev.

Definition event_name_eqb (a b : event_name) : bool :=
  match a, b with
  | start_map, start_map | end_map, end_map | map_key, map_key
  | start_array, start_array | end_array, end_array
  | string_ev, string_ev | number_ev, number_ev | boolean_ev, boolean_ev
  | null_ev, null_ev | integer_ev, integer_ev | double_ev, double_ev => true
  | _, _ => false
  end.

(** One [(prefix, event, value)] triple. *)
Record event := {
  prefix : str;
  name : event_name;
  value : json
}.

Module Ijson.

(** The prefix of what lies under [segment] of a container at [prefix]. *)
Definition child (prefix segment : str) : str :=
  match prefix with
  | [] => segment
  | _ => prefix ++ lit "." ++ segment
  end.

(** [ijson.parse] on a document holding the value [v], from [prefix] on:
    a map sends [start_map], then for each member [map_key] and the events
    of the value under [prefix.key], then [end_map]; an array sends
    [start_array], its elements under [prefix.item], then [end_array]. *)
Fixpoint events (prefix : str) (v : json) : list event :=
  match v with
  | JNull => [{| prefix := prefix; name := null_ev; value := JNull |}]
  | JBool b => [{| prefix := prefix; name := boolean_ev; value := v |}]
  | JInt _ | JReal _ _ | JNonFinite _ =>
      [{| prefix := prefix; name := number_ev; value := v |}]
  | JStr _ => [{| prefix := prefix; name := string_ev; value := v |}]
  | JList l =>
      {| prefix := prefix; name := start_array; value := JNull |}
      :: flat_map (events (child prefix (lit "item"))) l
      ++ [{| prefix := prefix; name := end_array; value := JNull |}]
  | JDict d =>
      {| prefix := prefix; name := start_map; value := JNull |}
      :: flat_map (fun kv =>
                     {| prefix := prefix; name := map_key; value := JStr kv.1 |}
                     :: events (child prefix kv.1) kv.2) d
      ++ [{| prefix := prefix; name := end_map; value := JNull |}]
  end.

(** [ijson.parse(file)]. *)
Definition parse (document : json) : list event := events [] document.

End Ijson.

Module LargeJSONChunkerIjson.

(** [while len(current) <= key: current.append(filler)]. *)
Definition extend (current : list json) (key : nat) (filler : json) : list json :=
  current ++ replicate (S key - length current) filler.

(** The walk of [_set_nested_value] over [keys], the last one being the
    final key; the result is what [current] has become.  A key with
    [key.isdigit()] goes through [int(key)] first, which can raise
    [ValueError]; [Raise TypeError] where Python cannot index or assign. *)
Fixpoint set_keys (current : json) (keys : list str) (value : json) : result json :=
  match keys with
  | [] => Ok current
  | key :: keys' =>
      match keys' with
      | [] =>
          (* "Set the final value" *)
          if isdigit key then
            final_key ← int_of_str key;
            match current with
            | JList l =>
                Ok (JList (<[final_key := value]> (extend l final_key JNull)))
            | _ => Ok current
            end
          else
            match current with
            | JDict d => Ok (JDict (dict_set d key value))
            | _ => Raise TypeError
            end
      | _ :: _ =>
          (* "Navigate to the parent of the target key" *)
          if isdigit key then
            k ← int_of_str key;
            match current with
            | JList l =>
                let l' := extend l k (JDict []) in
                match l' !! k with
                | Some next =>
                    next' ← set_keys next keys' value;
                    Ok (JList (<[k := next']> l'))
                | None => Ok current
                end
            | _ => Ok current
            end
          else
            match current with
            | JDict d =>
                let d' := if dict_mem d key then d else dict_set d key (JDict []) in
                match dict_get d' key with
                | Some next =>
                    next' ← set_keys next keys' value;
                    Ok (JDict (dict_set d' key next'))
                | None => Ok current
                end
            | _ => Raise TypeError
            end
      end
  end.

(** [_set_nested_value(obj, path, value)]; the result is [obj] after the
    call. *)
Definition _set_nested_value (obj : json) (path : str) (value : json) : result json :=
  match path with
  | [] => Ok obj
  | _ :: _ => set_keys obj (split_on (chr ".") path) value
  end.

Definition is_scalar_event (e : event_name) : bool :=
  match e with
  | string_ev | number_ev | boolean_ev | null_ev => true
  | _ => false
  end.

(** [_build_object_from_ijson_event(obj, prefix, event, value)]. *)
Definition _build_object_from_ijson_event (obj : json) (prefix : str)
    (event : event_name) (value : json) : result json :=
  if match prefix with [] => true | _ => false end || startswith prefix (lit "item.") then
    let path :=
      if startswith prefix (lit "item.") then remove_all (lit "item.") prefix
      else prefix in
    if is_scalar_event event then _set_nested_value obj path value
    else if event_name_eqb event start_map then
      match path with
      | [] => Ok obj
      | _ :: _ => _set_nested_value obj path (JDict [])
      end
    else if event_name_eqb event start_array then
      match path with
      | [] => Ok obj
      | _ :: _ => _set_nested_value obj path (JList [])
      end
    else Ok obj
  else Ok obj.

(** [json.dumps(conversation, ensure_ascii=False)]: ijson hands over the
    non-integer numbers as [Decimal], which the encoder refuses. *)
Definition json_dumps (conversation : json) : result str :=
  PyJsonEncoder.encode (fun _ _ => Raise TypeError) None 0 conversation.

(** [json.dump(chunk_data, f, indent=2, ensure_ascii=False)]: the text of
    a chunk file. *)
Definition json_dump_indent2 (chunk_data : list json) : result str :=
  PyJsonEncoder.encode (fun _ _ => Raise TypeError) (Some 2%nat) 0 (JList chunk_data).

(** [_add_conversation_to_chunk(conversation)]. *)
Definition _add_conversation_to_chunk (self : chunker) (conversation : json)
  : result chunker :=
  conversation_str ← json_dumps conversation;
  Ok (add_sized self conversation (encoded_len conversation_str)).

(** The locals of [_process_file_with_ijson] that are read, and [self]. *)
Record loop_state := {
  current_object : json;
  in_array : bool;
  self : chunker
}.

(** [for prefix, event, value in parser: ...]. *)
Fixpoint event_loop (parser : list event) (st : loop_state) : result loop_state :=
  match parser with
  | [] => Ok st
  | ev :: parser' =>
      let at_root := match prefix ev with [] => true | _ => false end in
      let top := (count_char (prefix ev) (chr ".") =? 0)%nat in
      if at_root && event_name_eqb (name ev) start_array then
        event_loop parser'
          {| current_object := current_object st; in_array := true; self := self st |}
      else if at_root && event_name_eqb (name ev) end_array then
        Ok st
      else if in_array st && event_name_eqb (name ev) start_map && top then
        event_loop parser'
          {| current_object := JDict []; in_array := in_array st; self := self st |}
      else if in_array st && event_name_eqb (name ev) end_map && top then
        self' ← (if truthy (current_object st)
                 then _add_conversation_to_chunk (self st) (current_object st)
                 else Ok (self st));
        event_loop parser'
          {| current_object := JDict []; in_array := in_array st; self := self' |}
      else if in_array st then
        obj ← _build_object_from_ijson_event (current_object st) (prefix ev)
                (name ev) (value ev);
        event_loop parser'
          {| current_object := obj; in_array := in_array st; self := self st |}
      else event_loop parser' st
  end.

(** [_process_file_with_ijson]; [parser] is what [ijson.parse(file)]
    yields. *)
Definition _process_file_with_ijson (self : chunker) (parser : list event)
  : result chunker :=
  st ← event_loop parser
         {| current_object := JDict []; in_array := false; self := self |};
  Ok (LargeJSONChunkerIjson.self st).

(** [chunk_file]; [input] is the document held by [data/<input_file>] with
    its size in bytes, [None] when the file does not exist.  The name of
    the input file is taken to be a text that encodes in UTF-8. *)
Definition chunk_file (self : chunker) (input : option (json * nat)) : result run :=
  match input with
  | None => Raise FileNotFoundError
  | Some (document, file_size) =>
      self1 ← _process_file_with_ijson self (Ijson.parse document);
      let self' := save_final_chunk self1 in
      Ok {| returned := chunks self';
            summary_file :=
              _generate_summary self' (chunks self') (total_conversations self')
                                file_size;
            chunk_files := files self';
            skip_messages := [] |}
  end.

End LargeJSONChunkerIjson.

(* ===================================================================== *)
(** ** [chunk-zainjo-python.py] and [chunk-zainjo-ijson.py] *)
(* ===================================================================== *)

Module Zainjo.

(** What [save_chunk(output_dir, chunk_number, chatters)] writes into
    [zainjo-chunk-<chunk_number>.json]. *)
Record chunk_data := {
  chunkNumber : nat;
  totalChatters : nat;
  chatters : list json
}.

(** The summary written into [chunking-summary.json] (the timestamp, the
    source path and its size are left out). *)
Record summary := {
  summary_totalChatters : nat;
  summary_totalChunks : nat;
  maxChattersPerChunk : nat
}.

(** The locals of the loop and the files written so far. *)
Record locals := {
  current_chunk : nat;
  chatters_processed : nat;
  current_chunk_data : list json;
  written : list chunk_data
}.

Record outcome := {
  out_files : list chunk_data;
  out_summary : summary
}.

Definition max_chatters_per_chunk : nat := 500.

(** The dictionary that [save_chunk] builds and hands to [json.dump]. *)
Definition chunk_json (chunk_number : nat) (chatters : list json) : json :=
  JDict [(lit "chunkNumber", JInt (Z.of_nat chunk_number));
         (lit "totalChatters", JInt (Z.of_nat (length chatters)));
         (lit "chatters", JList chatters)].

(** [chatter.get(key)]: only a [dict] has the method. *)
Definition get (chatter : json) (key : str) : result json :=
  match chatter with
  | JDict d => Ok (default JNull (dict_get d key))
  | _ => Raise AttributeError
  end.

Section Loop.

(** The two scripts run the same loop over records of different making:
    [truthy] is the truth value of a field of such a record, [save_chunk]
    is the function of that name of the script. *)
Variable truthy : json -> bool.
Variable save_chunk : nat -> list json -> result chunk_data.

(** [chatter.get('SenderID') and chatter.get('ChatHistory')], as a truth
    value. *)
Definition has_required_fields (chatter : json) : result bool :=
  sender ← get chatter (lit "SenderID");
  if truthy sender then
    history ← get chatter (lit "ChatHistory");
    Ok (truthy history)
  else Ok false.

(** The body of [for chatter in ...]. *)
Definition step (st : locals) (chatter : json) : result locals :=
  has_required_fields chatter ≫= fun keep : bool =>
  if keep then
    let data := current_chunk_data st ++ [chatter] in
    let processed := S (chatters_processed st) in
    if (max_chatters_per_chunk <=? length data)%nat then
      chunk ← save_chunk (current_chunk st) data;
      Ok {| current_chunk := S (current_chunk st);
            chatters_processed := processed;
            current_chunk_data := [];
            written := written st ++ [chunk] |}
    else
      Ok {| current_chunk := current_chunk st;
            chatters_processed := processed;
            current_chunk_data := data;
            written := written st |}
  else Ok st.

Fixpoint loop (active_chatters : list json) (st : locals) : result locals :=
  match active_chatters with
  | [] => Ok st
  | chatter :: rest => st' ← step st chatter; loop rest st'
  end.

(** "Save remaining data" and the summary. *)
Definition finish (st : locals) : result outcome :=
  st' ← match current_chunk_data st with
        | [] => Ok st
        | _ :: _ =>
            chunk ← save_chunk (current_chunk st) (current_chunk_data st);
            Ok {| current_chunk := S (current_chunk st);
                  chatters_processed := chatters_processed st;
                  current_chunk_data := current_chunk_data st;
                  written := written st ++ [chunk] |}
        end;
  Ok {| out_files := written st';
        out_summary :=
          {| summary_totalChatters := chatters_processed st';
             summary_totalChunks := current_chunk st';
             maxChattersPerChunk := max_chatters_per_chunk |} |}.

End Loop.

Definition initial : locals :=
  {| current_chunk := 0; chatters_processed := 0; current_chunk_data := [];
     written := [] |}.

(** What iterating over a Python value yields. *)
Definition iterate (v : json) : result (list json) :=
  match v with
  | JList l => Ok l
  | JDict d => Ok (map (fun kv => JStr kv.1) d)
  | JStr s => Ok (map (fun c => JStr [c]) s)
  | _ => Raise TypeError
  end.

(** [save_chunk] of [chunk-zainjo-python.py]: the records come from
    [json.load], and [json.dump] with [ensure_ascii=False] into a file
    opened with [encoding='utf-8'] raises [UnicodeEncodeError] on a text
    that cannot be encoded. *)
Definition save_chunk (chunk_number : nat) (chatters : list json) : result chunk_data :=
  if writable (chunk_json chunk_number chatters)
  then Ok {| chunkNumber := chunk_number;
             totalChatters := length chatters;
             chatters := chatters |}
  else Raise UnicodeEncodeError.

Section Console.

(** The console encodes what is printed in UTF-8, so that it takes every
    text without a surrogate; which texts with a surrogate it takes depends
    on the error handler of [sys.stdout], and [console] tells it. *)
Variable console : str -> bool.

(** [print(f"... {v}")]: the text of a [str] is printed as it is; any
    other value is printed through its [repr], which escapes the
    surrogates. *)
Definition print_value (v : json) : result unit :=
  match v with
  | JStr s => if encodable s || console s then Ok () else Raise UnicodeEncodeError
  | _ => Ok ()
  end.

(** [chunk_zainjo_file] of [chunk-zainjo-python.py], up to the summary;
    [data] is what [json.load] returned, so that a non-integer number is a
    [float].  The value of [Count] is printed before the loop.  An
    exception ends the script with [sys.exit(1)]. *)
Definition chunk_zainjo_file (data : json) : result outcome :=
  count ← get data (lit "Count");
  print_value count ≫= fun _ : unit =>
  match data with
  | JDict d =>
      let active_chatters := default (JList []) (dict_get d (lit "ActiveChatters")) in
      items ← iterate active_chatters;
      st ← loop truthy_loaded save_chunk items initial;
      finish save_chunk st
  | _ => Raise AttributeError
  end.

End Console.

End Zainjo.

(* ===================================================================== *)
(** ** Notions used to state the properties *)
(* ===================================================================== *)

(** *** The assembler *)

(** Adding a sequence of records, each with the size computed for it. *)
Definition add_all (self : chunker) (records : list (json * nat)) : chunker :=
  fold_left (fun s r => add_sized s r.1 r.2) records self.

(** The chunk in progress of [self] was saved on the way to [self']. *)
Definition closed_before_adding (self self' : chunker) : Prop :=
  files self' = files self ++
    [{| saved_index := chunk_index self;
        saved_data := current_chunk self;
        saved_size := current_chunk_size self |}].

(** The file that holds the group [g] of sized records as chunk [i], and
    the entry of [self.chunks] that goes with it. *)
Definition file_of_group (i : nat) (g : list (json * nat)) : saved_chunk :=
  {| saved_index := i; saved_data := g.*1; saved_size := sum_list (g.*2) |}.

Definition info_of_file (f : saved_chunk) : chunk_info :=
  {| index := saved_index f;
     conversations := length (saved_data f);
     sizeMB := round_hundredths (saved_size f) (1024 * 1024) |}.

Definition info_of_group (i : nat) (g : list (json * nat)) : chunk_info :=
  info_of_file (file_of_group i g).

(** A group that may be flushed under [budget]: not empty, and within the
    budget unless it is a single record that alone exceeds it. *)
Definition within_budget (budget : Z) (g : list (json * nat)) : Prop :=
  g <> [] /\
  (Z.of_nat (sum_list (g.*2)) <= budget \/
   exists r, g = [r] /\ budget < Z.of_nat r.2).

(** The state of the assembler after the records [done] were added:
    the closed groups are the files, the open group is the chunk in
    progress. *)
Record assembled (budget : Z) (self : chunker) (done : list (json * nat))
    (groups : list (list (json * nat))) (cur : list (json * nat)) : Prop := {
  asm_budget : chunk_size_bytes self = budget;
  asm_done : concat groups ++ cur = done;
  asm_files : files self = imap file_of_group groups;
  asm_chunks : chunks self = imap info_of_group groups;
  asm_index : chunk_index self = length groups;
  asm_current : current_chunk self = cur.*1;
  asm_size : current_chunk_size self = sum_list (cur.*2);
  asm_total : total_conversations self = length done;
  asm_closed : Forall (within_budget budget) groups;
  asm_open : cur = [] \/ within_budget budget cur
}.

(** The records of the files written so far, and all records taken so far. *)
Definition written_records (self : chunker) : list json :=
  concat (saved_data <$> files self).

Definition all_records (self : chunker) : list json :=
  written_records self ++ current_chunk self.

(** *** The scanner *)

(** What a run lets one observe, without the size of the source file. *)
Definition observed (r : result run)
  : option (list chunk_info * nat * list saved_chunk * list Z) :=
  match r with
  | Ok r => Some (returned r, totalConversations (summary_file r),
                  chunk_files r, skip_messages r)
  | Raise _ => None
  end.

Definition summary_of (r : result run) : option summary :=
  match r with
  | Ok r => Some (summary_file r)
  | Raise _ => None
  end.

(** A file holding the text [s] in UTF-8. *)
Definition file_of_text (s : str) : option (str * nat) := Some (s, encoded_len s).

(** A chunker as [main] builds it, with the default budget of 100 MB. *)
Definition sample_chunker : chunker := init (lit "conversations.json") 100.

(** The scanner with the decoder of [PyJson] run on a file holding [s]. *)
Definition scan (s : str) : result run :=
  LargeJSONChunker.chunk_file PyJson.json_loads sample_chunker (file_of_text s).

(** The depth and the buffer [_process_file_streaming] ends with. *)
Definition final_depth (file : str) : Z :=
  LargeJSONChunker.bracket_depth
    (LargeJSONChunker._process_file_streaming PyJson.json_loads sample_chunker file).2.

Definition final_buffer (file : str) : str :=
  (LargeJSONChunker._process_file_streaming PyJson.json_loads sample_chunker file).1.

(** The number of elements of the array a text denotes. *)
Definition array_length (s : str) : option nat :=
  match PyJson.json_loads s with
  | Some (JList l) => Some (length l)
  | _ => None
  end.

(** An array of two objects; the first holds a closing brace in a string. *)
Definition brace_in_string_input : str := text "[{'a':'}'},{'b':1}]".

(** An array of one object that is longer than one read of 64 KB. *)
Definition long_record : str :=
  text "{'k':'" ++ replicate LargeJSONChunker.READ_SIZE (chr "x") ++ text "'}".

Definition long_record_input : str := lit "[" ++ long_record ++ lit "]".

(** The same long object followed by 8200 small ones. *)
Definition small_record : str := text "{'b':1}".

Definition long_then_small_input : str :=
  lit "[" ++ long_record
    ++ concat (replicate (Z.to_nat 8200) (lit "," ++ small_record)) ++ lit "]".


(** An array whose second element is not JSON and whose first one holds a
    two-byte character (e with acute accent, U+00E9). *)
Definition malformed_input : str :=
  text "[{'a':'" ++ [233%N] ++ text "'},{x},{'b':2}]".

(** An input with the same number of bytes and the same well-formed
    objects as [malformed_input], and nothing to skip. *)
Definition wellformed_input : str :=
  text "[{'a':'" ++ [233%N] ++ text "'},123,{'b':2}]".

(** *** The event loop *)

(** The array of the objects [elements], as a document. *)
Definition array_of_objects (elements : list (list (str * json))) : json :=
  JList (JDict <$> elements).

(** The events of one object of the top-level array. *)
Definition element_events (element : list (str * json)) : list event :=
  Ijson.events (lit "item") (JDict element).

Definition below_root (e : event) : Prop := prefix e <> [].

(** What one segment of a path does, by its kind and the container met. *)
Definition segment_step (current : json) (key : str) (rest : list str) (value : json)
  : result json :=
  if isdigit key then
    n ← int_of_str key;
    match current, rest with
    | JList l, [] =>
        Ok (JList (<[n := value]> (LargeJSONChunkerIjson.extend l n JNull)))
    | JList l, _ :: _ =>
        next' ← LargeJSONChunkerIjson.set_keys (default (JDict []) (l !! n)) rest value;
        Ok (JList (<[n := next']> (LargeJSONChunkerIjson.extend l n (JDict []))))
    | _, _ => Ok current
    end
  else
    match current, rest with
    | JDict d, [] =>
        Ok (JDict (dict_set d key value))
    | JDict d, _ :: _ =>
        next' ← LargeJSONChunkerIjson.set_keys (default (JDict []) (dict_get d key)) rest value;
        Ok (JDict (dict_set d key next'))
    | _, _ => Raise TypeError
    end.


(** *** Sizes *)

Definition total_len (items : list str) : nat := sum_list (encoded_len <$> items).

(** The size [_add_conversation_to_chunk] computes for a record. *)
Definition dumped (r : json * nat) : Prop :=
  exists s, LargeJSONChunkerIjson.json_dumps r.1 = Ok s /\ r.2 = encoded_len s.

(** What C9 says of one chunk file [f]: it is not empty, its recorded size
    is the sum of the lengths in bytes of the compact serializations of its
    records, and the text written into the file is strictly longer. *)
Definition compact_size_below_file_length (f : saved_chunk) : Prop :=
  saved_data f <> [] /\
  exists (strs : list str) (written : str),
    Forall2 (fun conversation s => LargeJSONChunkerIjson.json_dumps conversation = Ok s)
            (saved_data f) strs /\
    saved_size f = sum_list (encoded_len <$> strs) /\
    LargeJSONChunkerIjson.json_dump_indent2 (saved_data f) = Ok written /\
    (saved_size f < encoded_len written)%nat.

(** The size [LargeJSONChunker] computes for a record: the length in
    bytes of the text it was decoded from. *)
Definition sourced (json_loads : str -> option json) (r : json * nat) : Prop :=
  exists s, json_loads s = Some r.1 /\ r.2 = encoded_len s.

(** What holds of a chunk file [f] of the scanner instead: its recorded
    size is the sum of the lengths in bytes of the texts its records were
    decoded from. *)
Definition source_size (json_loads : str -> option json) (f : saved_chunk) : Prop :=
  saved_data f <> [] /\
  exists strs : list str,
    Forall2 (fun conversation s => json_loads s = Some conversation) (saved_data f) strs /\
    saved_size f = sum_list (encoded_len <$> strs).

(** [q] hundredths is [n / unit] rounded to the nearest hundredth, to the
    even one on a tie. *)
Definition nearest_hundredth (n : nat) (unit q : Z) : Prop :=
  2 * Z.abs (q * unit - 100 * Z.of_nat n) <= unit /\
  (2 * Z.abs (q * unit - 100 * Z.of_nat n) = unit -> Z.even q = true).

(** The entry [info] of the summary reports the chunk file [f]: its index,
    the number of its records, and its recorded size in megabytes rounded
    to two places. *)
Definition reports (info : chunk_info) (f : saved_chunk) : Prop :=
  index info = saved_index f /\
  conversations info = length (saved_data f) /\
  nearest_hundredth (saved_size f) (1024 * 1024) (sizeMB info).

(** An array of one object written without blanks, and the same array
    with a hundred blanks inside the object. *)
Definition tight_input : str := text "[{'a':1}]".

Definition spaced_input : str :=
  text "[{" ++ replicate 100 32%N ++ text "'a':1}]".

(** A document of three objects, the second empty, read with a budget of
    0 MB so that every record closes the chunk before it. *)
Definition sample_document : json :=
  JList [JDict [(lit "a", JStr (lit "x"))];
         JDict [];
         JDict [(lit "b", JDict [(lit "c", JInt 1)])]].

Definition sample_run : run :=
  {| returned := [{| index := 0; conversations := 1; sizeMB := 0 |};
                  {| index := 1; conversations := 1; sizeMB := 0 |}];
     summary_file :=
       {| originalFile := lit "conversations.json"; originalSizeGB := 0;
          totalConversations := 2; totalChunks := 2;
          targetChunkSizeMB := 0;
          summary_chunks := [{| index := 0; conversations := 1; sizeMB := 0 |};
                             {| index := 1; conversations := 1; sizeMB := 0 |}] |};
     chunk_files :=
       [{| saved_index := 0; saved_data := [JDict [(lit "a", JStr (lit "x"))]];
           saved_size := 10 |};
        {| saved_index := 1;
           saved_data := [JDict [(lit "b", JDict [(lit "c", JInt 1)])]];
           saved_size := 15 |}];
     skip_messages := [] |}.

(** *** The Zainjo scripts *)

(** A record with a truthy [SenderID] and a truthy [ChatHistory], for
    the truth value [truthy] of the script. *)
Definition has_fields (truthy : json -> bool) (chatter : list (str * json)) : bool :=
  truthy (default JNull (dict_get chatter (lit "SenderID")))
  && truthy (default JNull (dict_get chatter (lit "ChatHistory"))).

(** Such a record as ijson hands it over, and as [json.load] does. *)
Definition has_sender_and_history (chatter : list (str * json)) : bool :=
  has_fields truthy chatter.

Definition has_sender_and_history_loaded (chatter : list (str * json)) : bool :=
  has_fields truthy_loaded chatter.

(** Whether the [Count] of the document is printed: it is, unless it is a
    text with a surrogate that the console refuses. *)
Definition count_printed (console : str -> bool) (d : list (str * json)) : bool :=
  match dict_get d (lit "Count") with
  | Some (JStr s) => encodable s || console s
  | _ => true
  end.

(** The file that holds the group [g] as chunk [i]. *)
Definition chunk_holding (i : nat) (g : list json) : Zainjo.chunk_data :=
  {| Zainjo.chunkNumber := i;
     Zainjo.totalChatters := length g;
     Zainjo.chatters := g |}.

(** A [save_chunk] that refuses nothing, to compare the scripts with. *)
Definition save_any (chunk_number : nat) (chatters : list json)
  : result Zainjo.chunk_data :=
  Ok (chunk_holding chunk_number chatters).

(** The loop after the kept records [kept]: full chunks are written, the
    rest waits in [current_chunk_data]. *)
Record chunked (st : Zainjo.locals) (kept : list json) (groups : list (list json))
  : Prop := {
  zj_written : Zainjo.written st = imap chunk_holding groups;
  zj_number : Zainjo.current_chunk st = length groups;
  zj_full : Forall (fun g => length g = Zainjo.max_chatters_per_chunk) groups;
  zj_open : (length (Zainjo.current_chunk_data st) < Zainjo.max_chatters_per_chunk)%nat;
  zj_kept : concat groups ++ Zainjo.current_chunk_data st = kept;
  zj_count : Zainjo.chatters_processed st = length kept
}.

(** What the scripts leave behind: chunk [i] holds group [i], every group
    but the last has exactly 500 records, the last has between 1 and 500,
    and the summary counts the kept records and the chunks. *)
Definition chunks_of_500 (out : Zainjo.outcome) (kept : list json) : Prop :=
  exists groups,
    concat groups = kept /\
    Zainjo.out_files out = imap chunk_holding groups /\
    (forall i g, groups !! i = Some g ->
       (1 <= length g <= 500)%nat /\
       (S i < length groups -> length g = 500)%nat) /\
    Zainjo.summary_totalChatters (Zainjo.out_summary out) = length kept /\
    Zainjo.summary_totalChunks (Zainjo.out_summary out) = length groups.

Definition zainjo_sample_records : list (list (str * json)) :=
  [ [(lit "SenderID", JStr (lit "a")); (lit "ChatHistory", JList [JInt 1])];
    [(lit "SenderID", JStr []); (lit "ChatHistory", JList [JInt 2])];
    [(lit "ChatHistory", JList [JInt 3])];
    [(lit "SenderID", JStr (lit "d")); (lit "ChatHistory", JList [])];
    [(lit "SenderID", JInt 7); (lit "ChatHistory", JStr (lit "hello"))] ].

Definition zainjo_sample_document : list (str * json) :=
  [(lit "Count", JInt 5);
   (lit "ActiveChatters", JList (JDict <$> zainjo_sample_records))].

(** A document of two records; the first has both fields and holds the
    number 1.5 in a message, the second has an empty [SenderID]. *)
Definition zainjo_decimal_records : list (list (str * json)) :=
  [ [(lit "SenderID", JStr (lit "a"));
     (lit "ChatHistory",
      JList [JDict [(lit "MessageText", JStr (lit "hi"));
                    (lit "Score", JReal 15 (-1))]])];
    [(lit "SenderID", JStr []); (lit "ChatHistory", JList [JInt 2])] ].

Definition zainjo_decimal_document : list (str * json) :=
  [(lit "Count", JInt 2);
   (lit "ActiveChatters", JList (JDict <$> zainjo_decimal_records))].

(** *** Induction on JSON values *)

Section JsonInduction.

Variable P : json -> Prop.
Hypothesis Hnull : P JNull.
Hypothesis Hbool : forall b, P (JBool b).
Hypothesis Hint : forall z, P (JInt z).
Hypothesis Hreal : forall m e, P (JReal m e).
Hypothesis Hnonfinite : forall k, P (JNonFinite k).
Hypothesis Hstr : forall s, P (JStr s).
Hypothesis Hlist : forall l, Forall P l -> P (JList l).
Hypothesis Hdict : forall d, Forall (fun kv => P kv.2) d -> P (JDict d).

Fixpoint json_ind (v : json) : P v :=
  match v with
  | JNull => Hnull
  | JBool b => Hbool b
  | JInt z => Hint z
  | JReal m e => Hreal m e
  | JNonFinite k => Hnonfinite k
  | JStr s => Hstr s
  | JList l =>
      Hlist l
        ((fix all (l : list json) : Forall P l :=
            match l with
            | [] => Forall_nil P
            | x :: l' => Forall_cons P x l' (json_ind x) (all l')
            end) l)
  | JDict d =>
      Hdict d
        ((fix all (d : list (str * json)) : Forall (fun kv => P kv.2) d :=
            match d with
            | [] => Forall_nil _
            | kv :: d' => Forall_cons _ kv d' (json_ind kv.2) (all d')
            end) d)
  end.

End JsonInduction.

(* ===================================================================== *)
(** ** The rest of the scripts, and further notions *)
(* ===================================================================== *)

(** *** Texts whose objects the reads leave whole *)

(** Whether the braces of [u], counted from depth [d], bring the depth to 0
    at the last character of [u] and not before. *)
Fixpoint closes_at_end (d : nat) (u : str) : bool :=
  match u with
  | [] => false
  | ch :: u' =>
      if char_eqb ch (chr "{") then closes_at_end (S d) u'
      else if char_eqb ch (chr "}") then
        match d with
        | O => false
        | S O => match u' with [] => true | _ => false end
        | S d' => closes_at_end d' u'
        end
      else closes_at_end d u'
  end.

(** A text that runs from an opening brace to the brace that closes it by
    count. *)
Definition braced (t : str) : bool :=
  match t with
  | [] => false
  | ch :: u => char_eqb ch (chr "{") && closes_at_end 1 u
  end.

Definition brace_free (s : str) : bool :=
  forallb (fun ch => negb (char_eqb ch (chr "{")) && negb (char_eqb ch (chr "}"))) s.

Definition bracket_free (s : str) : bool :=
  forallb (fun ch => negb (char_eqb ch (chr "["))) s.

(** The depth after [s], counted from depth [d], as long as no closing
    brace takes it to 0. *)
Fixpoint open_through (d : nat) (s : str) : option nat :=
  match s with
  | [] => Some d
  | ch :: s' =>
      if char_eqb ch (chr "{") then open_through (S d) s'
      else if char_eqb ch (chr "}") then
        match d with
        | S (S d') => open_through (S d') s'
        | _ => None
        end
      else open_through d s'
  end.

(** The beginning of an object that is still open at its end, and the
    depth it is left at. *)
Definition opened (t : str) : option nat :=
  match t with
  | [] => None
  | ch :: u => if char_eqb ch (chr "{") then open_through 1 u else None
  end.

(** A text cut into the objects of the array and what stands between them. *)
Inductive piece :=
| Between (s : str)
| Object (t : str).

Definition piece_text (p : piece) : str :=
  match p with Between s => s | Object t => t end.

Definition piece_ok (p : piece) : bool :=
  match p with Between s => brace_free s | Object t => braced t end.

Definition pieces_text (ps : list piece) : str := concat (piece_text <$> ps).

Definition objects_of (ps : list piece) : list str :=
  omap (fun p => match p with Object t => Some t | Between _ => None end) ps.

(** The reads of a file whose array opens in the first read after [lead],
    each read holding whole pieces. *)
Definition reads_of (lead : str) (first : list piece) (later : list (list piece))
  : list str :=
  (lead ++ chr "[" :: pieces_text first) :: (pieces_text <$> later).

(** The reads of a file of which the last of these reads ends with [t],
    the beginning of an object. *)
Fixpoint then_open (read : str) (later : list (list piece)) (t : str) : list str :=
  match later with
  | [] => [read ++ t]
  | ps :: later' => read :: then_open (pieces_text ps) later' t
  end.

Definition reads_then_open (lead : str) (first : list piece)
    (later : list (list piece)) (t : str) : list str :=
  then_open (lead ++ chr "[" :: pieces_text first) later t.

Section Decoded.

Variable json_loads : str -> option json.

(** The records the scanner should hand over for the object texts [objs],
    with their sizes, and the texts it should skip. *)
Definition decoded (objs : list str) : list (json * nat) :=
  omap (fun t => (fun v => (v, encoded_len t)) <$> json_loads t) objs.

Definition undecoded (objs : list str) : list str :=
  List.filter (fun t => match json_loads t with None => true | Some _ => false end) objs.

(** The positions the skip messages name when the pieces [ps] start at
    index [i] of the buffer. *)
Fixpoint skip_positions (i : Z) (ps : list piece) : list Z :=
  match ps with
  | [] => []
  | Between s :: ps' => skip_positions (i + Z.of_nat (length s)) ps'
  | Object t :: ps' =>
      match json_loads t with
      | None => [i]
      | Some _ => []
      end ++ skip_positions (i + Z.of_nat (length t)) ps'
  end.

(** The cursor after the pieces [ps], scanned from depth 0 inside the
    array, [i] being the index of the first of them in the buffer. *)
Definition after_pieces (i : Z) (ps : list piece) (c : LargeJSONChunker.cursor)
  : LargeJSONChunker.cursor :=
  {| LargeJSONChunker.bracket_depth := 0;
     LargeJSONChunker.in_array := true;
     LargeJSONChunker.object_start :=
       match objects_of ps with
       | [] => LargeJSONChunker.object_start c
       | _ :: _ => -1
       end;
     LargeJSONChunker.self := add_all (LargeJSONChunker.self c) (decoded (objects_of ps));
     LargeJSONChunker.skipped := LargeJSONChunker.skipped c ++ skip_positions i ps |}.

End Decoded.

(** Equality of lists of texts, decided. *)
Fixpoint strs_eqb (a b : list str) : bool :=
  match a, b with
  | [], [] => true
  | x :: a', y :: b' => str_eqb x y && strs_eqb a' b'
  | _, _ => false
  end.

(** An array of three objects, the second of which does not decode, with
    blanks after the first object up to the end of the first read. *)
Definition two_reads_first : list piece :=
  [Object (text "{'a':1}"); Between (replicate (Z.to_nat 65528) 32%N)].

Definition two_reads_later : list (list piece) :=
  [[Between (lit ","); Object (text "{x}"); Between (lit ",");
    Object (text "{'b':2}"); Between (lit "]")]].

Definition two_reads_input : str :=
  concat (reads_of [] two_reads_first two_reads_later).

(** *** [ijson.items] and [SimpleIjsonChunker] *)

Module IjsonItems.

(** [ijson.items(file, target)] on a document holding [v], which lies at
    [path]: the values whose prefix, ['.'.join(path)], is [target], in
    document order; a value that matches is built whole and not searched
    further.  An object is taken with distinct keys, as Python builds
    it. *)
Fixpoint items_at (target : str) (path : list str) (v : json) : list json :=
  if str_eqb (PyJsonEncoder.join (lit ".") path) target then [v]
  else
    match v with
    | JList l => flat_map (items_at target (path ++ [lit "item"])) l
    | JDict d => flat_map (fun kv => items_at target (path ++ [kv.1]) kv.2) d
    | _ => []
    end.

Definition items (document : json) (target : str) : list json :=
  items_at target [] document.

End IjsonItems.

(** A value without a non-integer number, that is, without a [Decimal]
    when it comes from ijson. *)
Fixpoint decimal_free (v : json) : bool :=
  match v with
  | JReal _ _ => false
  | JList l => forallb decimal_free l
  | JDict d => forallb (fun kv => decimal_free kv.2) d
  | _ => true
  end.

(** The size [json.dumps] gives a record, 0 when it raises. *)
Definition compact_size (conversation : json) : nat :=
  match LargeJSONChunkerIjson.json_dumps conversation with
  | Ok s => encoded_len s
  | Raise _ => 0%nat
  end.

Module SimpleIjsonChunker.

(** The body of [for conversation in conversations] (lines 286-308).  The
    locals [current_chunk], [current_chunk_size], [chunk_index],
    [total_conversations] and [chunks] are held in a [chunker]; the test,
    the flush and the three updates are those of [add_sized]. *)
Definition step (locals : chunker) (conversation : json) : result chunker :=
  conversation_str ← LargeJSONChunkerIjson.json_dumps conversation;
  Ok (add_sized locals conversation (encoded_len conversation_str)).

Fixpoint loop (conversations : list json) (locals : chunker) : result chunker :=
  match conversations with
  | [] => Ok locals
  | conversation :: rest => locals' ← step locals conversation; loop rest locals'
  end.

(** [chunk_file_simple] of a chunker built by
    [SimpleIjsonChunker(input_file, chunk_size_mb)]; [input] is the
    document held by [data/<input_file>] with its size in bytes, [None]
    when the file does not exist. *)
Definition chunk_file_simple (input_file : str) (chunk_size_mb : Z)
    (input : option (json * nat)) : result run :=
  match input with
  | None => Raise FileNotFoundError
  | Some (document, file_size) =>
      locals ← loop (IjsonItems.items document (lit "item"))
                    (init input_file chunk_size_mb);
      let locals' := save_final_chunk locals in
      Ok {| returned := chunks locals';
            summary_file :=
              _generate_summary locals' (chunks locals') (total_conversations locals')
                                file_size;
            chunk_files := files locals';
            skip_messages := [] |}
  end.

End SimpleIjsonChunker.

(** The records with the sizes [json.dumps] gives them. *)
Definition sized (conversations : list json) : list (json * nat) :=
  (fun v => (v, compact_size v)) <$> conversations.

(** An array of four elements of different kinds, none of which holds a
    non-integer number, and an array whose only element holds 1.5 inside
    an inner array. *)
Definition plain_elements : list json :=
  [JDict [(lit "a", JStr (lit "x"))]; JDict []; JInt 5; JList [JInt 1; JNull]].

Definition decimal_elements : list json :=
  [JDict [(lit "a", JList [JReal 15 (-1)])]].

(** What the chunk files and the entries of a run have in common whatever
    the front end: the files are numbered 0, 1, 2, ... in the order they
    were written, none is empty, entry [i] of the returned list describes
    file [i], and the total of the summary is the sum of the counts of the
    entries. *)
Definition numbered (r : run) : Prop :=
  saved_index <$> chunk_files r = seq 0 (length (chunk_files r)) /\
  Forall (fun f => saved_data f <> []) (chunk_files r) /\
  returned r = info_of_file <$> chunk_files r /\
  totalConversations (summary_file r) = sum_list (conversations <$> returned r).

(** *** Paths and flat objects *)

(** The value found by following [keys] through nested dictionaries. *)
Fixpoint get_keys (current : json) (keys : list str) : option json :=
  match keys with
  | [] => Some current
  | key :: keys' =>
      match current with
      | JDict d => next ← dict_get d key; get_keys next keys'
      | _ => None
      end
  end.

(** Keys that [_set_nested_value] takes as one segment naming a key of a
    dictionary: not empty, without a dot, and not a number. *)
Definition dot_free (k : str) : bool :=
  forallb (fun c => negb (char_eqb c (chr "."))) k.

Definition good_key (k : str) : bool :=
  match k with [] => false | _ :: _ => true end && dot_free k && negb (isdigit k).

(** Whether [old] occurs in [s]. *)
Fixpoint occurs (old s : str) : bool :=
  startswith s old
  || match s with
     | [] => false
     | _ :: s' => occurs old s'
     end.

(** A good key that does not end in [item]: the prefix [item.<k>.item] of
    the elements of an array under it then holds [item.] once. *)
Definition array_key (k : str) : bool :=
  good_key k && negb (occurs (lit "item.") (k ++ lit ".item")).

(** The exceptions that the event loop can end with. *)
Definition raised_by_loop (e : exn) : Prop := e = TypeError \/ e = ValueError.

(** An event that the loop hands to [_build_object_from_ijson_event]
    whenever it is inside the array: it is not at the root, and it is not
    the [start_map] or [end_map] of an element. *)
Definition inner (e : event) : Prop :=
  prefix e <> [] /\
  ((count_char (prefix e) (chr ".") =? 0)%nat = false
   \/ (name e <> start_map /\ name e <> end_map)).

(** The events of one member of an element. *)
Definition member_events (kv : str * json) : list event :=
  {| prefix := lit "item"; name := map_key; value := JStr kv.1 |}
  :: Ijson.events (Ijson.child (lit "item") kv.1) kv.2.

(** A value that the events rebuild in one step: a scalar or an empty
    container. *)
Definition flat_value (v : json) : bool :=
  match v with
  | JList (_ :: _) | JDict (_ :: _) => false
  | _ => true
  end.

Fixpoint distinct_keys (d : list (str * json)) : bool :=
  match d with
  | [] => true
  | (k, _) :: d' => negb (dict_mem d' k) && distinct_keys d'
  end.

(** A key that [_set_nested_value] takes as one segment and goes through:
    it holds no dot, and [int] reads it when [isdigit] accepts it. *)
Definition plain_key (k : str) : bool :=
  dot_free k
  && (negb (isdigit k) || match int_of_str k with Ok _ => true | Raise _ => false end).

(** An object whose keys are distinct and plain, and whose values are
    flat. *)
Definition flat_object (d : list (str * json)) : bool :=
  forallb (fun kv => plain_key kv.1 && flat_value kv.2) d && distinct_keys d.

(** The members of an object that have a good key. *)
Definition rebuilt (d : list (str * json)) : list (str * json) :=
  List.filter (fun kv => good_key kv.1) d.

Definition nonempty_object (d : list (str * json)) : bool :=
  match d with [] => false | _ :: _ => true end.

(** Four flat objects: the second is empty, the third has only keys that
    are a number (the second of them in Arabic-Indic digits) or empty, the
    last holds every kind of flat value. *)
Definition flat_elements_sample : list (list (str * json)) :=
  [ [(lit "id", JInt 7); (lit "0", JInt 1); (lit "name", JStr (lit "x"))];
    [];
    [(lit "42", JStr (lit "lost")); ([1636; 1634]%N, JInt 2); ([], JNull)];
    [(lit "ok", JBool true); (lit "none", JNull); (lit "tags", JList []);
     (lit "meta", JDict [])] ].

(** A value that is no container. *)
Definition scalar (v : json) : bool :=
  match v with
  | JList _ | JDict _ => false
  | _ => true
  end.

(** *** The names of the chunk files *)

From Stdlib Require DecimalNat.

(** [str(n)] for a number that is not negative. *)
Definition nat_repr (n : nat) : str :=
  lit (DecimalString.NilZero.string_of_uint (Nat.to_uint n)).

(** [f"{n:03d}"] for a number that is not negative: its digits, with zeros
    in front up to a width of 3. *)
Definition format_03d (n : nat) : str :=
  replicate (3 - length (nat_repr n)) (chr "0") ++ nat_repr n.


(** [f"zainjo-chunk-{chunk_number:03d}.json"] of [save_chunk]. *)
Definition zainjo_chunk_filename (chunk_number : nat) : str :=
  lit "zainjo-chunk-" ++ format_03d chunk_number ++ lit ".json".

(** *** The Zainjo scripts to their end *)

Module ZainjoScripts.

(** The chunk file [name] as the writes [written] of the run left it: the
    last chunk written under that name, [None] when the run wrote no such
    file.  What [json.load] returns is what [json.dump] was given. *)
Definition read_back (written : list Zainjo.chunk_data) (name : str)
  : option Zainjo.chunk_data :=
  List.find (fun c => str_eqb (zainjo_chunk_filename (Zainjo.chunkNumber c)) name)
            (reverse written).

(** [len(v)]; [None] stands for the [TypeError] of a value without a
    length. *)
Definition len (v : json) : option nat :=
  match v with
  | JStr s => Some (length s)
  | JList l => Some (length l)
  | JDict d => Some (length d)
  | _ => None
  end.

(** [v.get(key, fallback)]; [None] stands for the [AttributeError] of a
    value that is no [dict]. *)
Definition get_or (v : json) (key : str) (fallback : json) : option json :=
  match v with
  | JDict d => Some (default fallback (dict_get d key))
  | _ => None
  end.

(** [v[key]] for a text [key]; [None] stands for [KeyError] or
    [TypeError]. *)
Definition subscript (v : json) (key : str) : option json :=
  match v with
  | JDict d => dict_get d key
  | _ => None
  end.

(** [v[0]]; [None] stands for [IndexError], [KeyError] or [TypeError]. *)
Definition subscript_0 (v : json) : option json :=
  match v with
  | JList (x :: _) => Some x
  | JStr (c :: _) => Some (JStr [c])
  | _ => None
  end.

(** [v[:50]]; [None] stands for the exception of a value that cannot be
    sliced. *)
Definition slice_50 (v : json) : option json :=
  match v with
  | JStr s => Some (JStr (take 50 s))
  | JList l => Some (JList (take 50 l))
  | _ => None
  end.

(** "Verify first chunk", after the summary is written; [sample_message]
    tells whether the "Show sample message" lines of
    [chunk-zainjo-ijson.py] are there.  The first chunk is read with
    [json.load]; what is printed of it was encoded into that file, so that
    the console takes it.  [None] stands for an exception, which the
    handler of the script catches. *)
Definition verify_first_chunk (sample_message : bool) (current_chunk : nat)
    (written : list Zainjo.chunk_data) : option unit :=
  if (0 <? current_chunk)%nat then
    match read_back written (lit "zainjo-chunk-000.json") with
    | None => Some ()
    | Some first_chunk =>
        match Zainjo.chatters first_chunk with
        | [] => Some ()
        | first_chatter :: _ =>
            sender ← get_or first_chatter (lit "SenderID") JNull;
            history ← get_or first_chatter (lit "ChatHistory") (JList []);
            messages ← len history;
            if sample_message then
              history' ← get_or first_chatter (lit "ChatHistory") JNull;
              if truthy_loaded history' then
                history'' ← subscript first_chatter (lit "ChatHistory");
                sample_msg ← subscript_0 history'';
                message_text ← get_or sample_msg (lit "MessageText") (JStr []);
                shown ← slice_50 message_text;
                Some ()
              else Some ()
            else Some ()
        end
    end
  else Some ().

(** [chunk_zainjo_file] of [chunk-zainjo-python.py] to its end: [true]
    when the function returns, [false] when its handler ends the script
    with [sys.exit(1)]. *)
Definition chunk_zainjo_file_returns (console : str -> bool) (data : json) : bool :=
  match Zainjo.chunk_zainjo_file console data with
  | Ok out =>
      match verify_first_chunk false
              (Zainjo.summary_totalChunks (Zainjo.out_summary out))
              (Zainjo.out_files out) with
      | Some _ => true
      | None => false
      end
  | Raise _ => false
  end.

(** [save_chunk] of [chunk-zainjo-ijson.py]: the records come from ijson,
    and [json.dump] refuses the [Decimal] of a non-integer number. *)
Definition save_chunk (chunk_number : nat) (chatters : list json)
  : result Zainjo.chunk_data :=
  written ← PyJsonEncoder.encode (fun _ _ => Raise TypeError) (Some 2%nat) 0
              (Zainjo.chunk_json chunk_number chatters);
  Ok {| Zainjo.chunkNumber := chunk_number;
        Zainjo.totalChatters := length chatters;
        Zainjo.chatters := chatters |}.

(** The chunking of [chunk_zainjo_with_ijson], up to the summary: the loop
    over [ijson.items(file, 'ActiveChatters.item')], where a non-integer
    number is a [Decimal]. *)
Definition chunk_with_ijson (data : json) : result Zainjo.outcome :=
  st ← Zainjo.loop truthy save_chunk
         (IjsonItems.items data (lit "ActiveChatters.item")) Zainjo.initial;
  Zainjo.finish save_chunk st.

(** [chunk_zainjo_with_ijson] of [chunk-zainjo-ijson.py]: what it
    returns. *)
Definition chunk_zainjo_with_ijson (data : json) : bool :=
  match chunk_with_ijson data with
  | Ok out =>
      match verify_first_chunk true
              (Zainjo.summary_totalChunks (Zainjo.out_summary out))
              (Zainjo.out_files out) with
      | Some _ => true
      | None => false
      end
  | Raise _ => false
  end.

End ZainjoScripts.

(** Whether [len] takes the value. *)
Definition has_len (v : json) : bool :=
  match v with
  | JStr _ | JList _ | JDict _ => true
  | _ => false
  end.

(** Whether the "Show sample message" lines go through on a record: its
    [ChatHistory] is a list that starts with an object whose [MessageText],
    if any, is a text or a list. *)
Definition sample_message_shown (chatter : list (str * json)) : bool :=
  match dict_get chatter (lit "ChatHistory") with
  | Some (JList (JDict sample_msg :: _)) =>
      match dict_get sample_msg (lit "MessageText") with
      | None | Some (JStr _) | Some (JList _) => true
      | Some _ => false
      end
  | _ => false
  end.


(** A document whose only record has a number for [ChatHistory]. *)
Definition zainjo_number_history : list (list (str * json)) :=
  [ [(lit "SenderID", JStr (lit "a")); (lit "ChatHistory", JInt 3)] ].

Definition zainjo_number_history_document : list (str * json) :=
  [(lit "Count", JInt 1);
   (lit "ActiveChatters", JList (JDict <$> zainjo_number_history))].

(** *** Documents of another shape *)

(** An event that neither opens nor closes an array at the root. *)
Definition passed (e : event) : Prop :=
  prefix e <> [] \/ (name e <> start_array /\ name e <> end_array).

(** Whether the value is an object, a [dict] in Python. *)
Definition is_object (v : json) : bool :=
  match v with
  | JDict _ => true
  | _ => false
  end.

(** A document whose last record is a text. *)
Definition zainjo_text_record_document : list (str * json) :=
  [(lit "Count", JInt 2);
   (lit "ActiveChatters",
    JList ((JDict <$> zainjo_sample_records) ++ JStr (lit "a") :: []))].

(** A document of 500 records that hold a lone surrogate, and a text after
    them. *)
Definition zainjo_surrogate_record : list (str * json) :=
  [(lit "SenderID", JStr (lit "a"));
   (lit "ChatHistory", JList [JDict [(lit "MessageText", JStr [55357%N])]])].

Definition zainjo_surrogate_document : list (str * json) :=
  [(lit "Count", JInt 501);
   (lit "ActiveChatters",
    JList ((JDict <$> replicate 500 zainjo_surrogate_record) ++ [JStr (lit "a")]))].

(** The document [[{"\u00b2": 1}]]: the key of its record is a superscript
    two, a digit for [str.isdigit] that [int] does not read. *)
Definition superscript_key_document : json :=
  JList [JDict [([178%N], JInt 1)]].

(* ===================================================================== *)
(** ** Facts about the raising computations *)
(* ===================================================================== *)

Lemma bind_Ok {A B} (a : A) (k : A -> result B) : (Ok a ≫= k) = k a.
Proof. reflexivity. Qed.

Lemma Ok_inj {A} (a b : A) : Ok a = Ok b -> a = b.
Proof. by intros [= ->]. Qed.

Lemma bind_Raise {A B} (e : exn) (k : A -> result B) : (Raise e ≫= k) = Raise e.
Proof. reflexivity. Qed.

(* ===================================================================== *)
(** ** The loops with fuel always have enough of it *)
(* ===================================================================== *)

Section DecoderFuel.

Import PyJson.
Local Open Scope nat_scope.

Implicit Types (s r acc : str) (fuel : nat).

Lemma skip_ws_length s : length (skip_ws s) <= length s.
Proof.
  induction s as [|c s IH]; simpl; [done|]. destruct (is_ws c); simpl; lia.
Qed.

Lemma decode_uXXXX_length s u r :
  decode_uXXXX s = Some (u, r) -> length s = 4 + length r.
Proof.
  unfold decode_uXXXX. intros H. repeat case_match; simplify_eq. done.
Qed.

Lemma span_digits_length s : forall ds r,
  span_digits s = (ds, r) -> length s = length ds + length r.
Proof.
  induction s as [|c s IH]; intros ds r; simpl.
  - by intros [= <- <-].
  - destruct (is_ascii_digit c).
    + destruct (span_digits s) as [ds' r'] eqn:E. intros [= <- <-].
      simpl. by rewrite (IH _ _ eq_refl).
    + by intros [= <- <-].
Qed.

Lemma startswith_length s p : startswith s p = true -> length p <= length s.
Proof.
  revert s. induction p as [|y p IH]; intros [|x s]; simpl; try done; try lia.
  intros [_ H]%andb_true_iff. apply IH in H. lia.
Qed.

Lemma scanstring_length fuel : forall s acc v r,
  scanstring fuel s acc = Some (v, r) -> length r < length s.
Proof.
  induction fuel as [|fuel IH]; intros s acc v r H; simpl in H; [done|].
  repeat case_match; simplify_eq; simpl;
    repeat match goal with
           | H : decode_uXXXX _ = Some _ |- _ => apply decode_uXXXX_length in H
           | H : scanstring fuel _ _ = Some _ |- _ => apply IH in H
           end;
    rewrite ?length_drop in *; simpl in *; try lia.
Qed.

Lemma scanstring_fuel fuel : forall s acc,
  length s + 1 <= fuel -> scanstring fuel s acc = scanstring (S fuel) s acc.
Proof.
  induction fuel as [|fuel IH]; intros s acc Hf; [lia|].
  remember (S fuel) as more eqn:E. rewrite E at 1. cbn [scanstring].
  repeat case_match; simplify_eq; try done;
    repeat match goal with
           | H : decode_uXXXX _ = Some _ |- _ => apply decode_uXXXX_length in H
           end;
    apply IH; rewrite ?length_drop in *; simpl in *; lia.
Qed.

Lemma match_constant_length s v r :
  match_constant s = Some (v, r) -> length r < length s.
Proof.
  unfold match_constant. intros H.
  repeat case_match; simplify_eq;
    match goal with H : startswith _ _ = true |- _ => apply startswith_length in H end;
    rewrite length_drop; simpl in *; lia.
Qed.

Lemma match_nonfinite_length s v r :
  match_nonfinite s = Some (v, r) -> length r < length s.
Proof.
  unfold match_nonfinite. intros H.
  repeat case_match; simplify_eq;
    match goal with H : startswith _ _ = true |- _ => apply startswith_length in H end;
    rewrite length_drop; simpl in *; lia.
Qed.

Lemma match_minus_length s neg r :
  match_minus s = (neg, r) -> length r <= length s.
Proof.
  unfold match_minus. intros H. repeat case_match; simplify_eq; simpl; lia.
Qed.

Lemma match_integer_length s ids r :
  match_integer s = Some (ids, r) -> length r < length s.
Proof.
  unfold match_integer. destruct s as [|c s]; [done|].
  destruct (char_eqb c (chr "0")); [intros [= <- <-]; simpl; lia|].
  destruct (is_ascii_digit c) eqn:Hc; [|done].
  intros H%(inj Some). pose proof (span_digits_length (c :: s) _ _ H) as Hl.
  cbn [span_digits] in H. rewrite Hc in H. destruct (span_digits s).
  simplify_eq. simpl in *. lia.
Qed.

Lemma match_fraction_length s frac r :
  match_fraction s = (frac, r) -> length r <= length s.
Proof.
  unfold match_fraction. destruct s as [|c s]; [by intros [= <- <-]|].
  destruct (char_eqb c (chr ".")); [|by intros [= <- <-]].
  destruct (span_digits s) as [fs r'] eqn:E. apply span_digits_length in E.
  destruct fs; intros [= <- <-]; simpl in *; lia.
Qed.

Lemma match_exponent_length s exp r :
  match_exponent s = (exp, r) -> length r <= length s.
Proof.
  unfold match_exponent. destruct s as [|c s]; [by intros [= <- <-]|].
  destruct (char_eqb c (chr "e") || char_eqb c (chr "E")); [|by intros [= <- <-]].
  match goal with |- context [let '(_, _) := ?x in _] => destruct x as [eneg r1] eqn:E1 end.
  assert (length r1 <= length s) as Hr1.
  { destruct s as [|g r0]; [by simplify_eq|].
    repeat case_match; simplify_eq; simpl; lia. }
  destruct (span_digits r1) as [es r'] eqn:E. apply span_digits_length in E.
  destruct es; intros [= <- <-]; simpl in *; lia.
Qed.

Lemma match_number_length s v r :
  match_number s = Some (v, r) -> length r < length s.
Proof.
  unfold match_number.
  destruct (match_minus s) as [neg s1] eqn:E1. apply match_minus_length in E1.
  destruct (match_integer s1) as [[ids s2]|] eqn:E2; [|done].
  apply match_integer_length in E2.
  destruct (match_fraction s2) as [frac s3] eqn:E3. apply match_fraction_length in E3.
  destruct (match_exponent s3) as [exp s4] eqn:E4. apply match_exponent_length in E4.
  destruct frac, exp; intros [= <- <-]; lia.
Qed.

(** Names every [skip_ws x] of the goal and records that it is no longer
    than [x]. *)
Ltac bound_skip_ws :=
  repeat match goal with
         | H : skip_ws ?x = _ |- _ =>
             pose proof (skip_ws_length x); rewrite H in *; clear H
         | |- context [skip_ws ?x] =>
             pose proof (skip_ws_length x); generalize dependent (skip_ws x); intros
         | H : context [skip_ws ?x] |- _ =>
             pose proof (skip_ws_length x); generalize dependent (skip_ws x); intros
         end.

(** Every successful call leaves less text than it was given. *)
Lemma scan_consumes fuel :
  (forall s v r, scan_once fuel s = Some (v, r) -> length r < length s) /\
  (forall s (items : list json) v r,
      parse_items fuel s items = Some (v, r) -> length r < length s) /\
  (forall s (members : list (str * json)) v r,
      parse_members fuel s members = Some (v, r) -> length r < length s).
Proof.
  induction fuel as [|fuel (IHv & IHi & IHm)]; [done|].
  split_and!.
  - intros s v r H. cbn [scan_once] in H.
    repeat case_match; simplify_eq;
      repeat match goal with
             | H : scanstring _ _ _ = Some _ |- _ => apply scanstring_length in H
             | H : parse_items fuel _ _ = Some _ |- _ => apply IHi in H
             | H : parse_members fuel _ _ = Some _ |- _ => apply IHm in H
             | H : match_constant _ = Some _ |- _ => apply match_constant_length in H
             | H : match_number _ = Some _ |- _ => apply match_number_length in H
             | H : match_nonfinite _ = Some _ |- _ => apply match_nonfinite_length in H
             end;
      bound_skip_ws; simpl in *; lia.
  - intros s items v r H. cbn [parse_items] in H.
    repeat case_match; simplify_eq;
      repeat match goal with
             | H : scan_once fuel _ = Some _ |- _ => apply IHv in H
             | H : parse_items fuel _ _ = Some _ |- _ => apply IHi in H
             end;
      bound_skip_ws; simpl in *; lia.
  - intros s members v r H. cbn [parse_members] in H.
    repeat case_match; simplify_eq;
      repeat match goal with
             | H : scanstring _ _ _ = Some _ |- _ => apply scanstring_length in H
             | H : scan_once fuel _ = Some _ |- _ => apply IHv in H
             | H : parse_members fuel _ _ = Some _ |- _ => apply IHm in H
             end;
      bound_skip_ws; simpl in *; lia.
Qed.

(** Beyond twice the length of the text, more fuel changes nothing. *)
Lemma scan_fuel fuel :
  (forall s, 2 * length s + 1 <= fuel -> scan_once fuel s = scan_once (S fuel) s) /\
  (forall s (items : list json), 2 * length s + 2 <= fuel ->
      parse_items fuel s items = parse_items (S fuel) s items) /\
  (forall s (members : list (str * json)), 2 * length s + 2 <= fuel ->
      parse_members fuel s members = parse_members (S fuel) s members).
Proof.
  induction fuel as [|fuel (IHv & IHi & IHm)]; [split_and!; intros; lia|].
  destruct (scan_consumes fuel) as (Cv & Ci & Cm).
  remember (S fuel) as more eqn:E.
  split_and!.
  - intros s Hs. rewrite E at 1. cbn [scan_once].
    destruct s as [|c r]; [done|]. simpl in Hs.
    destruct (char_eqb c DQUOTE).
    { rewrite E, <- scanstring_fuel by lia. done. }
    destruct (char_eqb c (chr "{")).
    { pose proof (skip_ws_length r). destruct (skip_ws r) as [|c' r']; [done|].
      destruct (char_eqb c' (chr "}")); [done|]. apply IHm. simpl in *. lia. }
    destruct (char_eqb c (chr "[")); [|done].
    pose proof (skip_ws_length r). destruct (skip_ws r) as [|c' r']; [done|].
    destruct (char_eqb c' (chr "]")); [done|]. apply IHi. simpl in *. lia.
  - intros s items Hs. rewrite E at 1. cbn [parse_items].
    rewrite <- IHv by lia.
    destruct (scan_once fuel s) as [[v r]|] eqn:Ev; [|done]. apply Cv in Ev.
    pose proof (skip_ws_length r). destruct (skip_ws r) as [|c r']; [done|].
    destruct (char_eqb c (chr "]")); [done|].
    destruct (char_eqb c (chr ",")); [|done].
    apply IHi. pose proof (skip_ws_length r'). simpl in *. lia.
  - intros s members Hs. rewrite E at 1. cbn [parse_members].
    destruct s as [|q r]; [done|]. simpl in Hs.
    destruct (negb (char_eqb q DQUOTE)); [done|].
    rewrite E, <- scanstring_fuel by lia. rewrite <- E.
    destruct (scanstring fuel r []) as [[key r1]|] eqn:Ek; [|done].
    apply scanstring_length in Ek.
    pose proof (skip_ws_length r1). destruct (skip_ws r1) as [|c r2]; [done|].
    destruct (negb (char_eqb c (chr ":"))); [done|].
    pose proof (skip_ws_length r2).
    rewrite <- IHv by (simpl in *; lia).
    destruct (scan_once fuel (skip_ws r2)) as [[v r3]|] eqn:Ev; [|done].
    apply Cv in Ev.
    pose proof (skip_ws_length r3). destruct (skip_ws r3) as [|c' r4]; [done|].
    destruct (char_eqb c' (chr "}")); [done|].
    destruct (char_eqb c' (chr ",")); [|done].
    apply IHm. pose proof (skip_ws_length r4). simpl in *. lia.
Qed.

Lemma scan_once_enough fuel s :
  2 * length s + 1 <= fuel -> scan_once fuel s = scan_once (2 * length s + 1) s.
Proof.
  intros H. induction H as [|fuel Hle IH]; [done|].
  rewrite <- IH. symmetry. by apply scan_fuel.
Qed.

(** [json_loads] never stops for lack of fuel: any larger fuel gives the
    same answer. *)
Lemma json_loads_fuel fuel s :
  2 * length s + 2 <= fuel ->
  json_loads s =
    match scan_once fuel (skip_ws s) with
    | Some (v, r) => match skip_ws r with [] => Some v | _ :: _ => None end
    | None => None
    end.
Proof.
  intros H. unfold json_loads. pose proof (skip_ws_length s).
  rewrite (scan_once_enough fuel) by lia.
  by rewrite (scan_once_enough (2 * length s + 2)) by lia.
Qed.

End DecoderFuel.

Section LoopFuel.

Local Open Scope nat_scope.

(** With a non-empty [old], [remove_all] never stops for lack of fuel. *)
Lemma remove_all_fuel_more (old : str) fuel : forall s : str,
  old <> [] -> length s <= fuel ->
  remove_all_fuel fuel old s = remove_all_fuel (S fuel) old s.
Proof.
  induction fuel as [|fuel IH]; intros s Hold Hs.
  - destruct s; [done|simpl in Hs; lia].
  - remember (S fuel) as more eqn:E. rewrite E at 1. cbn [remove_all_fuel].
    destruct s as [|x s']; [done|]. simpl in Hs.
    destruct (startswith (x :: s') old).
    + apply IH; [done|]. rewrite length_drop. destruct old; [done|]. simpl. lia.
    + f_equal. apply IH; [done|lia].
Qed.

(** The blocks read are the file, cut every [n] characters. *)
Lemma read_blocks_fuel_concat n fuel : forall file : str,
  0 < n -> length file <= fuel ->
  concat (LargeJSONChunker.read_blocks_fuel fuel n file) = file /\
  Forall (fun block : str => block <> [] /\ length block <= n)
         (LargeJSONChunker.read_blocks_fuel fuel n file).
Proof.
  induction fuel as [|fuel IH]; intros file Hn Hf.
  - destruct file; [done|simpl in Hf; lia].
  - destruct file as [|c file]; [done|]. cbn [LargeJSONChunker.read_blocks_fuel].
    destruct (IH (drop n (c :: file)) Hn) as [Hc Hall].
    { rewrite length_drop. simpl in *. lia. }
    split.
    + cbn [concat]. by rewrite Hc, take_drop.
    + constructor; [|done]. split.
      * destruct n; [lia|done].
      * rewrite length_take. lia.
Qed.

Lemma read_blocks_concat n (file : str) :
  0 < n ->
  concat (LargeJSONChunker.read_blocks n file) = file /\
  Forall (fun block : str => block <> [] /\ length block <= n)
         (LargeJSONChunker.read_blocks n file).
Proof. intros Hn. by apply read_blocks_fuel_concat. Qed.

End LoopFuel.

(* ===================================================================== *)
(** ** The chunk assembler *)
(* ===================================================================== *)

Section AssemblerFacts.

Implicit Types (self : chunker) (g cur : list (json * nat)).

Lemma must_close_spec self n :
  must_close self n = true <->
  current_chunk self <> [] /\
  chunk_size_bytes self < Z.of_nat (current_chunk_size self + n).
Proof.
  unfold must_close. rewrite andb_true_iff, Z.gtb_lt, Nat.ltb_lt.
  destruct (current_chunk self); simpl; split; intros [? ?]; split;
    try done; lia.
Qed.

Lemma chunk_size_bytes_add_sized self c n :
  chunk_size_bytes (add_sized self c n) = chunk_size_bytes self.
Proof. unfold add_sized. by destruct (must_close self n). Qed.

Lemma save_current_not_fixpoint self (f : saved_chunk) :
  files self ++ [f] <> files self.
Proof.
  intros H. apply (f_equal length) in H. rewrite length_app in H. simpl in H. lia.
Qed.

Lemma assembled_init name mb :
  assembled (mb * 1024 * 1024) (init name mb) [] [] [].
Proof. split; simpl; try done. by left. Qed.

Lemma assembled_add budget self done groups cur r :
  assembled budget self done groups cur ->
  exists groups' cur',
    assembled budget (add_sized self r.1 r.2) (done ++ [r]) groups' cur'.
Proof.
  intros [Hb Hd Hf Hc Hi Hcur Hs Ht Hcl Hop].
  unfold add_sized. destruct (must_close self r.2) eqn:Hm.
  - apply must_close_spec in Hm as [Hne Hlt].
    exists (groups ++ [cur]), [r].
    assert (cur <> []) as Hcne by (intros ->; by rewrite Hcur in Hne).
    split; simpl.
    + done.
    + rewrite concat_app. simpl. rewrite app_nil_r, <- Hd. by rewrite <- app_assoc.
    + rewrite imap_app. simpl. rewrite Hf, Nat.add_0_r.
      unfold file_of_group at 3. by rewrite Hi, Hcur, Hs.
    + rewrite imap_app. simpl. rewrite Hc, Nat.add_0_r.
      unfold info_of_group at 3. unfold info_of_file, file_of_group. simpl.
      by rewrite Hi, Hcur, Hs.
    + rewrite length_app. simpl. lia.
    + done.
    + lia.
    + rewrite length_app. simpl. lia.
    + apply Forall_app. split; [done|]. apply Forall_singleton.
      destruct Hop; [done|done].
    + right. split; [done|].
      destruct (decide (Z.of_nat r.2 <= budget)) as [Hle|Hgt].
      * left. simpl. lia.
      * right. exists r. split; [done|lia].
  - exists groups, (cur ++ [r]).
    assert (current_chunk self = [] \/
            Z.of_nat (current_chunk_size self + r.2) <= chunk_size_bytes self) as Hno.
    { destruct (decide (current_chunk self = [])) as [|Hne]; [by left|right].
      destruct (decide (Z.of_nat (current_chunk_size self + r.2) <= chunk_size_bytes self));
        [done|].
      assert (must_close self r.2 = true) as Hyes by (apply must_close_spec; split; [done|lia]).
      congruence. }
    split; simpl; try done.
    + rewrite <- Hd. by rewrite app_assoc.
    + by rewrite Hcur, fmap_app.
    + rewrite Hs, fmap_app, sum_list_with_app. simpl. lia.
    + rewrite length_app. simpl. lia.
    + right. split; [by destruct cur|].
      destruct Hno as [Hempty|Hle].
      * assert (cur = []) as ->.
        { rewrite Hcur in Hempty. by destruct cur. }
        simpl. destruct (decide (Z.of_nat r.2 <= budget)) as [Hle|Hgt].
        -- left. lia.
        -- right. exists r. split; [done|lia].
      * left. rewrite fmap_app, sum_list_with_app. simpl. rewrite Hs, Hb in Hle. lia.
Qed.

Lemma assembled_add_all budget records : forall self done groups cur,
  assembled budget self done groups cur ->
  exists groups' cur',
    assembled budget (add_all self records) (done ++ records) groups' cur'.
Proof.
  induction records as [|r records IH]; intros self done groups cur H.
  - exists groups, cur. by rewrite app_nil_r.
  - destruct (assembled_add _ _ _ _ _ r H) as (groups1 & cur1 & H1).
    destruct (IH _ _ _ _ H1) as (groups2 & cur2 & H2).
    exists groups2, cur2. simpl.
    by rewrite <- app_assoc in H2.
Qed.

Lemma assembled_save_final budget self done groups cur :
  assembled budget self done groups cur ->
  exists groups',
    concat groups' = done /\
    files (save_final_chunk self) = imap file_of_group groups' /\
    chunks (save_final_chunk self) = imap info_of_group groups' /\
    total_conversations (save_final_chunk self) = length done /\
    Forall (within_budget budget) groups'.
Proof.
  intros [Hb Hd Hf Hc Hi Hcur Hs Ht Hcl Hop].
  unfold save_final_chunk. destruct (current_chunk self) as [|x xs] eqn:Hcc.
  - exists groups.
    assert (cur = []) as -> by (by destruct cur).
    rewrite app_nil_r in Hd. done.
  - exists (groups ++ [cur]).
    assert (cur <> []) as Hne by (intros ->; done).
    simpl. rewrite !imap_app. simpl. rewrite concat_app. simpl.
    rewrite app_nil_r, Nat.add_0_r, Hf, Hc, Hi, Hcc, Hcur, Hs.
    unfold info_of_group at 3. unfold info_of_file, file_of_group. simpl.
    split_and!; try done.
    apply Forall_app. split; [done|]. apply Forall_singleton.
    by destruct Hop.
Qed.

Lemma add_all_app self r1 r2 :
  add_all (add_all self r1) r2 = add_all self (r1 ++ r2).
Proof. unfold add_all. by rewrite fold_left_app. Qed.

Lemma saved_data_of_groups (groups : list (list (json * nat))) :
  concat (saved_data <$> imap file_of_group groups) = (concat groups).*1.
Proof.
  rewrite fmap_imap.
  rewrite (imap_ext _ (const (fmap fst))) by done.
  rewrite imap_const. induction groups as [|g groups IH]; [done|].
  rewrite fmap_cons. simpl. by rewrite fmap_app, IH.
Qed.

Lemma info_of_groups (groups : list (list (json * nat))) :
  imap info_of_group groups = info_of_file <$> imap file_of_group groups.
Proof. by rewrite fmap_imap. Qed.

Lemma add_sized_closes self conversation n :
  closed_before_adding self (add_sized self conversation n) <->
  current_chunk self <> [] /\
  chunk_size_bytes self < Z.of_nat (current_chunk_size self + n).
Proof.
  rewrite <- must_close_spec. unfold closed_before_adding, add_sized.
  destruct (must_close self n); simpl; split; try done.
  intros H. symmetry in H. by apply save_current_not_fixpoint in H.
Qed.

Lemma add_sized_appends self conversation n :
  current_chunk (add_sized self conversation n) =
    (if must_close self n then [] else current_chunk self) ++ [conversation].
Proof. unfold add_sized. by destruct (must_close self n). Qed.

Lemma all_records_add_sized self conversation n :
  all_records (add_sized self conversation n) = all_records self ++ [conversation].
Proof.
  unfold all_records, written_records, add_sized.
  destruct (must_close self n); simpl.
  - rewrite fmap_app, concat_app. simpl. by rewrite app_nil_r.
  - by rewrite app_assoc.
Qed.

Lemma written_save_final_chunk self :
  current_chunk self = [] \/ written_records (save_final_chunk self) = all_records self.
Proof.
  unfold all_records, written_records, save_final_chunk.
  destruct (current_chunk self) eqn:E; [by left|right]. simpl.
  rewrite fmap_app, concat_app. simpl. by rewrite E, app_nil_r.
Qed.

Lemma written_save_final_chunk_eq self :
  written_records (save_final_chunk self) = all_records self.
Proof.
  destruct (written_save_final_chunk self) as [H|H]; [|done].
  unfold all_records, written_records, save_final_chunk. rewrite H. by rewrite app_nil_r.
Qed.

End AssemblerFacts.

(** C2.  The assembler closes the chunk in progress before adding a
    record exactly when that chunk is not empty and its accumulated size
    plus the size of the record exceeds the byte budget; this holds for the
    method of either class.  Consequently, whatever records are added,
    the files written (the final flush of [chunk_file] included) are
    consecutive groups of the added records, none of them empty, each
    with an accumulated size within the budget unless it holds exactly one
    record whose own size exceeds the budget. *)
Theorem assembler_closes_exactly_when_over_budget :
  (forall self conversation conversation_str,
      closed_before_adding self
        (LargeJSONChunker._add_conversation_to_chunk self conversation conversation_str)
      <->
      current_chunk self <> [] /\
      chunk_size_bytes self <
        Z.of_nat (current_chunk_size self + encoded_len conversation_str))
  /\
  (forall self conversation,
      match LargeJSONChunkerIjson.json_dumps conversation with
      | Ok conversation_str =>
          exists self',
            LargeJSONChunkerIjson._add_conversation_to_chunk self conversation = Ok self' /\
            (closed_before_adding self self' <->
             current_chunk self <> [] /\
             chunk_size_bytes self <
               Z.of_nat (current_chunk_size self + encoded_len conversation_str))
      | Raise e =>
          LargeJSONChunkerIjson._add_conversation_to_chunk self conversation = Raise e
      end)
  /\
  (forall input_file chunk_size_mb records,
      exists groups,
        concat groups = records /\
        files (save_final_chunk (add_all (init input_file chunk_size_mb) records))
          = imap file_of_group groups /\
        Forall (within_budget (chunk_size_mb * 1024 * 1024)) groups).
Proof.
  split; [|split].
  - intros. apply add_sized_closes.
  - intros self conversation.
    unfold LargeJSONChunkerIjson._add_conversation_to_chunk.
    destruct (LargeJSONChunkerIjson.json_dumps conversation) as [s|e]; simpl; [|done].
    eexists. split; [done|]. apply add_sized_closes.
  - intros input_file mb records.
    destruct (assembled_add_all _ records _ _ _ _ (assembled_init input_file mb))
      as (groups & cur & H).
    destruct (assembled_save_final _ _ _ _ _ H) as (groups' & Hd & Hf & _ & _ & Hg).
    exists groups'. done.
Qed.

(* ===================================================================== *)
(** ** The Zainjo scripts *)
(* ===================================================================== *)

(** C10, evaluated on a failing input.  The first record of
    [zainjo_decimal_document] has a truthy [SenderID] and a truthy
    [ChatHistory]; the second has not.  [chunk-zainjo-python.py] writes the
    first record into chunk 0, counts one record and one chunk, and
    returns.  [chunk-zainjo-ijson.py] is handed the same two records by
    ijson, with the number 1.5 as a [Decimal]: [json.dump] refuses it in
    [save_chunk], and the function returns [False] with no chunk completed
    and no summary. *)
Theorem zainjo_ijson_loses_records_with_a_non_integer_number (console : str -> bool) :
  Zainjo.chunk_zainjo_file console (JDict zainjo_decimal_document)
    = Ok {| Zainjo.out_files :=
              [{| Zainjo.chunkNumber := 0;
                  Zainjo.totalChatters := 1;
                  Zainjo.chatters := JDict <$> take 1 zainjo_decimal_records |}];
            Zainjo.out_summary :=
              {| Zainjo.summary_totalChatters := 1;
                 Zainjo.summary_totalChunks := 1;
                 Zainjo.maxChattersPerChunk := 500 |} |} /\
  ZainjoScripts.chunk_zainjo_file_returns console (JDict zainjo_decimal_document) = true /\
  IjsonItems.items (JDict zainjo_decimal_document) (lit "ActiveChatters.item")
    = JDict <$> zainjo_decimal_records /\
  ZainjoScripts.chunk_with_ijson (JDict zainjo_decimal_document) = Raise TypeError /\
  ZainjoScripts.chunk_zainjo_with_ijson (JDict zainjo_decimal_document) = false.
Proof. split_and!; vm_compute; reflexivity. Qed.

(* ===================================================================== *)
(** ** The brace-counting scanner *)
(* ===================================================================== *)

Section ScannerFacts.

Import LargeJSONChunker.

Variable json_loads : str -> option json.

Implicit Types (c : cursor) (buffer rest file : str).

Lemma scan_char_self buffer i ch c :
  exists records,
    Forall (sourced json_loads) records /\
    self (scan_char json_loads buffer i ch c) = add_all (self c) records.
Proof.
  unfold scan_char.
  repeat (match goal with |- context [if ?b then _ else _] => destruct b end);
    try (by exists []).
  unfold complete_object. simpl.
  destruct (json_loads _) as [conversation|] eqn:Hl; simpl.
  - eexists [(conversation, _)]. split; [|reflexivity].
    apply Forall_singleton. eexists. split; [exact Hl|done].
  - by exists [].
Qed.

Lemma scan_from_self buffer rest : forall i c,
  exists records,
    Forall (sourced json_loads) records /\
    self (scan_from json_loads buffer rest i c) = add_all (self c) records.
Proof.
  induction rest as [|ch rest IH]; intros i c; simpl.
  - by exists [].
  - destruct (IH (i + 1) (scan_char json_loads buffer i ch c)) as (r2 & Hs2 & H2).
    destruct (scan_char_self buffer i ch c) as (r1 & Hs1 & H1).
    exists (r1 ++ r2). split; [by apply Forall_app|].
    by rewrite H2, H1, add_all_app.
Qed.

Lemma keep_unprocessed_self buffer c :
  self (keep_unprocessed buffer c).2 = self c.
Proof.
  unfold keep_unprocessed.
  repeat (match goal with |- context [if ?b then _ else _] => destruct b end); done.
Qed.

Lemma read_step_self bc chunk :
  exists records,
    Forall (sourced json_loads) records /\
    self (read_step json_loads bc chunk).2 = add_all (self bc.2) records.
Proof.
  unfold read_step, process_buffer. rewrite keep_unprocessed_self.
  apply scan_from_self.
Qed.

Lemma fold_read_step_self blocks : forall bc,
  exists records,
    Forall (sourced json_loads) records /\
    self (fold_left (read_step json_loads) blocks bc).2 = add_all (self bc.2) records.
Proof.
  induction blocks as [|b blocks IH]; intros bc; simpl.
  - by exists [].
  - destruct (IH (read_step json_loads bc b)) as (r2 & Hs2 & H2).
    destruct (read_step_self bc b) as (r1 & Hs1 & H1).
    exists (r1 ++ r2). split; [by apply Forall_app|].
    by rewrite H2, H1, add_all_app.
Qed.

Lemma process_file_self self0 file :
  exists records,
    Forall (sourced json_loads) records /\
    self (_process_file_streaming json_loads self0 file).2 = add_all self0 records.
Proof. apply fold_read_step_self. Qed.

(** The calls of [_save_chunk] go through when every record can be
    written, and end with [UnicodeEncodeError] otherwise. *)
Lemma save_all_writable (fs : list saved_chunk) :
  save_all fs
  = if forallb writable (concat (saved_data <$> fs)) then Ok ()
    else Raise UnicodeEncodeError.
Proof.
  induction fs as [|f fs IH]; [done|].
  cbn [save_all fmap list_fmap concat]. rewrite forallb_app. unfold _save_chunk.
  destruct (forallb writable (saved_data f)); [|done]. by rewrite bind_Ok, IH.
Qed.

(** A run on an existing file, by the records the scan has taken. *)
Lemma chunk_file_run self0 file file_size :
  let c := (_process_file_streaming json_loads self0 file).2 in
  let self' := save_final_chunk (self c) in
  chunk_file json_loads self0 (Some (file, file_size))
  = if forallb writable (all_records (self c))
    then Ok {| returned := chunks self';
               summary_file :=
                 _generate_summary self' (chunks self') (total_conversations self')
                                   file_size;
               chunk_files := files self';
               skip_messages := skipped c |}
    else Raise UnicodeEncodeError.
Proof.
  intros c self'. unfold chunk_file.
  destruct (_process_file_streaming json_loads self0 file) as [buf c0] eqn:E.
  subst c self'. cbn [snd].
  rewrite save_all_writable.
  change (concat (saved_data <$> files (save_final_chunk (self c0))))
    with (written_records (save_final_chunk (self c0))).
  rewrite written_save_final_chunk_eq.
  by destruct (forallb writable (all_records (self c0))).
Qed.

End ScannerFacts.

(** C1, evaluated on a failing input.  [long_record_input] is a valid array
    of one object, longer than the 64 KB read by one [file.read].  After the
    first read the buffer is cut at the start of the open object while
    [bracket_depth] stays at 1, and the next pass counts the opening brace a
    second time: the depth never returns to 0, so the run ends with no
    record in any chunk, no chunk, and no skip message. *)
Theorem record_across_read_boundary_is_lost :
  array_length long_record_input = Some 1%nat /\
  observed (scan long_record_input) = Some ([], 0%nat, [], []) /\
  final_depth long_record_input = 1.
Proof. split_and!; vm_compute; reflexivity. Qed.

(** C3, evaluated on a failing input.  [brace_in_string_input] is a valid
    array of two objects.  The closing brace inside the string value ends
    the first object early: the cut text fails to parse and is skipped, the
    real closing brace then takes the depth to -1, and the second object is
    never seen.  No record reaches a chunk. *)
Theorem brace_inside_string_is_counted :
  PyJson.json_loads brace_in_string_input
    = Some (JList [JDict [(lit "a", JStr (lit "}"))]; JDict [(lit "b", JInt 1)]]) /\
  observed (scan brace_in_string_input) = Some ([], 0%nat, [], [1]) /\
  final_depth brace_in_string_input = -1.
Proof. split_and!; vm_compute; reflexivity. Qed.

(** C4, evaluated on a failing input.  [long_then_small_input] is a valid
    array of 8201 objects, the largest of 65544 characters.  Once the long
    object has crossed a read boundary the depth never returns to 0 and
    [object_start] stays 0, so nothing is dropped any more: after the last
    pass the buffer holds 131145 characters, more than the largest record
    and one read of 65536 together. *)
Theorem buffer_grows_after_a_record_across_reads :
  array_length long_then_small_input = Some (Z.to_nat 8201) /\
  Z.of_nat (length long_record) = 65544 /\
  Z.of_nat (length small_record) = 7 /\
  Z.of_nat (length (final_buffer long_then_small_input)) = 131145 /\
  65544 + 64 * 1024 < 131145.
Proof. split_and!; vm_compute; reflexivity. Qed.


(** C6 fails on [malformed_input]: the skip message names position 11, the
    index of the object in the buffer, while the object starts at byte 12
    of the file; and the summary written is the very summary of a run on a
    file of the same size that skipped nothing. *)
Lemma skip_message_and_summary_on_malformed_input :
  observed (scan malformed_input)
    = Some ([{| index := 0; conversations := 2; sizeMB := 0 |}], 2%nat,
            [{| saved_index := 0;
                saved_data := [JDict [(lit "a", JStr [233%N])]; JDict [(lit "b", JInt 2)]];
                saved_size := 17 |}], [11]) /\
  malformed_input !! 11%nat = Some (chr "{") /\
  encoded_len (take 11 malformed_input) = 12%nat /\
  observed (scan wellformed_input)
    = Some ([{| index := 0; conversations := 2; sizeMB := 0 |}], 2%nat,
            [{| saved_index := 0;
                saved_data := [JDict [(lit "a", JStr [233%N])]; JDict [(lit "b", JInt 2)]];
                saved_size := 17 |}], []) /\
  encoded_len malformed_input = encoded_len wellformed_input /\
  summary_of (scan malformed_input) = summary_of (scan wellformed_input).
Proof. split_and!; vm_compute; reflexivity. Qed.

Section ScannerRuns.

Import LargeJSONChunker.

Variable json_loads : str -> option json.


(** C6, amended.  At a closing brace that takes the depth from 1 to 0 while
    an object start is recorded, when the text from that start to the brace
    does not parse: the scanner adds one skip message carrying
    [object_start], the index of the object in the current buffer, leaves
    the assembler (so every count) as it was, forgets the object start, and
    goes on with the next character. *)
Theorem malformed_object_is_skipped (buffer rest : str) (i : Z) (c : cursor) :
  in_array c = true ->
  bracket_depth c = 1 ->
  object_start c <> -1 ->
  json_loads (slice buffer (object_start c) (i + 1)) = None ->
  let c' := {| bracket_depth := 0; in_array := true; object_start := -1;
               self := self c; skipped := skipped c ++ [object_start c] |} in
  scan_char json_loads buffer i (chr "}") c = c' /\
  scan_from json_loads buffer (chr "}" :: rest) i c
    = scan_from json_loads buffer rest (i + 1) c'.
Proof.
  intros Ha Hd Hs Hl c'.
  assert (scan_char json_loads buffer i (chr "}") c = c') as Hc.
  { unfold scan_char. rewrite Ha. simpl. rewrite Hd. simpl.
    destruct (Z.eqb_spec (object_start c) (-1)) as [|_]; [done|]. simpl.
    unfold complete_object. simpl. rewrite Hl. simpl.
    unfold c', with_object_start, with_skipped, with_bracket_depth. simpl.
    by rewrite Ha. }
  split; [done|]. cbn [scan_from]. by rewrite Hc.
Qed.

End ScannerRuns.


Lemma malformed_object_is_skipped_witness :
  let buffer := text "[{x},{'b':2}]" in
  let c := {| LargeJSONChunker.bracket_depth := 1;
              LargeJSONChunker.in_array := true;
              LargeJSONChunker.object_start := 1;
              LargeJSONChunker.self := sample_chunker;
              LargeJSONChunker.skipped := [] |} in
  let c' := {| LargeJSONChunker.bracket_depth := 0;
               LargeJSONChunker.in_array := true;
               LargeJSONChunker.object_start := -1;
               LargeJSONChunker.self := sample_chunker;
               LargeJSONChunker.skipped := [1] |} in
  LargeJSONChunker.scan_char PyJson.json_loads buffer 3 (chr "}") c = c' /\
  LargeJSONChunker.scan_from PyJson.json_loads buffer (chr "}" :: text ",{'b':2}]") 3 c
    = LargeJSONChunker.scan_from PyJson.json_loads buffer (text ",{'b':2}]") (3 + 1) c'.
Proof.
  apply (malformed_object_is_skipped PyJson.json_loads
           (text "[{x},{'b':2}]") (text ",{'b':2}]") 3
           {| LargeJSONChunker.bracket_depth := 1;
              LargeJSONChunker.in_array := true;
              LargeJSONChunker.object_start := 1;
              LargeJSONChunker.self := sample_chunker;
              LargeJSONChunker.skipped := [] |}).
  - reflexivity.
  - reflexivity.
  - simpl. lia.
  - vm_compute. reflexivity.
Defined.

(* ===================================================================== *)
(** ** The event loop of [LargeJSONChunkerIjson] *)
(* ===================================================================== *)

Section EventLoopFacts.

Import LargeJSONChunkerIjson.

Implicit Types (st : loop_state) (evs rest : list event).

Lemma child_not_root p segment : p <> [] -> Ijson.child p segment <> [].
Proof. destruct p; [done|]. simpl. done. Qed.

Lemma events_below_root v : forall p, p <> [] -> Forall below_root (Ijson.events p v).
Proof.
  induction v as [| | | | | |l IH|d IH] using json_ind; intros p Hp; simpl;
    try (apply Forall_singleton; done).
  - constructor; [done|]. apply Forall_app. split; [|by apply Forall_singleton].
    induction IH as [|x l Hx _ IHl]; simpl; [done|].
    apply Forall_app. split; [|done]. apply Hx. by apply child_not_root.
  - constructor; [done|]. apply Forall_app. split; [|by apply Forall_singleton].
    induction IH as [|kv d Hx _ IHd]; simpl; [done|].
    constructor; [done|].
    apply Forall_app. split; [|done]. apply Hx. by apply child_not_root.
Qed.

(** Below the root the loop never takes the [continue] or the [break] of
    the root array, so it keeps [in_array] and runs through. *)
Lemma event_loop_below_root_cons e rest st :
  below_root e ->
  exists step : result loop_state,
    (forall rest', event_loop (e :: rest') st = step ≫= event_loop rest') /\
    (forall st', step = Ok st' -> in_array st' = in_array st) /\
    (name e = end_map -> prefix e = lit "item" -> in_array st = true ->
     forall st', step = Ok st' -> current_object st' = JDict []).
Proof.
  intros He. unfold below_root in He.
  destruct e as [p n v]. simpl in He.
  destruct p as [|ch p]; [done|].
  cbn [event_loop prefix name value andb].
  destruct (in_array st) eqn:Ha; cbn [andb].
  - destruct (event_name_eqb n start_map && (count_char (ch :: p) (chr ".") =? 0)%nat) eqn:E1.
    { exists (Ok {| current_object := JDict []; in_array := true; self := self st |}).
      split_and!; [done|by intros ? [= <-]|].
      intros Hn. rewrite Hn in E1. done. }
    destruct (event_name_eqb n end_map && (count_char (ch :: p) (chr ".") =? 0)%nat) eqn:E2.
    { exists ((if truthy (current_object st)
               then _add_conversation_to_chunk (self st) (current_object st)
               else Ok (self st)) ≫= fun self' =>
              Ok {| current_object := JDict []; in_array := true; self := self' |}).
      split_and!.
      - intros rest'. by destruct (if truthy (current_object st) then _ else _).
      - intros st'. destruct (if truthy (current_object st) then _ else _); [|done].
        by intros [= <-].
      - intros _ _ _ st'. destruct (if truthy (current_object st) then _ else _); [|done].
        by intros [= <-]. }
    exists (_build_object_from_ijson_event (current_object st) (ch :: p) n v ≫= fun obj =>
              Ok {| current_object := obj; in_array := true; self := self st |}).
    split_and!.
    + intros rest'. by destruct (_build_object_from_ijson_event _ _ _ _).
    + intros st'. destruct (_build_object_from_ijson_event _ _ _ _); [|done].
      by intros [= <-].
    + intros Hn Hp. rewrite Hn, Hp in E2. done.
  - exists (Ok st). split_and!; [done|by intros ? [= <-]|done].
Qed.

Lemma event_loop_below_root_app evs : forall st rest,
  Forall below_root evs ->
  event_loop (evs ++ rest) st = event_loop evs st ≫= event_loop rest.
Proof.
  induction evs as [|e evs IH]; intros st rest H; [done|].
  apply Forall_cons_1 in H as [He Hevs].
  destruct (event_loop_below_root_cons e evs st He) as (step & Hstep & _).
  rewrite <- app_comm_cons, !Hstep.
  destruct step as [st1|]; [|done]. rewrite !bind_Ok. by apply IH.
Qed.

Lemma event_loop_below_root_in_array evs : forall st st',
  Forall below_root evs ->
  event_loop evs st = Ok st' -> in_array st' = in_array st.
Proof.
  induction evs as [|e evs IH]; intros st st' H.
  - simpl. by intros [= <-].
  - apply Forall_cons_1 in H as [He Hevs].
    destruct (event_loop_below_root_cons e evs st He) as (step & Hstep & Ha & _).
    rewrite Hstep. destruct step as [st1|]; [|done]. rewrite bind_Ok.
    intros H1. rewrite (IH _ _ Hevs H1). by apply Ha.
Qed.

Lemma element_events_below_root element : Forall below_root (element_events element).
Proof. by apply events_below_root. Qed.

(** After the events of an object of the array the loop holds a fresh
    empty [current_object]. *)
Lemma element_leaves_empty_object element st st' :
  in_array st = true ->
  event_loop (element_events element) st = Ok st' ->
  current_object st' = JDict [] /\ in_array st' = true.
Proof.
  intros Ha H.
  pose proof (event_loop_below_root_in_array _ _ _ (element_events_below_root element) H) as Hin.
  split; [|congruence].
  revert H. unfold element_events. cbn [Ijson.events].
  rewrite app_comm_cons, event_loop_below_root_app.
  2:{ pose proof (element_events_below_root element) as Hb.
      unfold element_events in Hb. cbn [Ijson.events] in Hb.
      rewrite app_comm_cons in Hb. by apply Forall_app in Hb as [? _]. }
  destruct (event_loop _ st) as [st1|] eqn:H1; [|done]. rewrite bind_Ok.
  assert (in_array st1 = true) as Ha1.
  { rewrite <- Ha. eapply event_loop_below_root_in_array; [|done].
    pose proof (element_events_below_root element) as Hb.
    unfold element_events in Hb. cbn [Ijson.events] in Hb.
    rewrite app_comm_cons in Hb. by apply Forall_app in Hb as [? _]. }
  destruct (event_loop_below_root_cons
              {| prefix := lit "item"; name := end_map; value := JNull |} [] st1)
    as (step & Hstep & _ & Hobj); [done|].
  rewrite Hstep. destruct step as [st2|] eqn:Hs; [|done]. rewrite bind_Ok.
  simpl. intros [= <-]. by apply Hobj.
Qed.

(** The two events of an empty object change nothing once
    [current_object] is empty. *)
Lemma empty_element_is_dropped rest st :
  in_array st = true -> current_object st = JDict [] ->
  event_loop (element_events [] ++ rest) st = event_loop rest st.
Proof.
  intros Ha Hc. destruct st as [obj a self0]. simpl in *. subst.
  reflexivity.
Qed.

Lemma elements_with_empty_object before : forall after rest st,
  in_array st = true -> current_object st = JDict [] ->
  event_loop (flat_map element_events (before ++ [] :: after) ++ rest) st
  = event_loop (flat_map element_events (before ++ after) ++ rest) st.
Proof.
  induction before as [|x before IH]; intros after rest st Ha Hc.
  - cbn [app flat_map]. rewrite <- app_assoc. by apply empty_element_is_dropped.
  - cbn [app flat_map]. rewrite <- !app_assoc.
    rewrite !(event_loop_below_root_app (element_events x))
      by apply element_events_below_root.
    destruct (event_loop (element_events x) st) as [st1|] eqn:H1; [|done].
    rewrite !bind_Ok.
    destruct (element_leaves_empty_object _ _ _ Ha H1) as [Hc1 Ha1].
    by apply IH.
Qed.

Lemma parse_array_of_objects elements :
  Ijson.parse (array_of_objects elements) =
    {| prefix := []; name := start_array; value := JNull |}
    :: flat_map element_events elements
    ++ [{| prefix := []; name := end_array; value := JNull |}].
Proof.
  unfold Ijson.parse, array_of_objects. cbn [Ijson.events]. f_equal. f_equal.
  induction elements as [|x elements IH]; [done|].
  rewrite fmap_cons. cbn [flat_map]. by rewrite IH.
Qed.

Lemma add_conversation_all_records self0 conversation self' :
  _add_conversation_to_chunk self0 conversation = Ok self' ->
  all_records self' = all_records self0 ++ [conversation].
Proof.
  unfold _add_conversation_to_chunk.
  destruct (json_dumps conversation) as [s|]; [|done]. rewrite bind_Ok.
  intros [= <-]. apply all_records_add_sized.
Qed.

Lemma event_loop_keeps_truthy evs : forall st st',
  Forall (fun r => truthy r = true) (all_records (self st)) ->
  event_loop evs st = Ok st' ->
  Forall (fun r => truthy r = true) (all_records (self st')).
Proof.
  induction evs as [|e evs IH]; intros st st' Hst; cbn [event_loop].
  - by intros [= <-].
  - repeat (match goal with
            | |- context [if ?b then _ else _] => destruct b eqn:?
            end);
      rewrite ?bind_Ok; try (by intros [= <-]); try (by apply IH).
    + destruct (_add_conversation_to_chunk _ _) as [self1|] eqn:Hadd; [|done].
      rewrite bind_Ok. apply IH. simpl.
      rewrite (add_conversation_all_records _ _ _ Hadd).
      apply Forall_app. split; [done|]. by apply Forall_singleton.
    + destruct (_build_object_from_ijson_event _ _ _ _) as [obj|]; [|done].
      rewrite bind_Ok. by apply IH.
Qed.

End EventLoopFacts.

(** C8.  An empty object among the elements of the source array leaves no
    trace: the front end ends in the same state (same chunk files, same
    chunk in progress, same counts, same error if any) as on the array
    without that element; and whatever the events are, no chunk file ever
    holds an empty object, because a container that is empty at its
    top-level [end_map] is discarded. *)
Theorem empty_object_element_is_not_emitted (input_file : str) (chunk_size_mb : Z) :
  (forall before after : list (list (str * json)),
      LargeJSONChunkerIjson._process_file_with_ijson (init input_file chunk_size_mb)
        (Ijson.parse (array_of_objects (before ++ [] :: after)))
      = LargeJSONChunkerIjson._process_file_with_ijson (init input_file chunk_size_mb)
          (Ijson.parse (array_of_objects (before ++ after))))
  /\
  (forall parser : list event,
      match LargeJSONChunkerIjson._process_file_with_ijson
              (init input_file chunk_size_mb) parser with
      | Ok self' => JDict [] ∉ written_records (save_final_chunk self')
      | Raise _ => True
      end).
Proof.
  split.
  - intros before after.
    unfold LargeJSONChunkerIjson._process_file_with_ijson.
    rewrite !parse_array_of_objects. cbn [LargeJSONChunkerIjson.event_loop].
    simpl. by rewrite elements_with_empty_object.
  - intros parser. unfold LargeJSONChunkerIjson._process_file_with_ijson.
    destruct (LargeJSONChunkerIjson.event_loop parser _) as [st'|] eqn:H; [|done].
    rewrite bind_Ok, written_save_final_chunk_eq.
    apply event_loop_keeps_truthy in H; [|done].
    intros Hin. rewrite list.Forall_forall in H. by apply H in Hin.
Qed.

(* ===================================================================== *)
(** ** Compact and indented serialization *)
(* ===================================================================== *)

Section EncoderFacts.

Import PyJsonEncoder.
Local Open Scope nat_scope.

Variable real_repr : Z -> Z -> result str.

Lemma encoded_len_app (a b : str) :
  encoded_len (a ++ b) = encoded_len a + encoded_len b.
Proof. apply sum_list_with_app. Qed.

Lemma encoded_len_spaces k : encoded_len (replicate k 32%N) = k.
Proof. induction k as [|k IH]; [done|]. simpl. by rewrite IH. Qed.

Lemma join_at_least sep items : total_len items <= encoded_len (join sep items).
Proof.
  unfold total_len.
  induction items as [|x [|y items] IH]; [done|simpl; lia|].
  change (join sep (x :: y :: items)) with (x ++ sep ++ join sep (y :: items)).
  rewrite !encoded_len_app, fmap_cons. simpl in *. lia.
Qed.

Lemma join_len_mono sep sep' items items' :
  encoded_len sep <= encoded_len sep' ->
  Forall2 (fun s s' => encoded_len s <= encoded_len s') items items' ->
  encoded_len (join sep items) <= encoded_len (join sep' items').
Proof.
  intros Hsep H. induction H as [|x x' items items' Hx H IH]; [done|].
  destruct H as [|y y' items items' Hy H]; [by simpl|].
  change (join sep (x :: y :: items)) with (x ++ sep ++ join sep (y :: items)).
  change (join sep' (x' :: y' :: items')) with (x' ++ sep' ++ join sep' (y' :: items')).
  rewrite !encoded_len_app. lia.
Qed.

Lemma collect_Forall2 {A} (f : A -> result str) l : forall items,
  collect f l = Ok items <-> Forall2 (fun x s => f x = Ok s) l items.
Proof.
  induction l as [|x l IH]; intros items; simpl.
  - split; [intros [= <-]; constructor|]. by intros ->%Forall2_nil_inv_l.
  - destruct (f x) as [s|] eqn:Hf.
    + rewrite bind_Ok. destruct (collect f l) as [ss|] eqn:Hc.
      * rewrite bind_Ok. split.
        -- intros [= <-]. constructor; [done|]. by apply IH.
        -- intros (s' & ss' & Hs & Hss & ->)%Forall2_cons_inv_l.
           apply IH in Hss. congruence.
      * rewrite bind_Raise. split; [done|].
        intros (s' & ss' & Hs & Hss & ->)%Forall2_cons_inv_l.
        apply IH in Hss. congruence.
    + rewrite bind_Raise. split; [done|].
      intros (s' & ss' & Hs & Hss & ->)%Forall2_cons_inv_l. congruence.
Qed.

Lemma collect_mono {A} (f g : A -> result str) l : forall items,
  Forall (fun x => forall s, f x = Ok s ->
                   exists s', g x = Ok s' /\ encoded_len s <= encoded_len s') l ->
  collect f l = Ok items ->
  exists items',
    collect g l = Ok items' /\
    Forall2 (fun s s' => encoded_len s <= encoded_len s') items items'.
Proof.
  induction l as [|x l IH]; intros items H Hc.
  - injection Hc as <-. exists []. split; [done|constructor].
  - apply collect_Forall2 in Hc.
    apply Forall2_cons_inv_l in Hc as (s & ss & Hs & Hss & ->).
    apply Forall_cons_1 in H as [Hx Hl].
    destruct (Hx _ Hs) as (s' & Hs' & Hle).
    apply collect_Forall2 in Hss.
    destruct (IH _ Hl Hss) as (ss' & Hc' & Hall).
    exists (s' :: ss'). split; [|by constructor].
    simpl. by rewrite Hs', bind_Ok, Hc', bind_Ok.
Qed.

(** The compact separator is never longer than the indented one. *)
Lemma separator_len n level :
  encoded_len (item_separator None ++ newline_indent None level)
  <= encoded_len (item_separator (Some n) ++ newline_indent (Some n) level).
Proof.
  rewrite !encoded_len_app. unfold item_separator, newline_indent.
  change (encoded_len (lit ", ")) with 2. change (encoded_len (lit ",")) with 1.
  change (encoded_len []) with 0.
  change (10%N :: replicate (n * level) 32%N) with ([10%N] ++ replicate (n * level) 32%N).
  rewrite encoded_len_app, encoded_len_spaces.
  change (encoded_len [10%N]) with 1. lia.
Qed.

(** With an indent the text of a value is at least as long as without,
    at any level. *)
Lemma encode_indent_not_shorter n v : forall level level' s,
  encode real_repr None level v = Ok s ->
  exists s', encode real_repr (Some n) level' v = Ok s' /\
             encoded_len s <= encoded_len s'.
Proof.
  induction v as [|b|z|m e|k|t|l IH|d IH] using json_ind; intros level level' s;
    try (intros H; exists s; split; [exact H|lia]).
  - destruct l as [|x l]; [intros H; exists s; split; [exact H|lia]|].
    cbn [encode].
    destruct (collect (encode real_repr None (S level)) (x :: l)) as [items|] eqn:Hc;
      [|done].
    rewrite bind_Ok. intros <-%Ok_inj.
    destruct (collect_mono (encode real_repr None (S level))
                (encode real_repr (Some n) (S level')) (x :: l) items)
      as (items' & Hc' & Hall); [|done|].
    { eapply list.Forall_impl; [exact IH|]. intros v Hv s. apply Hv. }
    rewrite Hc', bind_Ok. eexists. split; [done|].
    pose proof (join_len_mono _ _ _ _ (separator_len n (S level')) Hall) as Hj.
    rewrite !encoded_len_app. simpl (newline_indent None _) in *.
    change (encoded_len []) with 0. lia.
  - destruct d as [|kv d]; [intros H; exists s; split; [exact H|lia]|].
    cbn [encode].
    match goal with |- context [collect ?f (kv :: d)] =>
      destruct (collect f (kv :: d)) as [items|] eqn:Hc; [|done] end.
    rewrite bind_Ok. intros <-%Ok_inj.
    match type of Hc with collect ?f _ = _ =>
      match goal with |- context [collect ?g (kv :: d)] =>
        destruct (collect_mono f g (kv :: d) items) as (items' & Hc' & Hall); [|done|]
      end end.
    { eapply list.Forall_impl; [exact IH|]. intros [key x] Hx s. cbn [fst snd] in *.
      destruct (encode real_repr None (S level) x) as [sx|] eqn:Hsx; [|done].
      rewrite bind_Ok. intros <-%Ok_inj.
      destruct (Hx _ (S level') _ Hsx) as (sx' & Hsx' & Hle).
      rewrite Hsx', bind_Ok. eexists. split; [done|].
      rewrite !encoded_len_app. lia. }
    rewrite Hc', bind_Ok. eexists. split; [done|].
    pose proof (join_len_mono _ _ _ _ (separator_len n (S level')) Hall) as Hj.
    rewrite !encoded_len_app. simpl (newline_indent None _) in *.
    change (encoded_len []) with 0. lia.
Qed.

End EncoderFacts.

Section SizeFacts.

Import LargeJSONChunkerIjson.
Local Open Scope nat_scope.

Lemma dump_indent2_longer chunk_data strs :
  chunk_data <> [] ->
  Forall2 (fun conversation s => json_dumps conversation = Ok s) chunk_data strs ->
  exists written,
    json_dump_indent2 chunk_data = Ok written /\
    sum_list (encoded_len <$> strs) < encoded_len written.
Proof.
  intros Hne Hall. unfold json_dump_indent2.
  destruct chunk_data as [|x l]; [done|]. cbn [PyJsonEncoder.encode].
  destruct (collect_mono
              (PyJsonEncoder.encode (fun _ _ => Raise TypeError) None 0)
              (PyJsonEncoder.encode (fun _ _ => Raise TypeError) (Some 2) 1)
              (x :: l) strs) as (items' & Hc' & Hle).
  - apply list.Forall_forall. intros v _ s. apply encode_indent_not_shorter.
  - by apply collect_Forall2.
  - rewrite Hc', bind_Ok. eexists. split; [done|].
    rewrite !encoded_len_app.
    pose proof (join_at_least
                  (PyJsonEncoder.item_separator (Some 2)
                     ++ PyJsonEncoder.newline_indent (Some 2) 1) items') as Hj.
    assert (sum_list (encoded_len <$> strs) <= total_len items') as Hsum.
    { unfold total_len. clear -Hle.
      induction Hle as [|s s' ss ss' Hs _ IH]; [done|]. rewrite !fmap_cons. simpl. lia. }
    change (encoded_len (lit "[")) with 1. change (encoded_len (lit "]")) with 1.
    change (encoded_len (PyJsonEncoder.newline_indent (Some 2) 1)) with 3.
    change (encoded_len (PyJsonEncoder.newline_indent (Some 2) 0)) with 1.
    lia.
Qed.

Lemma add_conversation_add_all self0 conversation self' :
  _add_conversation_to_chunk self0 conversation = Ok self' ->
  exists r, dumped r /\ self' = add_all self0 [r].
Proof.
  unfold _add_conversation_to_chunk.
  destruct (json_dumps conversation) as [s|] eqn:Hs; [|done]. rewrite bind_Ok.
  intros <-%Ok_inj. exists (conversation, encoded_len s). split; [|done].
  by exists s.
Qed.

Lemma event_loop_add_all evs : forall st st',
  event_loop evs st = Ok st' ->
  exists records, Forall dumped records /\ self st' = add_all (self st) records.
Proof.
  induction evs as [|e evs IH]; intros st st'; cbn [event_loop].
  - intros <-%Ok_inj. by exists [].
  - repeat (match goal with
            | |- context [if ?b then _ else _] => destruct b eqn:?
            end);
      rewrite ?bind_Ok; try (intros <-%Ok_inj; by exists []);
      try (intros H; apply IH in H; exact H).
    + destruct (_add_conversation_to_chunk _ _) as [self1|] eqn:Hadd; [|done].
      rewrite bind_Ok. intros H. apply IH in H as (records & Hd & Hs). simpl in Hs.
      apply add_conversation_add_all in Hadd as (r & Hr & ->).
      exists (r :: records). split; [by constructor|done].
    + destruct (_build_object_from_ijson_event _ _ _ _) as [obj|]; [|done].
      rewrite bind_Ok. intros H. apply IH in H. exact H.
Qed.

Lemma dumped_strs (g : list (json * nat)) :
  Forall dumped g ->
  exists strs,
    Forall2 (fun conversation s => json_dumps conversation = Ok s) (g.*1) strs /\
    sum_list (g.*2) = sum_list (encoded_len <$> strs).
Proof.
  induction 1 as [|[conversation n] g (s & Hs & Hn) _ (strs & Hall & Hsum)].
  - exists []. split; [constructor|done].
  - exists (s :: strs). rewrite !fmap_cons. cbn [fst snd] in *.
    split; [by constructor|]. simpl. lia.
Qed.

Lemma round_hundredths_nearest (n : nat) (unit : Z) :
  (0 < unit)%Z -> nearest_hundredth n unit (round_hundredths n unit).
Proof.
  intros Hu. unfold nearest_hundredth, round_hundredths. cbv zeta.
  pose proof (Z.div_mod (Z.of_nat n * 100) unit ltac:(lia)) as Hdm.
  pose proof (Z.mod_pos_bound (Z.of_nat n * 100) unit Hu) as Hb.
  set (q := (Z.of_nat n * 100 / unit)%Z) in *.
  set (r := (Z.of_nat n * 100 mod unit)%Z) in *.
  destruct (Z.ltb_spec (2 * r) unit) as [Hlt|Hge].
  - split; [lia|]. intros Heq. lia.
  - destruct (Z.ltb_spec unit (2 * r)) as [Hgt|Hle].
    + split; [lia|]. intros Heq. lia.
    + destruct (Z.even q) eqn:Hev.
      * split; [lia|done].
      * split; [lia|]. intros _. rewrite Z.even_add, Hev. done.
Qed.

Lemma info_reports (f : saved_chunk) : reports (info_of_file f) f.
Proof.
  unfold reports, info_of_file. cbn [index conversations sizeMB].
  split_and!; [done|done|]. by apply round_hundredths_nearest.
Qed.

Lemma infos_report (fs : list saved_chunk) : Forall2 reports (info_of_file <$> fs) fs.
Proof.
  induction fs as [|f fs IH]; [constructor|].
  rewrite fmap_cons. constructor; [apply info_reports|done].
Qed.

Lemma sourced_strs (json_loads : str -> option json) (g : list (json * nat)) :
  Forall (sourced json_loads) g ->
  exists strs,
    Forall2 (fun conversation s => json_loads s = Some conversation) (g.*1) strs /\
    sum_list (g.*2) = sum_list (encoded_len <$> strs).
Proof.
  induction 1 as [|[conversation n] g (s & Hs & Hn) _ (strs & Hall & Hsum)].
  - exists []. split; [constructor|done].
  - exists (s :: strs). rewrite !fmap_cons. cbn [fst snd] in *.
    split; [by constructor|]. simpl. lia.
Qed.

(** The groups of a run are made of the records added. *)
Lemma group_of_records {A} (P : A -> Prop) (groups : list (list A)) i g :
  Forall P (concat groups) -> groups !! i = Some g -> Forall P g.
Proof.
  intros Hall Hg. apply list.Forall_forall. intros x Hx.
  rewrite list.Forall_forall in Hall. apply Hall.
  apply list_elem_of_In, in_concat. exists g.
  split; apply list_elem_of_In; [by eapply list_elem_of_lookup_2|done].
Qed.

End SizeFacts.

(** C9 fails on the scanner.  For the object of [tight_input] it
    accumulates 7 bytes, the length of the source text, where the compact
    [json.dumps] text has 8; for the object of [spaced_input] it
    accumulates 107 bytes, where the chunk file written with [indent=2] has
    22 (the records hold no non-integer number, so the text written does
    not depend on the front end). *)
Lemma scanner_size_is_the_length_of_the_source :
  observed (scan tight_input)
    = Some ([{| index := 0; conversations := 1; sizeMB := 0 |}], 1%nat,
            [{| saved_index := 0; saved_data := [JDict [(lit "a", JInt 1)]];
                saved_size := 7 |}], []) /\
  LargeJSONChunkerIjson.json_dumps (JDict [(lit "a", JInt 1)]) = Ok (text "{'a': 1}") /\
  encoded_len (text "{'a': 1}") = 8%nat /\
  observed (scan spaced_input)
    = Some ([{| index := 0; conversations := 1; sizeMB := 0 |}], 1%nat,
            [{| saved_index := 0; saved_data := [JDict [(lit "a", JInt 1)]];
                saved_size := 107 |}], []) /\
  (exists written,
      LargeJSONChunkerIjson.json_dump_indent2 [JDict [(lit "a", JInt 1)]] = Ok written /\
      encoded_len written = 22%nat).
Proof.
  split_and!; try (vm_compute; reflexivity).
  eexists. split; vm_compute; reflexivity.
Qed.

(** C9, amended.  In a run of [LargeJSONChunkerIjson] that ends normally,
    every chunk file is non-empty, the size accumulated for it against the
    budget is the sum of the UTF-8 lengths of the compact [json.dumps]
    texts of its records, and that sum is strictly smaller than the length
    in bytes of the file, which is written with [indent=2].  In a run of
    [LargeJSONChunker] that ends normally, every chunk file is non-empty
    and the size accumulated for it is the sum of the UTF-8 lengths of the
    source texts its records were decoded from.  In both, entry [i] of the
    summary reports chunk file [i]: its index, the number of its records,
    and the accumulated size in megabytes, rounded to the nearest
    hundredth. *)
Theorem accumulated_size_by_front_end
    (json_loads : str -> option json) (input_file : str) (chunk_size_mb : Z) :
  (forall document file_size r,
      LargeJSONChunkerIjson.chunk_file (init input_file chunk_size_mb)
        (Some (document, file_size)) = Ok r ->
      Forall compact_size_below_file_length (chunk_files r) /\
      Forall2 reports (summary_chunks (summary_file r)) (chunk_files r)) /\
  (forall file file_size r,
      LargeJSONChunker.chunk_file json_loads (init input_file chunk_size_mb)
        (Some (file, file_size)) = Ok r ->
      Forall (source_size json_loads) (chunk_files r) /\
      Forall2 reports (summary_chunks (summary_file r)) (chunk_files r)).
Proof.
  split.
  - intros document file_size r.
    unfold LargeJSONChunkerIjson.chunk_file, LargeJSONChunkerIjson._process_file_with_ijson.
    destruct (LargeJSONChunkerIjson.event_loop _ _) as [st|] eqn:Hloop; [|done].
    rewrite !bind_Ok. intros <-%Ok_inj. simpl.
    apply event_loop_add_all in Hloop as (records & Hdumped & Hself). simpl in Hself.
    destruct (assembled_add_all _ records _ _ _ _ (assembled_init input_file chunk_size_mb))
      as (groups & cur & H).
    rewrite <- Hself in H.
    destruct (assembled_save_final _ _ _ _ _ H) as (groups' & Hd & Hf & Hc & _ & Hb).
    rewrite Hf, Hc, info_of_groups. split; [|apply infos_report].
    apply list.Forall_forall. intros f Hin.
    apply list_elem_of_lookup in Hin as [i Hi].
    rewrite list_lookup_imap in Hi.
    destruct (groups' !! i) as [g|] eqn:Hg; [|done]. injection Hi as <-.
    assert (Forall dumped g) as Hdg.
    { apply (group_of_records _ groups' i); [|done]. by rewrite Hd. }
    assert (g <> []) as Hne.
    { rewrite list.Forall_forall in Hb. apply (Hb g). by eapply list_elem_of_lookup_2. }
    destruct (dumped_strs g Hdg) as (strs & Hall & Hsum).
    destruct (dump_indent2_longer (g.*1) strs) as (written & Hw & Hlt);
      [by destruct g|done|].
    split; [by destruct g|].
    exists strs, written. simpl. rewrite Hsum. done.
  - intros file file_size r. rewrite chunk_file_run. cbv zeta.
    destruct (forallb writable _); [|done]. intros <-%Ok_inj.
    cbn [chunk_files summary_file _generate_summary summary_chunks].
    destruct (process_file_self json_loads (init input_file chunk_size_mb) file)
      as (records & Hsourced & Hr).
    destruct (assembled_add_all _ records _ _ _ _ (assembled_init input_file chunk_size_mb))
      as (groups & cur & H).
    rewrite <- Hr in H.
    destruct (assembled_save_final _ _ _ _ _ H) as (groups' & Hd & Hf & Hc & _ & Hb).
    rewrite Hf, Hc, info_of_groups. split; [|apply infos_report].
    apply list.Forall_forall. intros f Hin.
    apply list_elem_of_lookup in Hin as [i Hi].
    rewrite list_lookup_imap in Hi.
    destruct (groups' !! i) as [g|] eqn:Hg; [|done]. injection Hi as <-.
    assert (Forall (sourced json_loads) g) as Hsg.
    { apply (group_of_records _ groups' i); [|done]. by rewrite Hd. }
    assert (g <> []) as Hne.
    { rewrite list.Forall_forall in Hb. apply (Hb g). by eapply list_elem_of_lookup_2. }
    destruct (sourced_strs json_loads g Hsg) as (strs & Hall & Hsum).
    split; [by destruct g|]. exists strs. simpl. by rewrite Hsum.
Qed.

Lemma accumulated_size_by_front_end_witness :
  (LargeJSONChunkerIjson.chunk_file (init (lit "conversations.json") 0)
     (Some (sample_document, 33%nat)) = Ok sample_run /\
   Forall compact_size_below_file_length (chunk_files sample_run) /\
   Forall2 reports (summary_chunks (summary_file sample_run)) (chunk_files sample_run)) /\
  (exists r,
     scan spaced_input = Ok r /\
     Forall (source_size PyJson.json_loads) (chunk_files r) /\
     Forall2 reports (summary_chunks (summary_file r)) (chunk_files r)).
Proof.
  destruct (accumulated_size_by_front_end PyJson.json_loads (lit "conversations.json") 0)
    as [Hijson _].
  destruct (accumulated_size_by_front_end PyJson.json_loads (lit "conversations.json") 100)
    as [_ Hscanner].
  split.
  - split; [vm_compute; reflexivity|].
    apply (Hijson sample_document 33%nat sample_run). vm_compute. reflexivity.
  - eexists. split; [vm_compute; reflexivity|].
    apply (Hscanner spaced_input (encoded_len spaced_input)). vm_compute. reflexivity.
Defined.

(* ===================================================================== *)
(** ** [_set_nested_value], segment by segment *)
(* ===================================================================== *)

Section NestedValueFacts.

Import LargeJSONChunkerIjson.
Local Open Scope nat_scope.

Lemma char_eqb_eq (a b : char) : char_eqb a b = true <-> a = b.
Proof. unfold char_eqb. apply N.eqb_eq. Qed.

Lemma str_eqb_eq (a : str) : forall b, str_eqb a b = true <-> a = b.
Proof.
  induction a as [|x a IH]; intros [|y b]; simpl; try done.
  rewrite andb_true_iff, char_eqb_eq, IH. split; [by intros [-> ->]|by intros [= -> ->]].
Qed.

Lemma str_eqb_refl (a : str) : str_eqb a a = true.
Proof. by apply str_eqb_eq. Qed.

Lemma str_eqb_sym (a b : str) : str_eqb a b = str_eqb b a.
Proof.
  destruct (str_eqb a b) eqn:E1, (str_eqb b a) eqn:E2; try done.
  - apply str_eqb_eq in E1 as ->. by rewrite str_eqb_refl in E2.
  - apply str_eqb_eq in E2 as ->. by rewrite str_eqb_refl in E1.
Qed.

Lemma dict_get_set d k v k' :
  dict_get (dict_set d k v) k' = if str_eqb k k' then Some v else dict_get d k'.
Proof.
  induction d as [|[k0 v0] d IH]; simpl.
  - done.
  - destruct (str_eqb k0 k) eqn:E; simpl.
    + apply str_eqb_eq in E as ->. by destruct (str_eqb k k').
    + rewrite IH. destruct (str_eqb k0 k') eqn:E'; [|done].
      apply str_eqb_eq in E' as ->. by rewrite str_eqb_sym, E.
Qed.

Lemma dict_set_set d k v1 v2 :
  dict_set (dict_set d k v1) k v2 = dict_set d k v2.
Proof.
  induction d as [|[k0 v0] d IH]; simpl.
  - by rewrite str_eqb_refl.
  - destruct (str_eqb k0 k) eqn:E; simpl; rewrite E; [done|]. by rewrite IH.
Qed.


Lemma extend_lookup l n filler j :
  extend l n filler !! j =
    if decide (j < length l) then l !! j
    else if decide (j <= n) then Some filler else None.
Proof.
  unfold extend. destruct (decide (j < length l)) as [Hlt|Hge].
  - by rewrite lookup_app_l.
  - rewrite lookup_app_r by lia. destruct (decide (j <= n)).
    + apply lookup_replicate_2. lia.
    + apply lookup_ge_None_2. rewrite length_replicate. lia.
Qed.

Lemma set_keys_walk current key keys' value :
  keys' <> [] ->
  set_keys current (key :: keys') value =
    if isdigit key then
      k ← int_of_str key;
      match current with
      | JList l =>
          let l' := extend l k (JDict []) in
          match l' !! k with
          | Some next =>
              next' ← set_keys next keys' value;
              Ok (JList (<[k := next']> l'))
          | None => Ok current
          end
      | _ => Ok current
      end
    else
      match current with
      | JDict d =>
          let d' := if dict_mem d key then d else dict_set d key (JDict []) in
          match dict_get d' key with
          | Some next =>
              next' ← set_keys next keys' value;
              Ok (JDict (dict_set d' key next'))
          | None => Ok current
          end
      | _ => Raise TypeError
      end.
Proof. by destruct keys'. Qed.

Lemma set_keys_segment current key rest value :
  set_keys current (key :: rest) value = segment_step current key rest value.
Proof.
  unfold segment_step. destruct rest as [|key' rest].
  - cbn [set_keys]. destruct (isdigit key); [|by destruct current].
    destruct (int_of_str key) as [n|e]; [|done]. rewrite !bind_Ok. by destruct current.
  - rewrite set_keys_walk by done. generalize (key' :: rest) as keys'. intros keys'.
    destruct (isdigit key).
    + destruct (int_of_str key) as [n|e]; [|done]. rewrite !bind_Ok.
      destruct current as [| | | | | |l|]; try (by destruct keys'). cbv zeta.
      rewrite extend_lookup.
      destruct (decide (n < length l)) as [Hlt|Hge].
      * destruct (lookup_lt_is_Some_2 l _ Hlt) as [x Hx]. rewrite Hx.
        by destruct keys'.
      * rewrite decide_True by lia. rewrite lookup_ge_None_2 by lia.
        by destruct keys'.
    + destruct current as [| | | | | | |d]; try (by destruct keys'). cbv zeta.
      unfold dict_mem. destruct (dict_get d key) as [next|] eqn:Hg.
      * rewrite Hg. by destruct keys'.
      * rewrite dict_get_set, str_eqb_refl. cbn [default from_option id].
        destruct (set_keys (JDict []) keys' value); destruct keys'; try done.
        all: by rewrite ?bind_Ok, ?dict_set_set.
Qed.

End NestedValueFacts.




(* ===================================================================== *)
(** ** Further properties *)
(* ===================================================================== *)

(** What the assembler leaves behind after the records [records]. *)
Lemma add_all_run name mb records :
  exists groups,
    concat groups = records /\
    files (save_final_chunk (add_all (init name mb) records)) = imap file_of_group groups /\
    chunks (save_final_chunk (add_all (init name mb) records))
      = imap info_of_group groups /\
    total_conversations (save_final_chunk (add_all (init name mb) records))
      = length records /\
    Forall (within_budget (mb * 1024 * 1024)) groups.
Proof.
  destruct (assembled_add_all _ records _ _ _ _ (assembled_init name mb))
    as (groups & cur & H).
  exact (assembled_save_final _ _ _ _ _ H).
Qed.

Lemma all_records_add_all self records :
  all_records (add_all self records) = all_records self ++ records.*1.
Proof.
  revert self. induction records as [|r records IH]; intros self.
  - by rewrite app_nil_r.
  - change (add_all self (r :: records)) with (add_all (add_sized self r.1 r.2) records).
    rewrite IH, all_records_add_sized, fmap_cons. by rewrite <- app_assoc.
Qed.

Section WholeObjects.

Import LargeJSONChunker.

Variable json_loads : str -> option json.

Implicit Types (c : cursor) (buffer rest file pre post : str) (ps : list piece).

Lemma brace_free_cons ch s :
  brace_free (ch :: s) = true <->
  char_eqb ch (chr "{") = false /\ char_eqb ch (chr "}") = false /\ brace_free s = true.
Proof.
  unfold brace_free. cbn [forallb].
  rewrite !andb_true_iff, !negb_true_iff. tauto.
Qed.

Lemma brace_free_app a b :
  brace_free (a ++ b) = true <-> brace_free a = true /\ brace_free b = true.
Proof. unfold brace_free. by rewrite forallb_app, andb_true_iff. Qed.

Lemma bracket_free_cons ch s :
  bracket_free (ch :: s) = true <->
  char_eqb ch (chr "[") = false /\ bracket_free s = true.
Proof.
  unfold bracket_free. cbn [forallb].
  by rewrite andb_true_iff, negb_true_iff.
Qed.

Lemma decoded_cons t objs :
  decoded json_loads (t :: objs)
  = match json_loads t with
    | Some v => (v, encoded_len t) :: decoded json_loads objs
    | None => decoded json_loads objs
    end.
Proof. unfold decoded. cbn [omap list_omap]. by destruct (json_loads t). Qed.

Lemma scan_from_app buffer a b : forall i c,
  scan_from json_loads buffer (a ++ b) i c
  = scan_from json_loads buffer b (i + Z.of_nat (length a)) (scan_from json_loads buffer a i c).
Proof.
  induction a as [|ch a IH]; intros i c.
  - simpl. f_equal. lia.
  - cbn [app scan_from length]. rewrite IH. f_equal. lia.
Qed.

Lemma scan_char_other buffer i ch c :
  in_array c = true ->
  char_eqb ch (chr "{") = false -> char_eqb ch (chr "}") = false ->
  scan_char json_loads buffer i ch c = c.
Proof.
  intros Ha H1 H2. unfold scan_char. rewrite Ha, H1, H2.
  by rewrite andb_false_r.
Qed.

Lemma scan_brace_free buffer s : forall i c,
  in_array c = true -> brace_free s = true ->
  scan_from json_loads buffer s i c = c.
Proof.
  induction s as [|ch s IH]; intros i c Ha Hs; [done|].
  apply brace_free_cons in Hs as (H1 & H2 & Hs).
  cbn [scan_from]. rewrite scan_char_other by done. by apply IH.
Qed.

Lemma scan_bracket_free buffer s : forall i c,
  in_array c = false -> bracket_free s = true ->
  scan_from json_loads buffer s i c = c.
Proof.
  induction s as [|ch s IH]; intros i c Ha Hs; [done|].
  apply bracket_free_cons in Hs as [Hc Hs].
  cbn [scan_from]. 
  assert (scan_char json_loads buffer i ch c = c) as ->.
  { unfold scan_char. rewrite Ha, Hc. simpl. by rewrite !andb_false_r. }
  by apply IH.
Qed.

Lemma scan_char_open buffer i c :
  in_array c = true -> bracket_depth c <> 0 ->
  scan_char json_loads buffer i (chr "{") c = with_bracket_depth c (bracket_depth c + 1).
Proof.
  intros Ha Hd. unfold scan_char. rewrite Ha. cbn [negb andb char_eqb chr].
  destruct (Z.eqb_spec (bracket_depth c) 0); [done|]. reflexivity.
Qed.

Lemma scan_char_close buffer i c :
  in_array c = true -> bracket_depth c <> 1 ->
  scan_char json_loads buffer i (chr "}") c = with_bracket_depth c (bracket_depth c - 1).
Proof.
  intros Ha Hd. unfold scan_char. rewrite Ha. cbn [negb andb char_eqb chr].
  cbn [with_bracket_depth bracket_depth].
  destruct (Z.eqb_spec (bracket_depth c - 1) 0); [lia|]. reflexivity.
Qed.

Lemma char_eqb_true (a b : char) : char_eqb a b = true -> a = b.
Proof. apply N.eqb_eq. Qed.

Lemma scan_to_close u : forall buffer i c (d : nat),
  in_array c = true -> bracket_depth c = Z.of_nat d -> (1 <= d)%nat ->
  object_start c <> -1 ->
  closes_at_end d u = true ->
  scan_from json_loads buffer u i c
  = complete_object json_loads buffer (i + Z.of_nat (length u) - 1) (with_bracket_depth c 0).
Proof.
  induction u as [|ch u IH]; intros buffer i c d Ha Hd Hpos Hs Hu; [done|].
  cbn [closes_at_end] in Hu. cbn [scan_from length].
  destruct (char_eqb ch (chr "{")) eqn:Ho.
  { apply char_eqb_true in Ho as ->.
    rewrite scan_char_open by (done || lia).
    rewrite (IH _ _ _ (S d)); [|done|cbn; lia|lia|done|done].
    f_equal. lia. }
  destruct (char_eqb ch (chr "}")) eqn:Hc.
  { apply char_eqb_true in Hc as ->.
    destruct d as [|[|d]]; [done| |].
    - destruct u; [|done]. cbn [scan_from length].
      unfold scan_char. rewrite Ha. simpl. rewrite Hd. simpl.
      destruct (Z.eqb_spec (object_start c) (-1)); [done|]. simpl.
      f_equal. lia.
    - rewrite scan_char_close by (done || lia).
      rewrite (IH _ _ _ (S d)); [|done|cbn; lia|lia|done|done].
      f_equal. lia. }
  rewrite scan_char_other by done.
  rewrite (IH _ _ _ d) by done. f_equal. lia.
Qed.

Lemma slice_middle pre t post :
  slice (pre ++ t ++ post) (Z.of_nat (length pre))
        (Z.of_nat (length pre) + Z.of_nat (length t)) = t.
Proof.
  unfold slice. rewrite Nat2Z.id, drop_app_length.
  replace (Z.to_nat _) with (length t) by lia.
  by rewrite take_app_length.
Qed.

Lemma scan_object_complete pre t post c :
  in_array c = true -> bracket_depth c = 0 -> braced t = true ->
  scan_from json_loads (pre ++ t ++ post) t (Z.of_nat (length pre)) c
  = complete_object json_loads (pre ++ t ++ post)
      (Z.of_nat (length pre) + Z.of_nat (length t) - 1)
      (with_bracket_depth (with_object_start c (Z.of_nat (length pre))) 0).
Proof.
  intros Ha Hd Ht. generalize (pre ++ t ++ post). intros buffer.
  destruct t as [|ch u]; [done|].
  cbn [braced] in Ht. apply andb_prop in Ht as [Ho Hu].
  apply char_eqb_true in Ho as ->.
  cbn [scan_from].
  match goal with
  | |- context [scan_char ?f ?b ?i ?ch c] =>
      assert (scan_char f b i ch c = with_bracket_depth (with_object_start c i) 1) as ->
  end.
  { unfold scan_char. rewrite Ha. simpl. rewrite Hd. cbn. by rewrite Hd. }
  rewrite (scan_to_close u _ _ _ 1%nat);
    [|exact Ha|reflexivity|lia|cbn; lia|exact Hu].
  f_equal. cbn [length]. lia.
Qed.

Lemma complete_object_after pre t post c :
  in_array c = true ->
  complete_object json_loads (pre ++ t ++ post)
      (Z.of_nat (length pre) + Z.of_nat (length t) - 1)
      (with_bracket_depth (with_object_start c (Z.of_nat (length pre))) 0)
  = after_pieces json_loads (Z.of_nat (length pre)) [Object t] c.
Proof.
  intros Ha. unfold complete_object.
  cbn [with_bracket_depth with_object_start object_start].
  replace (Z.of_nat (length pre) + Z.of_nat (length t) - 1 + 1)
    with (Z.of_nat (length pre) + Z.of_nat (length t)) by lia.
  rewrite slice_middle.
  unfold after_pieces. change (objects_of [Object t]) with [t].
  rewrite decoded_cons. cbn [skip_positions].
  unfold _add_conversation_to_chunk.
  destruct (json_loads t) as [v|];
    unfold with_self, with_skipped, with_object_start; cbn;
    rewrite ?Ha, ?app_nil_r; reflexivity.
Qed.

Lemma scan_object buffer pre t post c :
  buffer = pre ++ t ++ post ->
  in_array c = true -> bracket_depth c = 0 -> braced t = true ->
  scan_from json_loads buffer t (Z.of_nat (length pre)) c
  = after_pieces json_loads (Z.of_nat (length pre)) [Object t] c.
Proof.
  intros -> Ha Hd Ht. rewrite scan_object_complete by done.
  by apply complete_object_after.
Qed.

Lemma pieces_text_cons p ps : pieces_text (p :: ps) = piece_text p ++ pieces_text ps.
Proof. reflexivity. Qed.

Lemma pieces_text_app ps qs : pieces_text (ps ++ qs) = pieces_text ps ++ pieces_text qs.
Proof. unfold pieces_text. by rewrite fmap_app, concat_app. Qed.

Lemma scan_pieces buffer ps : forall pre post c,
  buffer = pre ++ pieces_text ps ++ post ->
  in_array c = true -> bracket_depth c = 0 -> Forall (fun p => piece_ok p = true) ps ->
  scan_from json_loads buffer (pieces_text ps) (Z.of_nat (length pre)) c
  = after_pieces json_loads (Z.of_nat (length pre)) ps c.
Proof.
  induction ps as [|p ps IH]; intros pre post c Hb Ha Hd Hps.
  - destruct c. cbn in *. subst. unfold after_pieces. cbn. by rewrite app_nil_r.
  - apply Forall_cons_1 in Hps as [Hp Hps].
    rewrite pieces_text_cons in *. rewrite scan_from_app.
    replace (Z.of_nat (length pre) + Z.of_nat (length (piece_text p)))
      with (Z.of_nat (length (pre ++ piece_text p)))
      by (rewrite length_app; lia).
    destruct p as [s|t]; cbn [piece_text piece_ok] in *.
    + rewrite (scan_brace_free buffer s) by done.
      rewrite (IH _ post) by (by rewrite ?Hb, <- ?app_assoc).
      unfold after_pieces. cbn [skip_positions].
      change (objects_of (Between s :: ps)) with (objects_of ps).
      by rewrite length_app, Nat2Z.inj_add.
    + rewrite (scan_object buffer pre t (pieces_text ps ++ post));
        [|by rewrite Hb, <- app_assoc|done..].
      rewrite (IH _ post); [|by rewrite ?Hb, <- ?app_assoc|done..].
      unfold after_pieces.
      change (objects_of (Object t :: ps)) with (t :: objects_of ps).
      change (objects_of [Object t]) with [t].
      rewrite !decoded_cons.
      cbn [skip_positions bracket_depth in_array object_start self skipped].
      rewrite length_app, Nat2Z.inj_add, <- app_assoc.
      destruct (json_loads t) as [v|]; destruct (objects_of ps); reflexivity.
Qed.

Lemma rfind_from_app a b ch : forall i found,
  rfind_from (a ++ b) ch i found
  = rfind_from b ch (i + Z.of_nat (length a)) (rfind_from a ch i found).
Proof.
  induction a as [|x a IH]; intros i found.
  - simpl. f_equal. lia.
  - cbn [app rfind_from length]. rewrite IH. f_equal. lia.
Qed.

Lemma rfind_from_brace_free s : forall i found,
  brace_free s = true -> rfind_from s (chr "}") i found = found.
Proof.
  induction s as [|x s IH]; intros i found Hs; [done|].
  apply brace_free_cons in Hs as (_ & Hx & Hs).
  cbn [rfind_from]. rewrite Hx. by apply IH.
Qed.

Lemma rfind_last_brace a b :
  brace_free b = true ->
  rfind (a ++ chr "}" :: b) (chr "}") = Z.of_nat (length a).
Proof.
  intros Hb. unfold rfind. rewrite rfind_from_app. cbn [rfind_from].
  rewrite rfind_from_brace_free by done.
  unfold char_eqb. rewrite N.eqb_refl. unfold char. lia.
Qed.

Lemma not_minus_one (n : nat) : (Z.of_nat n =? -1) = false.
Proof. apply Z.eqb_neq. lia. Qed.

Lemma slice_from_after (a b : list N) (ch : N) :
  slice_from (a ++ ch :: b) (Z.of_nat (length a) + 1) = b.
Proof.
  unfold slice_from.
  replace (Z.to_nat (Z.of_nat (length a) + 1)) with (length (a ++ [ch]))
    by (rewrite length_app; cbn [length]; lia).
  by rewrite (cons_middle ch a b), app_assoc, drop_app_length.
Qed.

Lemma brace_free_drop n s : brace_free s = true -> brace_free (drop n s) = true.
Proof.
  intros Hs. rewrite <- (take_drop n s) in Hs.
  by apply brace_free_app in Hs as [_ ?].
Qed.

Lemma closes_at_end_last u : forall d,
  closes_at_end d u = true -> exists a : str, u = a ++ [chr "}"].
Proof.
  induction u as [|x u IH]; intros d Hu; [done|].
  cbn [closes_at_end] in Hu.
  destruct (char_eqb x (chr "{")) eqn:Ho.
  { destruct (IH _ Hu) as [a ->]. by exists (x :: a). }
  destruct (char_eqb x (chr "}")) eqn:Hc.
  { apply char_eqb_true in Hc as ->. destruct d as [|[|d]]; [done| |].
    - destruct u; [|done]. by exists [].
    - destruct (IH _ Hu) as [a ->]. by exists (chr "}" :: a). }
  destruct (IH _ Hu) as [a ->]. by exists (x :: a).
Qed.

Lemma objects_of_nil_brace_free ps :
  Forall (fun p => piece_ok p = true) ps -> objects_of ps = [] ->
  brace_free (pieces_text ps) = true.
Proof.
  induction 1 as [|p ps Hp Hps IH]; intros Ho; [done|].
  destruct p as [s|t]; [|done].
  rewrite pieces_text_cons. apply brace_free_app. split; [done|]. by apply IH.
Qed.

Lemma pieces_text_last_brace ps :
  Forall (fun p => piece_ok p = true) ps -> objects_of ps <> [] ->
  exists a b : str, pieces_text ps = a ++ chr "}" :: b /\ brace_free b = true.
Proof.
  induction 1 as [|p ps Hp Hps IH]; intros Ho; [done|].
  rewrite pieces_text_cons.
  destruct (objects_of ps) as [|t' objs] eqn:Hobjs.
  - destruct p as [s|t]; [by rewrite <- Hobjs in Ho|].
    cbn [piece_ok braced piece_text] in *. destruct t as [|ch u]; [done|].
    apply andb_prop in Hp as [_ Hu]. apply closes_at_end_last in Hu as [a ->].
    exists (ch :: a), (pieces_text ps). split.
    + cbn [app]. by rewrite <- app_assoc.
    + by apply objects_of_nil_brace_free.
  - destruct IH as (a & b & -> & Hb); [done|].
    exists (piece_text p ++ a), b. by rewrite <- app_assoc.
Qed.

Lemma keep_unprocessed_fields buffer c :
  bracket_depth (keep_unprocessed buffer c).2 = bracket_depth c /\
  in_array (keep_unprocessed buffer c).2 = in_array c /\
  self (keep_unprocessed buffer c).2 = self c /\
  skipped (keep_unprocessed buffer c).2 = skipped c.
Proof.
  unfold keep_unprocessed.
  repeat (match goal with |- context [if ?b then _ else _] => destruct b end); done.
Qed.

Lemma keep_unprocessed_brace_free buffer c :
  brace_free buffer = true -> brace_free (keep_unprocessed buffer c).1 = true.
Proof.
  intros Hb. unfold keep_unprocessed, slice_from.
  repeat (match goal with |- context [if ?b then _ else _] => destruct b end);
    cbn [fst]; try done; by apply brace_free_drop.
Qed.

(** What is kept after a pass that ended between two objects holds no
    brace. *)
Lemma keep_after_pieces pre ps c :
  Forall (fun p => piece_ok p = true) ps ->
  objects_of ps <> [] \/ brace_free pre = true
    \/ (object_start c = Z.of_nat (length pre) /\ (0 < length pre)%nat) ->
  brace_free
    (keep_unprocessed (pre ++ pieces_text ps)
       (after_pieces json_loads (Z.of_nat (length pre)) ps c)).1 = true.
Proof.
  intros Hps Hcase.
  destruct (objects_of ps) as [|t objs] eqn:Hobjs.
  - destruct Hcase as [?|[Hpre|[Hs Hlen]]]; [done| |].
    + apply keep_unprocessed_brace_free, brace_free_app. split; [done|].
      by apply objects_of_nil_brace_free.
    + unfold keep_unprocessed, after_pieces. rewrite Hobjs.
      cbn [object_start]. rewrite Hs.
      destruct (Z.eqb_spec (Z.of_nat (length pre)) (-1)); [lia|].
      destruct (Z.ltb_spec 0 (Z.of_nat (length pre))); [|lia].
      cbn [negb andb fst]. unfold slice_from. rewrite Nat2Z.id, drop_app_length.
      by apply objects_of_nil_brace_free.
  - destruct (pieces_text_last_brace ps) as (a & b & Hab & Hb); [done|by rewrite Hobjs|].
    unfold keep_unprocessed, after_pieces. rewrite Hobjs.
    cbn [object_start bracket_depth in_array negb andb Z.eqb Pos.eqb].
    rewrite Hab, app_assoc, rfind_last_brace by done.
    rewrite not_minus_one. cbn [negb fst]. by rewrite slice_from_after.
Qed.

Lemma objects_of_app ps qs : objects_of (ps ++ qs) = objects_of ps ++ objects_of qs.
Proof. apply omap_app. Qed.

Lemma decoded_app objs objs' :
  decoded json_loads (objs ++ objs') = decoded json_loads objs ++ decoded json_loads objs'.
Proof. apply omap_app. Qed.

Lemma undecoded_app objs objs' :
  undecoded json_loads (objs ++ objs')
  = undecoded json_loads objs ++ undecoded json_loads objs'.
Proof. apply List.filter_app. Qed.

Lemma skip_positions_length ps : forall i,
  length (skip_positions json_loads i ps)
  = length (undecoded json_loads (objects_of ps)).
Proof.
  induction ps as [|[s|t] ps IH]; intros i; [done|apply IH|].
  cbn [skip_positions]. change (objects_of (Object t :: ps)) with (t :: objects_of ps).
  unfold undecoded. cbn [List.filter]. rewrite length_app, IH.
  by destruct (json_loads t).
Qed.

(** One read that holds whole pieces, taken between two objects with
    nothing but separators left in the buffer. *)
Lemma read_step_pieces (b : str) c ps :
  brace_free b = true -> in_array c = true -> bracket_depth c = 0 ->
  Forall (fun p => piece_ok p = true) ps ->
  let bc' := read_step json_loads (b, c) (pieces_text ps) in
  brace_free bc'.1 = true /\ in_array bc'.2 = true /\ bracket_depth bc'.2 = 0 /\
  self bc'.2 = add_all (self c) (decoded json_loads (objects_of ps)) /\
  skipped bc'.2 = skipped c ++ skip_positions json_loads (Z.of_nat (length b)) ps.
Proof.
  intros Hb Ha Hd Hps. unfold read_step, process_buffer. cbn [fst snd].
  rewrite scan_from_app, (scan_brace_free _ b), Z.add_0_l by done.
  rewrite (scan_pieces _ ps b []) by (by rewrite ?app_nil_r).
  destruct (keep_unprocessed_fields (b ++ pieces_text ps)
              (after_pieces json_loads (Z.of_nat (length b)) ps c)) as (-> & -> & -> & ->).
  split; [|done].
  apply keep_after_pieces; [done|].
  destruct (objects_of ps); [by right; left|by left].
Qed.

Lemma fold_read_step_pieces later : forall (b : str) c,
  brace_free b = true -> in_array c = true -> bracket_depth c = 0 ->
  Forall (Forall (fun p => piece_ok p = true)) later ->
  let bc' := fold_left (read_step json_loads) (pieces_text <$> later) (b, c) in
  self bc'.2 = add_all (self c) (decoded json_loads (objects_of (concat later))) /\
  exists pos,
    skipped bc'.2 = skipped c ++ pos /\
    length pos = length (undecoded json_loads (objects_of (concat later))).
Proof.
  induction later as [|ps later IH]; intros b c Hb Ha Hd Hl.
  - cbn. split; [done|]. exists []. by rewrite app_nil_r.
  - apply Forall_cons_1 in Hl as [Hps Hl].
    cbn [fmap list_fmap fold_left concat].
    destruct (read_step_pieces b c ps) as (Hb' & Ha' & Hd' & Hs' & Hk'); [done..|].
    destruct (read_step json_loads (b, c) (pieces_text ps)) as [b' c'].
    cbn [fst snd] in *.
    destruct (IH b' c') as (Hs & pos & Hk & Hn); [done..|].
    cbn zeta. rewrite Hs, Hs', add_all_app, Hk, Hk', objects_of_app, decoded_app.
    split; [done|].
    eexists. rewrite <- app_assoc. split; [done|].
    by rewrite length_app, skip_positions_length, Hn, undecoded_app, length_app.
Qed.

(** The first read: what precedes the array holds no opening bracket. *)
Lemma first_read_pieces (lead : str) first self0 :
  bracket_free lead = true ->
  Forall (fun p => piece_ok p = true) first ->
  let bc' := read_step json_loads (start self0) (lead ++ chr "[" :: pieces_text first) in
  brace_free bc'.1 = true /\ in_array bc'.2 = true /\ bracket_depth bc'.2 = 0 /\
  self bc'.2 = add_all self0 (decoded json_loads (objects_of first)) /\
  skipped bc'.2 = skip_positions json_loads (Z.of_nat (length lead) + 1) first.
Proof.
  intros Hlead Hps. unfold read_step, process_buffer, start. cbn [fst snd app].
  rewrite scan_from_app, (scan_bracket_free _ lead), Z.add_0_l by done.
  cbn [scan_from].
  match goal with
  | |- context [scan_char ?f ?b ?i ?ch ?c] =>
      assert (scan_char f b i ch c
              = {| bracket_depth := 0; in_array := true; object_start := i + 1;
                   self := self0; skipped := [] |}) as -> by reflexivity
  end.
  replace (Z.of_nat (length lead) + 1) with (Z.of_nat (length (lead ++ [chr "["])))
    by (rewrite length_app; cbn [length]; lia).
  rewrite (scan_pieces _ first (lead ++ [chr "["]) []);
    [|by rewrite <- !app_assoc, app_nil_r|done..].
  match goal with
  | |- context [keep_unprocessed ?b ?c] =>
      destruct (keep_unprocessed_fields b c) as (-> & -> & -> & ->)
  end.
  split; [|done].
  replace (lead ++ chr "[" :: pieces_text first)
    with ((lead ++ [chr "["]) ++ pieces_text first) by (by rewrite <- app_assoc).
  apply keep_after_pieces; [done|].
  destruct (objects_of first); [|by left].
  right; right. split; [done|]. rewrite length_app. cbn [length]. lia.
Qed.

Lemma decoded_fst objs : (decoded json_loads objs).*1 = omap json_loads objs.
Proof.
  induction objs as [|t objs IH]; [done|].
  rewrite decoded_cons. cbn [omap list_omap].
  destruct (json_loads t); cbn [fmap list_fmap fst]; by rewrite IH.
Qed.

(** A run on an existing file of which the scan has taken [records]. *)
Lemma chunk_file_of_records input_file chunk_size_mb file file_size records :
  self (_process_file_streaming json_loads (init input_file chunk_size_mb) file).2
    = add_all (init input_file chunk_size_mb) records ->
  let last := (_process_file_streaming json_loads (init input_file chunk_size_mb) file).2 in
  let self' := save_final_chunk (add_all (init input_file chunk_size_mb) records) in
  chunk_file json_loads (init input_file chunk_size_mb) (Some (file, file_size))
  = if forallb writable (records.*1)
    then Ok {| returned := chunks self';
               summary_file :=
                 _generate_summary self' (chunks self') (total_conversations self')
                                   file_size;
               chunk_files := files self';
               skip_messages := skipped last |}
    else Raise UnicodeEncodeError.
Proof.
  intros Hself last self'. rewrite chunk_file_run. cbv zeta.
  rewrite Hself, all_records_add_all. done.
Qed.

(** X1.  When no object of the array crosses a read of 64 KB and the braces
    of every object balance by count, the scanner hands every object text
    to the decoder, in order.  When the decoded objects can all be written,
    the chunk files hold exactly the decodings of the texts that decode,
    the summary counts them, and there is one skip message for each text
    that does not decode; when one of them holds a lone surrogate, the run
    ends with [UnicodeEncodeError]. *)
Theorem objects_within_reads_are_all_scanned
    (input_file : str) (chunk_size_mb : Z) (file : str) (file_size : nat)
    (lead : str) (first : list piece) (later : list (list piece)) :
  bracket_free lead = true ->
  Forall (fun p => piece_ok p = true) first ->
  Forall (Forall (fun p => piece_ok p = true)) later ->
  read_blocks READ_SIZE file = reads_of lead first later ->
  let objs := objects_of (first ++ concat later) in
  if forallb writable (omap json_loads objs)
  then
    exists r,
      chunk_file json_loads (init input_file chunk_size_mb) (Some (file, file_size)) = Ok r /\
      concat (saved_data <$> chunk_files r) = omap json_loads objs /\
      totalConversations (summary_file r) = length (omap json_loads objs) /\
      length (skip_messages r) = length (undecoded json_loads objs)
  else
    chunk_file json_loads (init input_file chunk_size_mb) (Some (file, file_size))
    = Raise UnicodeEncodeError.
Proof.
  intros Hlead Hfirst Hlater Hreads objs.
  assert (exists pos,
    let last := (_process_file_streaming json_loads (init input_file chunk_size_mb) file).2 in
    self last = add_all (init input_file chunk_size_mb) (decoded json_loads objs) /\
    skipped last = pos /\ length pos = length (undecoded json_loads objs))
    as (pos & Hself & Hskip & Hpos).
  { unfold _process_file_streaming, process_file_by.
    rewrite Hreads. unfold reads_of. cbn [fold_left].
    destruct (first_read_pieces lead first (init input_file chunk_size_mb))
      as (Hb & Ha & Hd & Hs & Hk); [done..|].
    destruct (read_step json_loads _ _) as [b c]. cbn [fst snd] in *.
    destruct (fold_read_step_pieces later b c) as (Hs' & pos & Hk' & Hn); [done..|].
    destruct (fold_left _ _ _) as [b' c']. cbn [fst snd] in *.
    exists (skipped c'). cbv zeta. cbn [snd]. split_and!; [|done|].
    - rewrite Hs', Hs, add_all_app, <- decoded_app, <- objects_of_app. done.
    - rewrite Hk', Hk, length_app, skip_positions_length, Hn.
      unfold objs. by rewrite objects_of_app, undecoded_app, length_app. }
  rewrite (chunk_file_of_records _ _ _ _ _ Hself). cbv zeta.
  rewrite decoded_fst. destruct (forallb writable (omap json_loads objs)); [|done].
  eexists. split; [done|]. cbn [chunk_files summary_file skip_messages
                                 _generate_summary totalConversations].
  destruct (add_all_run input_file chunk_size_mb (decoded json_loads objs))
    as (groups & Hg & Hf & _ & Ht & _).
  rewrite Hf, Ht, saved_data_of_groups, Hg, decoded_fst, Hskip.
  split_and!; [done|by rewrite <- decoded_fst, length_fmap|done].
Qed.

(** *** An object that crosses a read *)

Lemma with_bracket_depth_same c : with_bracket_depth c (bracket_depth c) = c.
Proof. by destruct c. Qed.

Lemma scan_open s : forall buffer i c (d e : nat),
  in_array c = true -> bracket_depth c = Z.of_nat d -> (1 <= d)%nat ->
  open_through d s = Some e ->
  scan_from json_loads buffer s i c = with_bracket_depth c (Z.of_nat e) /\ (1 <= e)%nat.
Proof.
  induction s as [|ch s IH]; intros buffer i c d e Ha Hd Hpos Hs.
  - cbn in Hs. injection Hs as <-. cbn [scan_from].
    by rewrite <- Hd, with_bracket_depth_same.
  - cbn [open_through] in Hs. cbn [scan_from].
    destruct (char_eqb ch (chr "{")) eqn:Ho.
    { apply char_eqb_true in Ho as ->.
      rewrite scan_char_open by (done || lia).
      destruct (IH buffer (i + 1) (with_bracket_depth c (bracket_depth c + 1)) (S d) e)
        as [-> He]; [done|cbn; lia|lia|done|]. done. }
    destruct (char_eqb ch (chr "}")) eqn:Hc.
    { apply char_eqb_true in Hc as ->.
      destruct d as [|[|d]]; [done..|].
      rewrite scan_char_close by (done || lia).
      destruct (IH buffer (i + 1) (with_bracket_depth c (bracket_depth c - 1)) (S d) e)
        as [-> He]; [done|cbn; lia|lia|done|]. done. }
    rewrite scan_char_other by done. by apply (IH _ _ _ d).
Qed.

Lemma open_through_app a : forall b d,
  open_through d (a ++ b) = open_through d a ≫= fun m => open_through m b.
Proof.
  induction a as [|ch a IH]; intros b d; [done|].
  cbn [app open_through].
  destruct (char_eqb ch (chr "{")); [apply IH|].
  destruct (char_eqb ch (chr "}")); [|apply IH].
  destruct d as [|[|d]]; [done..|]. apply IH.
Qed.

Lemma open_through_more s : forall d e k,
  open_through d s = Some e -> open_through (d + k) s = Some (e + k)%nat.
Proof.
  induction s as [|ch s IH]; intros d e k Hs.
  - cbn in *. by injection Hs as <-.
  - cbn [open_through] in *.
    destruct (char_eqb ch (chr "{")); [by apply (IH (S d))|].
    destruct (char_eqb ch (chr "}")); [|by apply IH].
    destruct d as [|[|d]]; [done..|]. by apply (IH (S d)).
Qed.

Lemma keep_unprocessed_open buffer c :
  bracket_depth c <> 0 -> 0 <= object_start c ->
  keep_unprocessed buffer c
  = (slice_from buffer (object_start c), with_object_start c 0).
Proof.
  intros Hd Hs. unfold keep_unprocessed.
  destruct (Z.eqb_spec (object_start c) (-1)); [lia|].
  destruct (Z.ltb_spec 0 (object_start c)); cbn [negb andb]; [done|].
  destruct (Z.eqb_spec (bracket_depth c) 0); [done|]. cbn [andb].
  assert (object_start c = 0) as Hz by lia.
  rewrite Hz. unfold slice_from. cbn [Z.to_nat drop].
  f_equal. destruct c. cbn in *. by subst.
Qed.

Lemma slice_from_app (a b : list N) (i : Z) :
  i = Z.of_nat (length a) -> slice_from (a ++ b) i = b.
Proof. intros ->. unfold slice_from. by rewrite Nat2Z.id, drop_app_length. Qed.

(** A read that ends inside an object: the buffer is cut at the start of
    the object and the depth stays where the object left it. *)
Lemma pass_then_open buffer (pre : str) ps (t : str) (d : nat) c :
  buffer = pre ++ pieces_text ps ++ t ->
  in_array c = true -> bracket_depth c = 0 ->
  Forall (fun p => piece_ok p = true) ps ->
  opened t = Some d ->
  keep_unprocessed buffer
    (scan_from json_loads buffer (pieces_text ps ++ t) (Z.of_nat (length pre)) c)
  = (t, {| bracket_depth := Z.of_nat d; in_array := true; object_start := 0;
           self := add_all (self c) (decoded json_loads (objects_of ps));
           skipped := skipped c ++ skip_positions json_loads (Z.of_nat (length pre)) ps |})
  /\ (1 <= d)%nat.
Proof.
  intros Hb Ha Hd Hps Ht.
  rewrite scan_from_app, (scan_pieces buffer ps pre t) by done.
  destruct t as [|ch u]; [done|]. cbn [opened] in Ht.
  destruct (char_eqb ch (chr "{")) eqn:Ho; [|done].
  apply char_eqb_true in Ho as ->. cbn [scan_from].
  match goal with
  | |- context [scan_char ?f ?b ?i ?ch ?c'] =>
      assert (scan_char f b i ch c' = with_bracket_depth (with_object_start c' i) 1)
        as -> by reflexivity
  end.
  match goal with
  | |- context [scan_from ?f ?b u ?i ?c'] =>
      destruct (scan_open u b i c' 1%nat d) as [-> Hpos]; [done|done|lia|done|]
  end.
  split; [|done].
  rewrite keep_unprocessed_open; cbn [with_bracket_depth with_object_start
                                       bracket_depth object_start]; [|lia..].
  f_equal.
  rewrite Hb, app_assoc. apply slice_from_app. rewrite length_app. lia.
Qed.

Lemma fold_then_open (t : str) (d : nat) later : forall ps (b : str) c,
  brace_free b = true -> in_array c = true -> bracket_depth c = 0 ->
  Forall (fun p => piece_ok p = true) ps ->
  Forall (Forall (fun p => piece_ok p = true)) later ->
  opened t = Some d ->
  exists pos,
    fold_left (read_step json_loads) (then_open (pieces_text ps) later t) (b, c)
    = (t, {| bracket_depth := Z.of_nat d; in_array := true; object_start := 0;
             self := add_all (self c)
                       (decoded json_loads (objects_of (ps ++ concat later)));
             skipped := skipped c ++ pos |}) /\
    length pos = length (undecoded json_loads (objects_of (ps ++ concat later))).
Proof.
  induction later as [|ps' later IH]; intros ps b c Hb Ha Hd Hps Hl Ht.
  - cbn [then_open fold_left concat]. rewrite app_nil_r.
    unfold read_step, process_buffer. cbn [fst snd].
    rewrite scan_from_app, (scan_brace_free _ b), Z.add_0_l by done.
    destruct (pass_then_open (b ++ pieces_text ps ++ t) b ps t d c) as [-> _]; [done..|].
    eexists. split; [done|]. apply skip_positions_length.
  - apply Forall_cons_1 in Hl as [Hps' Hl].
    cbn [then_open fold_left concat].
    destruct (read_step_pieces b c ps) as (Hb' & Ha' & Hd' & Hs' & Hk'); [done..|].
    destruct (read_step json_loads (b, c) (pieces_text ps)) as [b' c'].
    cbn [fst snd] in *.
    destruct (IH ps' b' c') as (pos & -> & Hn); [done..|].
    rewrite Hs', Hk', add_all_app, <- decoded_app, <- objects_of_app, <- app_assoc.
    eexists. split; [done|].
    by rewrite length_app, skip_positions_length, Hn, !objects_of_app, !undecoded_app,
         !length_app.
Qed.

(** Once an object is open across a read, every pass scans the whole
    buffer again from a depth of at least 1: nothing is handed over and
    nothing is dropped. *)
Lemma fold_after_open (t : str) (d : nat) more : forall (w : str) c (D : nat),
  in_array c = true -> object_start c = 0 -> bracket_depth c = Z.of_nat D ->
  (1 <= D)%nat ->
  opened t = Some d ->
  is_Some (open_through (S d) (w ++ concat more)) ->
  let bc' := fold_left (read_step json_loads) more (t ++ w, c) in
  bc'.1 = t ++ w ++ concat more /\ self bc'.2 = self c /\ skipped bc'.2 = skipped c /\
  1 <= bracket_depth bc'.2.
Proof.
  induction more as [|r more IH]; intros w c D Ha Hs Hd Hpos Ht Hw.
  - cbn. rewrite app_nil_r. split_and!; [done..|lia].
  - cbn [fold_left concat] in *.
    destruct t as [|ch u] eqn:Et; [done|]. cbn [opened] in Ht.
    destruct (char_eqb ch (chr "{")) eqn:Ho; [|done]. rewrite <- Et in *.
    rewrite app_assoc, open_through_app in Hw.
    destruct (open_through (S d) (w ++ r)) as [m|] eqn:Hm; [|by destruct Hw].
    cbn in Hw.
    assert (open_through D ((t ++ w) ++ r) = Some (m + (D - 1))%nat) as Hopen.
    { rewrite Et. cbn [app open_through]. rewrite Ho.
      rewrite <- app_assoc, open_through_app.
      replace (S D) with (1 + D)%nat by lia.
      rewrite (open_through_more u 1 d D) by done. cbn.
      replace (d + D)%nat with (S d + (D - 1))%nat by lia.
      by apply open_through_more. }
    assert (read_step json_loads (t ++ w, c) r
            = (t ++ w ++ r,
               with_object_start (with_bracket_depth c (Z.of_nat (m + (D - 1)))) 0))
      as ->.
    { unfold read_step, process_buffer. cbn [fst snd].
      destruct (scan_open ((t ++ w) ++ r) ((t ++ w) ++ r) 0 c D (m + (D - 1))%nat)
        as [-> He]; [done..|].
      rewrite keep_unprocessed_open;
        cbn [with_bracket_depth bracket_depth object_start]; [|lia..].
      rewrite Hs. unfold slice_from. cbn [Z.to_nat drop].
      by rewrite <- (app_assoc t w r). }
    destruct (scan_open ((t ++ w) ++ r) ((t ++ w) ++ r) 0 c D (m + (D - 1))%nat)
      as [_ He]; [done..|].
    destruct (IH (w ++ r)
                (with_object_start (with_bracket_depth c (Z.of_nat (m + (D - 1)))) 0)
                (m + (D - 1))%nat) as (H1 & H2 & H3 & H4);
      [done|done|done|done|by rewrite Et; cbn [opened]; rewrite Ho|by rewrite open_through_app, Hm|].
    rewrite <- !app_assoc in H1. by rewrite H1, H2, H3.
Qed.

Lemma fold_reads_then_open (lead : str) first later (t : str) (d : nat) self0 :
  bracket_free lead = true ->
  Forall (fun p => piece_ok p = true) first ->
  Forall (Forall (fun p => piece_ok p = true)) later ->
  opened t = Some d ->
  exists pos,
    fold_left (read_step json_loads) (reads_then_open lead first later t) (start self0)
    = (t, {| bracket_depth := Z.of_nat d; in_array := true; object_start := 0;
             self := add_all self0
                       (decoded json_loads (objects_of (first ++ concat later)));
             skipped := pos |}) /\
    length pos = length (undecoded json_loads (objects_of (first ++ concat later))) /\
    (1 <= d)%nat.
Proof.
  intros Hlead Hfirst Hlater Ht. unfold reads_then_open.
  destruct later as [|ps later].
  - cbn [then_open fold_left concat]. rewrite app_nil_r.
    unfold read_step, process_buffer, start. cbn [fst snd].
    rewrite <- app_assoc. cbn [app].
    rewrite scan_from_app, (scan_bracket_free _ lead), Z.add_0_l by done.
    cbn [scan_from].
    match goal with
    | |- context [scan_char ?f ?b ?i ?ch ?c] =>
        assert (scan_char f b i ch c
                = {| bracket_depth := 0; in_array := true; object_start := i + 1;
                     self := self0; skipped := [] |}) as -> by reflexivity
    end.
    replace (Z.of_nat (length lead) + 1) with (Z.of_nat (length (lead ++ [chr "["])))
      by (rewrite length_app; cbn [length]; lia).
    match goal with
    | |- context [keep_unprocessed ?b (scan_from _ _ _ _ ?c)] =>
        destruct (pass_then_open b (lead ++ [chr "["]) first t d c) as [-> Hpos];
          [by rewrite <- !app_assoc|done..|]
    end.
    eexists. split; [done|]. split; [apply skip_positions_length|done].
  - apply Forall_cons_1 in Hlater as [Hps Hlater].
    cbn [then_open fold_left].
    destruct (first_read_pieces lead first self0) as (Hb & Ha & Hd & Hs & Hk); [done..|].
    destruct (read_step json_loads _ _) as [b c]. cbn [fst snd] in *.
    destruct (fold_then_open t d later ps b c) as (pos & -> & Hn); [done..|].
    rewrite Hs, Hk, add_all_app, <- decoded_app, <- objects_of_app.
    eexists. split; [done|]. split.
    + cbn [concat]. rewrite length_app, skip_positions_length, Hn.
      by rewrite !objects_of_app, !undecoded_app, !length_app.
    + destruct t as [|ch u]; [done|]. cbn [opened] in Ht.
      destruct (char_eqb ch (chr "{")); [|done].
      destruct (scan_open u [] 0 {| bracket_depth := 1; in_array := true;
                  object_start := 0; self := self0; skipped := [] |} 1%nat d); done.
Qed.

(** X2.  Once an object of the array crosses a read of 64 KB, the scanner
    hands over nothing any more: if the reads before hold whole objects,
    one read ends with the beginning [t] of an object, and the rest of the
    file never closes more braces than are open, then at the end the buffer
    holds the whole file from [t] on, at a depth of at least 1, and the
    scan has taken the decodings of the whole objects before [t] and
    nothing else.  When these can all be written, the chunk files hold
    exactly them and the summary counts them; when one of them holds a lone
    surrogate, the run ends with [UnicodeEncodeError]. *)
Theorem nothing_is_scanned_after_an_object_crosses_a_read
    (input_file : str) (chunk_size_mb : Z) (file : str) (file_size : nat)
    (lead : str) (first : list piece) (later : list (list piece))
    (t : str) (d : nat) (more : list str) :
  bracket_free lead = true ->
  Forall (fun p => piece_ok p = true) first ->
  Forall (Forall (fun p => piece_ok p = true)) later ->
  opened t = Some d ->
  is_Some (open_through (S d) (concat more)) ->
  read_blocks READ_SIZE file = reads_then_open lead first later t ++ more ->
  let objs := objects_of (first ++ concat later) in
  let last := _process_file_streaming json_loads (init input_file chunk_size_mb) file in
  last.1 = t ++ concat more /\
  1 <= bracket_depth last.2 /\
  all_records (self last.2) = omap json_loads objs /\
  if forallb writable (omap json_loads objs)
  then
    exists r,
      chunk_file json_loads (init input_file chunk_size_mb) (Some (file, file_size)) = Ok r /\
      concat (saved_data <$> chunk_files r) = omap json_loads objs /\
      totalConversations (summary_file r) = length (omap json_loads objs) /\
      length (skip_messages r) = length (undecoded json_loads objs)
  else
    chunk_file json_loads (init input_file chunk_size_mb) (Some (file, file_size))
    = Raise UnicodeEncodeError.
Proof.
  intros Hlead Hfirst Hlater Ht Hmore Hreads objs last.
  assert (exists pos,
    last.1 = t ++ concat more /\
    self last.2 = add_all (init input_file chunk_size_mb) (decoded json_loads objs) /\
    skipped last.2 = pos /\ length pos = length (undecoded json_loads objs) /\
    1 <= bracket_depth last.2) as (pos & Hbuf & Hself & Hskip & Hn & Hdepth).
  { unfold last, _process_file_streaming, process_file_by.
    rewrite Hreads, fold_left_app.
    destruct (fold_reads_then_open lead first later t d (init input_file chunk_size_mb))
      as (pos & -> & Hn & Hpos); [done..|].
    match goal with
    | |- context [fold_left _ more (_, ?c)] =>
        pose proof (fold_after_open t d more [] c d) as H
    end.
    rewrite app_nil_r in H. cbn [app] in H.
    destruct H as (H1 & H2 & H3 & H4); [done..|].
    exists pos. split_and!; [exact H1|exact H2|exact H3|exact Hn|exact H4]. }
  split; [done|]. split; [done|]. split.
  { rewrite Hself, all_records_add_all. by rewrite decoded_fst. }
  rewrite (chunk_file_of_records _ _ _ _ _ Hself). cbv zeta.
  rewrite decoded_fst. destruct (forallb writable (omap json_loads objs)); [|done].
  eexists. split; [done|].
  cbn [chunk_files summary_file skip_messages _generate_summary totalConversations].
  destruct (add_all_run input_file chunk_size_mb (decoded json_loads objs))
    as (groups & Hg & Hf & _ & Htot & _).
  fold last. rewrite Hf, Htot, saved_data_of_groups, Hg, decoded_fst, Hskip.
  split_and!; [done|by rewrite <- decoded_fst, length_fmap|done].
Qed.

(** *** A file without an array *)

Lemma bracket_free_app a b :
  bracket_free (a ++ b) = true <-> bracket_free a = true /\ bracket_free b = true.
Proof. unfold bracket_free. by rewrite forallb_app, andb_true_iff. Qed.

Lemma fold_read_step_bracket_free self0 blocks : forall b : str,
  bracket_free (b ++ concat blocks) = true ->
  fold_left (read_step json_loads) blocks (b, (start self0).2)
  = (b ++ concat blocks, (start self0).2).
Proof.
  induction blocks as [|block blocks IH]; intros b Hb.
  - cbn. by rewrite app_nil_r.
  - cbn [fold_left concat] in *. rewrite app_assoc in Hb.
    assert (read_step json_loads (b, (start self0).2) block
            = (b ++ block, (start self0).2)) as ->.
    { unfold read_step, process_buffer. cbn [fst snd].
      apply bracket_free_app in Hb as [Hb _].
      by rewrite scan_bracket_free. }
    rewrite IH by done. by rewrite <- app_assoc.
Qed.

(** X3.  A file that holds no opening bracket, such as a single top-level
    object or an empty file, makes the scanner return normally with no
    chunk, no skip message and a summary of zero conversations. *)
Theorem file_without_array_gives_an_empty_run
    (input_file : str) (chunk_size_mb : Z) (file : str) (file_size : nat) :
  bracket_free file = true ->
  chunk_file json_loads (init input_file chunk_size_mb) (Some (file, file_size))
  = Ok {| returned := [];
          summary_file :=
            {| originalFile := input_file;
               originalSizeGB := round_hundredths file_size (1024 * 1024 * 1024);
               totalConversations := 0;
               totalChunks := 0;
               targetChunkSizeMB := chunk_size_mb;
               summary_chunks := [] |};
          chunk_files := [];
          skip_messages := [] |}.
Proof.
  intros Hfile. unfold chunk_file, _process_file_streaming, process_file_by.
  destruct (read_blocks_concat READ_SIZE file) as [Hc _]; [unfold READ_SIZE; lia|].
  change (start (init input_file chunk_size_mb))
    with ([] : str, (start (init input_file chunk_size_mb)).2).
  rewrite fold_read_step_bracket_free by (by rewrite Hc).
  reflexivity.
Qed.

End WholeObjects.


Lemma strs_eqb_eq (a : list str) : forall b, strs_eqb a b = true -> a = b.
Proof.
  induction a as [|x a IH]; intros [|y b]; cbn [strs_eqb]; try done.
  intros [Hx Hab]%andb_prop. apply str_eqb_eq in Hx as ->. by rewrite (IH b).
Qed.


Lemma objects_within_reads_are_all_scanned_witness :
  exists r,
    LargeJSONChunker.chunk_file PyJson.json_loads sample_chunker
      (file_of_text two_reads_input) = Ok r /\
    concat (saved_data <$> chunk_files r)
      = omap PyJson.json_loads (objects_of (two_reads_first ++ concat two_reads_later)) /\
    totalConversations (summary_file r)
      = length (omap PyJson.json_loads
                  (objects_of (two_reads_first ++ concat two_reads_later))) /\
    length (skip_messages r)
      = length (undecoded PyJson.json_loads
                  (objects_of (two_reads_first ++ concat two_reads_later))).
Proof.
  apply (objects_within_reads_are_all_scanned PyJson.json_loads
           (lit "conversations.json") 100 two_reads_input (encoded_len two_reads_input)
           [] two_reads_first two_reads_later).
  - reflexivity.
  - repeat (constructor; [vm_compute; reflexivity|]). constructor.
  - repeat constructor; vm_compute; reflexivity.
  - apply strs_eqb_eq. vm_compute. reflexivity.
Defined.

Lemma nothing_is_scanned_after_an_object_crosses_a_read_witness :
  let last :=
    LargeJSONChunker._process_file_streaming PyJson.json_loads sample_chunker
      long_record_input in
  last.1 = take (Z.to_nat 65535) long_record
           ++ concat [drop (Z.to_nat 65535) long_record ++ lit "]"] /\
  1 <= LargeJSONChunker.bracket_depth last.2 /\
  all_records (LargeJSONChunker.self last.2) = [] /\
  exists r,
    LargeJSONChunker.chunk_file PyJson.json_loads sample_chunker
      (Some (long_record_input, encoded_len long_record_input)) = Ok r /\
    concat (saved_data <$> chunk_files r) = [] /\
    totalConversations (summary_file r) = 0%nat /\
    length (skip_messages r) = 0%nat.
Proof.
  apply (nothing_is_scanned_after_an_object_crosses_a_read PyJson.json_loads
           (lit "conversations.json") 100 long_record_input
           (encoded_len long_record_input) [] [] []
           (take (Z.to_nat 65535) long_record) 1%nat
           [drop (Z.to_nat 65535) long_record ++ lit "]"]).
  - reflexivity.
  - constructor.
  - constructor.
  - vm_compute. reflexivity.
  - vm_compute. eexists. reflexivity.
  - apply strs_eqb_eq. vm_compute. reflexivity.
Defined.

Lemma file_without_array_gives_an_empty_run_witness :
  LargeJSONChunker.chunk_file PyJson.json_loads sample_chunker
    (Some (text "{'a':1}", 7%nat))
  = Ok {| returned := [];
          summary_file :=
            {| originalFile := lit "conversations.json";
               originalSizeGB := round_hundredths 7 (1024 * 1024 * 1024);
               totalConversations := 0;
               totalChunks := 0;
               targetChunkSizeMB := 100;
               summary_chunks := [] |};
          chunk_files := [];
          skip_messages := [] |}.
Proof.
  apply (file_without_array_gives_an_empty_run PyJson.json_loads
           (lit "conversations.json") 100 (text "{'a':1}") 7%nat).
  reflexivity.
Defined.

Section SimpleFacts.

Import PyJsonEncoder.

Lemma collect_all_ok {A} (f : A -> result str) l :
  Forall (fun x => exists s, f x = Ok s) l -> exists items, collect f l = Ok items.
Proof.
  induction 1 as [|x l [s Hs] _ [items IH]]; [by exists []|].
  exists (s :: items). cbn [collect]. fold (collect f). by rewrite Hs, IH.
Qed.

Lemma collect_raises {A} (f : A -> result str) l :
  Forall (fun x => (exists s, f x = Ok s) \/ f x = Raise TypeError) l ->
  Exists (fun x => f x = Raise TypeError) l ->
  collect f l = Raise TypeError.
Proof.
  induction 1 as [|x l Hx Hl IH]; intros He; [by apply Exists_nil in He|].
  cbn [collect]. fold (collect f).
  destruct Hx as [[s Hs]| ->]; [|done]. rewrite Hs. cbn.
  apply Exists_cons in He as [He|He]; [congruence|]. by rewrite IH.
Qed.

Lemma encode_decimal_free indent v : forall level,
  if decimal_free v
  then exists s, encode (fun _ _ => Raise TypeError) indent level v = Ok s
  else encode (fun _ _ => Raise TypeError) indent level v = Raise TypeError.
Proof.
  induction v as [| [|] | | | | |l IH|d IH] using json_ind; intros level;
    cbn [decimal_free]; try (by eexists).
  - destruct l as [|x l]; [by eexists|].
    destruct (forallb decimal_free (x :: l)) eqn:Hall.
    + destruct (collect_all_ok (encode (fun _ _ => Raise TypeError) indent (S level))
                  (x :: l)) as [items Hi].
      { apply Forall_forall. intros y Hy.
        rewrite Forall_forall in IH. specialize (IH y Hy (S level)).
        rewrite forallb_forall in Hall.
        by rewrite (Hall y Hy) in IH. }
      cbn [encode]. rewrite Hi. by eexists.
    + cbn [encode]. rewrite collect_raises; [done| |].
      * apply Forall_forall. intros y Hy.
        rewrite Forall_forall in IH. specialize (IH y Hy (S level)).
        destruct (decimal_free y); [by left|by right].
      * apply Exists_exists.
        assert (exists y, In y (x :: l) /\ decimal_free y = false) as (y & Hy & Hf).
        { apply not_true_iff_false in Hall.
          destruct (Exists_dec (fun y => decimal_free y = false) (x :: l)) as [He|Hn].
          - intros y. destruct (decimal_free y); [right|left]; done.
          - apply Exists_exists in He as (y & Hy & Hf). by exists y.
          - exfalso. apply Hall. apply forallb_forall. intros y Hy.
            destruct (decimal_free y) eqn:E; [done|].
            exfalso. apply Hn. apply Exists_exists. by exists y. }
        exists y. split; [done|].
        rewrite Forall_forall in IH. specialize (IH y Hy (S level)).
        by rewrite Hf in IH.
  - destruct d as [|kv d]; [by eexists|].
    set (f := fun kv : str * json =>
                s ← encode (fun _ _ => Raise TypeError) indent (S level) kv.2;
                Ok (encode_basestring kv.1 ++ key_separator ++ s)).
    assert (forall kv', In kv' (kv :: d) ->
              if decimal_free kv'.2 then exists s, f kv' = Ok s
              else f kv' = Raise TypeError) as Hf.
    { intros kv' Hkv. rewrite Forall_forall in IH. specialize (IH kv' Hkv (S level)).
      unfold f. destruct (decimal_free kv'.2).
      - destruct IH as [s ->]. by eexists.
      - by rewrite IH. }
    destruct (forallb (fun kv => decimal_free kv.2) (kv :: d)) eqn:Hall.
    + destruct (collect_all_ok f (kv :: d)) as [items Hi].
      { apply Forall_forall. intros y Hy. specialize (Hf y Hy).
        rewrite forallb_forall in Hall.
        by rewrite (Hall y Hy) in Hf. }
      cbn [encode]. fold f. rewrite Hi. by eexists.
    + cbn [encode]. fold f. rewrite collect_raises; [done| |].
      * apply Forall_forall. intros y Hy. specialize (Hf y Hy).
        destruct (decimal_free y.2); [by left|by right].
      * apply Exists_exists.
        assert (exists y, In y (kv :: d) /\ decimal_free y.2 = false) as (y & Hy & Hd).
        { apply not_true_iff_false in Hall.
          destruct (Exists_dec (fun y : str * json => decimal_free y.2 = false) (kv :: d))
            as [He|Hn].
          - intros y. destruct (decimal_free y.2); [right|left]; done.
          - apply Exists_exists in He as (y & Hy & Hd). by exists y.
          - exfalso. apply Hall. apply forallb_forall. intros y Hy.
            destruct (decimal_free y.2) eqn:E; [done|].
            exfalso. apply Hn. apply Exists_exists. by exists y. }
        exists y. split; [done|]. specialize (Hf y Hy). by rewrite Hd in Hf.
Qed.

Lemma json_dumps_decimal_free v :
  if decimal_free v
  then exists s, LargeJSONChunkerIjson.json_dumps v = Ok s
  else LargeJSONChunkerIjson.json_dumps v = Raise TypeError.
Proof. apply encode_decimal_free. Qed.

Lemma items_of_array (l : list json) : IjsonItems.items (JList l) (lit "item") = l.
Proof.
  unfold IjsonItems.items. cbn [IjsonItems.items_at].
  change (str_eqb (PyJsonEncoder.join (lit ".") []) (lit "item")) with false. cbv iota.
  induction l as [|x l IH]; [done|].
  cbn [flat_map]. rewrite IH.
  destruct x; cbn [IjsonItems.items_at app];
    by change (str_eqb (PyJsonEncoder.join (lit ".") [lit "item"]) (lit "item")) with true.
Qed.

Lemma simple_step_decimal_free locals v :
  decimal_free v = true ->
  SimpleIjsonChunker.step locals v = Ok (add_sized locals v (compact_size v)).
Proof.
  intros Hv. unfold SimpleIjsonChunker.step, compact_size.
  pose proof (json_dumps_decimal_free v) as H. rewrite Hv in H.
  by destruct H as [s ->].
Qed.

Lemma simple_loop_add_all conversations : forall locals,
  forallb decimal_free conversations = true ->
  SimpleIjsonChunker.loop conversations locals
  = Ok (add_all locals (sized conversations)).
Proof.
  induction conversations as [|v l IH]; intros locals Hall; [done|].
  cbn [forallb] in Hall. apply andb_prop in Hall as [Hv Hall].
  cbn [SimpleIjsonChunker.loop]. rewrite simple_step_decimal_free by done.
  rewrite bind_Ok. by rewrite IH.
Qed.

Lemma simple_loop_raises conversations : forall locals,
  forallb decimal_free conversations = false ->
  SimpleIjsonChunker.loop conversations locals = Raise TypeError.
Proof.
  induction conversations as [|v l IH]; intros locals Hall; [done|].
  cbn [forallb] in Hall. cbn [SimpleIjsonChunker.loop].
  destruct (decimal_free v) eqn:Hv.
  - rewrite simple_step_decimal_free by done. rewrite bind_Ok. by apply IH.
  - unfold SimpleIjsonChunker.step.
    pose proof (json_dumps_decimal_free v) as H. rewrite Hv in H. by rewrite H.
Qed.

Lemma imap_index_seq {A} (f : nat -> A -> saved_chunk) (l : list A) :
  (forall i x, saved_index (f i x) = i) ->
  saved_index <$> imap f l = seq 0 (length l).
Proof.
  intros Hf. rewrite fmap_imap.
  assert (forall k, imap (fun i x => saved_index (f (k + i)%nat x)) l = seq k (length l))
    as H.
  { induction l as [|x l IH]; intros k; [done|].
    cbn [imap length seq]. rewrite Hf, Nat.add_0_r. f_equal.
    rewrite <- IH. apply imap_ext. intros i y _. cbn. f_equal. f_equal. lia. }
  apply (H 0%nat).
Qed.

Lemma sized_fst conversations : (sized conversations).*1 = conversations.
Proof. unfold sized. rewrite <- list_fmap_compose. apply list_fmap_id. Qed.

Lemma sized_snd conversations : (sized conversations).*2 = compact_size <$> conversations.
Proof. unfold sized. by rewrite <- list_fmap_compose. Qed.

Lemma sized_groups (groups : list (list (json * nat))) conversations :
  concat groups = sized conversations ->
  Forall (fun g => g = sized (g.*1)) groups.
Proof.
  intros Hc.
  assert (Forall (fun r : json * nat => r.2 = compact_size r.1) (concat groups)) as Hall.
  { rewrite Hc. unfold sized. apply Forall_fmap, list.Forall_forall. done. }
  clear Hc. induction groups as [|g groups IH]; [done|].
  cbn [concat] in Hall. apply Forall_app in Hall as [Hg Hall].
  constructor; [|by apply IH].
  clear -Hg. induction Hg as [|[v n] g Hr _ IH]; [done|].
  cbn in *. subst. by rewrite IH at 1.
Qed.

(** What a run of [chunk_file_simple] leaves behind, from the groups the
    assembler made of the elements. *)
Lemma simple_run name mb elements file_size :
  forallb decimal_free elements = true ->
  exists groups,
    concat groups = sized elements /\
    Forall (within_budget (mb * 1024 * 1024)) groups /\
    SimpleIjsonChunker.chunk_file_simple name mb
      (Some (JList elements, file_size))
    = Ok {| returned := imap info_of_group groups;
            summary_file :=
              {| originalFile := name;
                 originalSizeGB := round_hundredths file_size (1024 * 1024 * 1024);
                 totalConversations := length elements;
                 totalChunks := length groups;
                 targetChunkSizeMB := mb;
                 summary_chunks := imap info_of_group groups |};
            chunk_files := imap file_of_group groups;
            skip_messages := [] |}.
Proof.
  intros Hall. unfold SimpleIjsonChunker.chunk_file_simple.
  rewrite items_of_array, simple_loop_add_all, bind_Ok by done.
  destruct (add_all_run name mb (sized elements))
    as (groups & Hg & Hf & Hc & Ht & Hw).
  exists groups. split; [done|]. split; [done|].
  unfold _generate_summary. rewrite Hf, Hc, Ht. f_equal. f_equal.
  - assert (input_file (save_final_chunk (add_all (init name mb)
                                            (sized elements))) = name
            /\ chunk_size_mb (save_final_chunk (add_all (init name mb)
                                            (sized elements))) = mb) as [-> ->].
    { generalize (sized elements). intros records.
      assert (forall self, input_file (add_all self records) = input_file self
                           /\ chunk_size_mb (add_all self records) = chunk_size_mb self)
        as H.
      { induction records as [|r records IH]; intros self; [done|].
        cbn [add_all fold_left]. fold (add_all (add_sized self r.1 r.2) records).
        destruct (IH (add_sized self r.1 r.2)) as [-> ->].
        unfold add_sized. by destruct (must_close self r.2). }
      destruct (H (init name mb)) as [H1 H2].
      unfold save_final_chunk. by destruct (current_chunk _). }
    unfold sized. by rewrite length_imap, length_fmap.
Qed.

(** X4.  [SimpleIjsonChunker] on an array whose elements hold no
    non-integer number: the run ends normally, the chunk files taken in
    order hold exactly the elements of the array in order, they are
    numbered 0, 1, 2, ..., none is empty, the size recorded for each is the
    sum of the compact sizes of its records, and the summary counts the
    elements and the files. *)
Theorem simple_chunker_writes_every_element
    (input_file : str) (chunk_size_mb : Z) (elements : list json) (file_size : nat) :
  forallb decimal_free elements = true ->
  exists r,
    SimpleIjsonChunker.chunk_file_simple input_file chunk_size_mb
      (Some (JList elements, file_size)) = Ok r /\
    concat (saved_data <$> chunk_files r) = elements /\
    saved_index <$> chunk_files r = seq 0 (length (chunk_files r)) /\
    Forall (fun f => saved_data f <> [] /\
                     saved_size f = sum_list (compact_size <$> saved_data f))
           (chunk_files r) /\
    returned r = info_of_file <$> chunk_files r /\
    summary_chunks (summary_file r) = returned r /\
    totalConversations (summary_file r) = length elements /\
    totalChunks (summary_file r) = length (chunk_files r).
Proof.
  intros Hall.
  destruct (simple_run input_file chunk_size_mb elements file_size Hall)
    as (groups & Hg & Hw & ->).
  eexists. split; [done|].
  cbn [chunk_files returned summary_file summary_chunks totalConversations totalChunks].
  split_and!.
  - by rewrite saved_data_of_groups, Hg, sized_fst.
  - rewrite length_imap. by apply imap_index_seq.
  - apply sized_groups in Hg.
    apply Forall_forall. intros f Hf. apply list_elem_of_In in Hf.
    apply elem_of_lookup_imap in Hf as (i & g & -> & Hi).
    rewrite list.Forall_forall in Hg, Hw.
    assert (g ∈ groups) as Hin by (by eapply list_elem_of_lookup_2).
    destruct (Hw g Hin) as [Hne _]. specialize (Hg g Hin).
    cbn [file_of_group saved_data saved_size]. split.
    + by destruct g.
    + rewrite Hg at 1. by rewrite sized_snd.
  - apply info_of_groups.
  - done.
  - done.
  - by rewrite length_imap.
Qed.

(** X5.  [SimpleIjsonChunker] on an array of which some element holds a
    non-integer number, at any depth: [json.dumps] refuses the [Decimal]
    ijson made of it and the run ends with a [TypeError], without the final
    chunk and without a summary. *)
Theorem simple_chunker_raises_on_a_decimal
    (input_file : str) (chunk_size_mb : Z) (elements : list json) (file_size : nat) :
  forallb decimal_free elements = false ->
  SimpleIjsonChunker.chunk_file_simple input_file chunk_size_mb
    (Some (JList elements, file_size)) = Raise TypeError.
Proof.
  intros Hall. unfold SimpleIjsonChunker.chunk_file_simple.
  by rewrite items_of_array, simple_loop_raises.
Qed.





(** Nothing is closed as long as the budget holds what was added. *)
Lemma add_all_within_budget records : forall self,
  Z.of_nat (current_chunk_size self + sum_list (records.*2)) <= chunk_size_bytes self ->
  files (add_all self records) = files self /\
  chunks (add_all self records) = chunks self /\
  chunk_index (add_all self records) = chunk_index self /\
  current_chunk (add_all self records) = current_chunk self ++ records.*1 /\
  current_chunk_size (add_all self records)
    = (current_chunk_size self + sum_list (records.*2))%nat.
Proof.
  induction records as [|[v n] records IH]; intros self Hb.
  - cbn. rewrite app_nil_r. split_and!; (done || lia).
  - change (sum_list (((v, n) :: records).*2)) with (n + sum_list (records.*2))%nat in *.
    change (((v, n) :: records).*1) with (v :: records.*1).
    change (add_all self ((v, n) :: records)) with (add_all (add_sized self v n) records).
    assert (must_close self n = false) as Hm.
    { unfold must_close. destruct (Z.gtb_spec (Z.of_nat (current_chunk_size self + n))
                                              (chunk_size_bytes self)); [lia|done]. }
    destruct (IH (add_sized self v n)) as (-> & -> & -> & -> & ->).
    { rewrite chunk_size_bytes_add_sized. unfold add_sized. rewrite Hm.
      cbn [current_chunk_size]. lia. }
    unfold add_sized. rewrite Hm.
    cbn [files chunks chunk_index current_chunk current_chunk_size].
    rewrite <- app_assoc. split_and!; (done || lia).
Qed.

(** X6.  When the compact sizes of all elements together are within the
    budget, [SimpleIjsonChunker] writes a single chunk, numbered 0, that
    holds every element. *)
Theorem simple_chunker_writes_one_chunk_within_budget
    (input_file : str) (chunk_size_mb : Z) (elements : list json) (file_size : nat) :
  forallb decimal_free elements = true ->
  elements <> [] ->
  Z.of_nat (sum_list (compact_size <$> elements)) <= chunk_size_mb * 1024 * 1024 ->
  exists r,
    SimpleIjsonChunker.chunk_file_simple input_file chunk_size_mb
      (Some (JList elements, file_size)) = Ok r /\
    chunk_files r = [{| saved_index := 0; saved_data := elements;
                        saved_size := sum_list (compact_size <$> elements) |}] /\
    totalChunks (summary_file r) = 1%nat.
Proof.
  intros Hall Hne Hb. unfold SimpleIjsonChunker.chunk_file_simple.
  rewrite items_of_array, simple_loop_add_all, bind_Ok by done.
  destruct (add_all_within_budget (sized elements) (init input_file chunk_size_mb))
    as (Hf & Hc & Hi & Hcur & Hs).
  { cbn. by rewrite sized_snd. }
  eexists. split; [done|].
  cbn [chunk_files summary_file _generate_summary totalChunks].
  unfold save_final_chunk. rewrite Hcur, sized_fst. cbn [init current_chunk app].
  destruct elements as [|v l]; [done|].
  cbn [save_current files chunks]. rewrite Hf, Hc, Hi, Hcur, Hs, sized_fst, sized_snd.
  done.
Qed.


End SimpleFacts.


Lemma simple_chunker_writes_every_element_witness :
  exists r,
    SimpleIjsonChunker.chunk_file_simple (lit "conversations.json") 100
      (Some (JList plain_elements, 40%nat)) = Ok r /\
    concat (saved_data <$> chunk_files r) = plain_elements /\
    saved_index <$> chunk_files r = seq 0 (length (chunk_files r)) /\
    Forall (fun f => saved_data f <> [] /\
                     saved_size f = sum_list (compact_size <$> saved_data f))
           (chunk_files r) /\
    returned r = info_of_file <$> chunk_files r /\
    summary_chunks (summary_file r) = returned r /\
    totalConversations (summary_file r) = length plain_elements /\
    totalChunks (summary_file r) = length (chunk_files r).
Proof.
  apply (simple_chunker_writes_every_element (lit "conversations.json") 100
           plain_elements 40%nat).
  reflexivity.
Defined.

Lemma simple_chunker_raises_on_a_decimal_witness :
  SimpleIjsonChunker.chunk_file_simple (lit "conversations.json") 100
    (Some (JList decimal_elements, 13%nat)) = Raise TypeError.
Proof.
  apply (simple_chunker_raises_on_a_decimal (lit "conversations.json") 100
           decimal_elements 13%nat).
  reflexivity.
Defined.

Lemma simple_chunker_writes_one_chunk_within_budget_witness :
  exists r,
    SimpleIjsonChunker.chunk_file_simple (lit "conversations.json") 100
      (Some (JList plain_elements, 40%nat)) = Ok r /\
    chunk_files r = [{| saved_index := 0; saved_data := plain_elements;
                        saved_size := sum_list (compact_size <$> plain_elements) |}] /\
    totalChunks (summary_file r) = 1%nat.
Proof.
  apply (simple_chunker_writes_one_chunk_within_budget (lit "conversations.json") 100
           plain_elements 40%nat).
  - reflexivity.
  - discriminate.
  - vm_compute. discriminate.
Defined.


Section Numbering.

Lemma length_concat_groups {A} (groups : list (list A)) :
  length (concat groups) = sum_list (length <$> groups).
Proof.
  induction groups as [|g groups IH]; [done|].
  cbn [concat fmap list_fmap sum_list sum_list_with]. by rewrite length_app, IH.
Qed.

Lemma conversations_of_groups (groups : list (list (json * nat))) :
  conversations <$> imap info_of_group groups = length <$> groups.
Proof.
  rewrite fmap_imap.
  assert (forall k : nat,
    imap (fun i g => conversations (info_of_group (k + i) g)) groups = length <$> groups)
    as H.
  { induction groups as [|g groups IH]; intros k; [done|].
    cbn [imap fmap list_fmap]. f_equal.
    - cbn. by rewrite length_fmap.
    - rewrite <- (IH (S k)). apply imap_ext. intros i x _. cbn.
      by rewrite !length_fmap. }
  apply (H 0%nat).
Qed.

Lemma numbered_of_groups budget (groups : list (list (json * nat))) (s : summary) :
  Forall (within_budget budget) groups ->
  totalConversations s = length (concat groups) ->
  numbered {| returned := imap info_of_group groups; summary_file := s;
              chunk_files := imap file_of_group groups; skip_messages := [] |}
  /\ forall skips,
     numbered {| returned := imap info_of_group groups; summary_file := s;
                 chunk_files := imap file_of_group groups; skip_messages := skips |}.
Proof.
  intros Hw Ht.
  assert (forall skips,
     numbered {| returned := imap info_of_group groups; summary_file := s;
                 chunk_files := imap file_of_group groups; skip_messages := skips |}) as H.
  { intros skips. unfold numbered. cbn [chunk_files returned summary_file]. split_and!.
    - rewrite length_imap. by apply imap_index_seq.
    - apply list.Forall_forall. intros f Hf.
      apply elem_of_lookup_imap in Hf as (i & g & -> & Hi).
      rewrite list.Forall_forall in Hw.
      destruct (Hw g) as [Hne _]; [by eapply list_elem_of_lookup_2|].
      cbn. by destruct g.
    - apply info_of_groups.
    - by rewrite Ht, conversations_of_groups, length_concat_groups. }
  split; [apply H|exact H].
Qed.

(** X8.  Every run of the scanner that ends normally, whatever the file
    holds: the chunk files are numbered 0, 1, 2, ... in the order they were
    written, none is empty, each returned entry describes the file of the
    same rank, and the total of the summary is the sum of the counts of the
    entries. *)
Theorem scanner_chunks_are_numbered_from_zero
    (json_loads : str -> option json)
    (input_file : str) (chunk_size_mb : Z) (file : str) (file_size : nat) (r : run) :
  LargeJSONChunker.chunk_file json_loads (init input_file chunk_size_mb)
    (Some (file, file_size)) = Ok r ->
  numbered r.
Proof.
  rewrite chunk_file_run. cbv zeta.
  destruct (forallb writable _); [|done]. intros <-%Ok_inj.
  destruct (process_file_self json_loads (init input_file chunk_size_mb) file)
    as (records & _ & Hr).
  rewrite Hr.
  destruct (add_all_run input_file chunk_size_mb records)
    as (groups & Hg & Hf & Hc & Ht & Hw).
  rewrite Hf, Hc, Ht.
  eapply numbered_of_groups; [done|]. cbn. by rewrite Hg.
Qed.

(** X9.  Every run of [LargeJSONChunkerIjson] that ends normally: the
    chunk files are numbered 0, 1, 2, ... in the order they were written,
    and the total of the summary is the sum of the counts of the returned
    entries, each of which describes the file of the same rank. *)
Theorem ijson_chunks_are_numbered_from_zero
    (input_file : str) (chunk_size_mb : Z) (document : json) (file_size : nat)
    (r : run) :
  LargeJSONChunkerIjson.chunk_file (init input_file chunk_size_mb)
    (Some (document, file_size)) = Ok r ->
  numbered r.
Proof.
  unfold LargeJSONChunkerIjson.chunk_file,
    LargeJSONChunkerIjson._process_file_with_ijson.
  destruct (LargeJSONChunkerIjson.event_loop _ _) as [st|e] eqn:Hloop; [|done].
  rewrite !bind_Ok. intros <-%Ok_inj.
  apply event_loop_add_all in Hloop as (records & _ & Hr).
  cbn [LargeJSONChunkerIjson.self] in Hr. rewrite Hr.
  destruct (add_all_run input_file chunk_size_mb records)
    as (groups & Hg & Hf & Hc & Ht & Hw).
  rewrite Hf, Hc, Ht.
  eapply numbered_of_groups; [done|]. cbn. by rewrite Hg.
Qed.

End Numbering.

Lemma ijson_chunks_are_numbered_from_zero_witness : numbered sample_run.
Proof.
  apply (ijson_chunks_are_numbered_from_zero (lit "conversations.json") 0
           sample_document 33%nat sample_run).
  reflexivity.
Defined.

Lemma scanner_chunks_are_numbered_from_zero_witness :
  exists r, scan malformed_input = Ok r /\ numbered r.
Proof.
  eexists. split; [vm_compute; reflexivity|].
  apply (scanner_chunks_are_numbered_from_zero PyJson.json_loads
           (lit "conversations.json") 100 malformed_input (encoded_len malformed_input)).
  vm_compute. reflexivity.
Defined.

Section AdvancedFacts.

Import LargeJSONChunkerIjson.

(** X10.  [_add_conversation_to_chunk] of [LargeJSONChunkerIjson] raises a
    [TypeError] exactly when the record holds a non-integer number, at any
    depth; otherwise it adds the record with the length in bytes of its
    compact serialization. *)
Theorem add_conversation_raises_exactly_on_a_decimal
    (self : chunker) (conversation : json) :
  if decimal_free conversation
  then exists s, json_dumps conversation = Ok s /\
                 _add_conversation_to_chunk self conversation
                 = Ok (add_sized self conversation (encoded_len s))
  else _add_conversation_to_chunk self conversation = Raise TypeError.
Proof.
  pose proof (json_dumps_decimal_free conversation) as H.
  unfold _add_conversation_to_chunk.
  destruct (decimal_free conversation).
  - destruct H as [s Hs]. exists s. by rewrite Hs.
  - by rewrite H.
Qed.

Lemma dict_get_set_same d k v : dict_get (dict_set d k v) k = Some v.
Proof. by rewrite dict_get_set, str_eqb_refl. Qed.

Lemma split_on_nonempty c (s : str) : split_on c s <> [].
Proof.
  induction s as [|x s IH]; [done|]. cbn [split_on].
  destruct (char_eqb x c); [done|]. by destruct (split_on c s).
Qed.

Lemma set_keys_get value keys : forall obj obj',
  keys <> [] ->
  Forall (fun key => isdigit key = false) keys ->
  set_keys obj keys value = Ok obj' ->
  get_keys obj' keys = Some value.
Proof.
  induction keys as [|key keys IH]; intros obj obj' Hne Hkeys; [done|].
  apply Forall_cons_1 in Hkeys as [Hkey Hkeys].
  destruct keys as [|key' keys].
  - cbn [set_keys get_keys]. rewrite Hkey.
    destruct obj as [| | | | | | |d]; try done.
    intros <-%Ok_inj. by rewrite dict_get_set_same.
  - rewrite set_keys_segment. unfold segment_step. rewrite Hkey.
    destruct obj as [| | | | | | |d]; try done.
    destruct (set_keys _ (key' :: keys) value) as [next'|e] eqn:Hnext; [|done].
    rewrite bind_Ok. intros <-%Ok_inj.
    cbn [get_keys]. rewrite dict_get_set_same. cbn.
    by eapply IH.
Qed.

(** X11.  A value stored by [_set_nested_value] under a path without a
    numeric segment is found again by following the segments of the path
    through the nested dictionaries. *)
Theorem value_set_under_a_path_is_found (obj obj' : json) (path : str) (value : json) :
  path <> [] ->
  Forall (fun key => isdigit key = false) (split_on (chr ".") path) ->
  _set_nested_value obj path value = Ok obj' ->
  get_keys obj' (split_on (chr ".") path) = Some value.
Proof.
  intros Hpath Hkeys. unfold _set_nested_value. destruct path as [|c path]; [done|].
  apply set_keys_get; [apply split_on_nonempty|done].
Qed.

(** *** The events inside one element *)

Lemma int_of_str_raises (s : str) e : int_of_str s = Raise e -> e = ValueError.
Proof.
  unfold int_of_str. destruct s; [by intros [= <-]|].
  destruct (_ && _); [done|]. by intros [= <-].
Qed.

Lemma set_keys_raises value keys : forall current e,
  set_keys current keys value = Raise e -> raised_by_loop e.
Proof.
  induction keys as [|key keys IH]; intros current e; [done|].
  rewrite set_keys_segment. unfold segment_step.
  destruct (isdigit key).
  - destruct (int_of_str key) as [n|e'] eqn:Hint.
    + rewrite bind_Ok. destruct current, keys; try done.
      destruct (set_keys _ _ _) eqn:Hs; [done|]. cbn. intros [= <-]. by eapply IH.
    + cbn. intros [= <-]. right. by eapply int_of_str_raises.
  - destruct current, keys; try done; try (by intros [= <-]; left).
    destruct (set_keys _ _ _) eqn:Hs; [done|]. cbn. intros [= <-]. by eapply IH.
Qed.

Lemma set_nested_value_raises obj path value e :
  _set_nested_value obj path value = Raise e -> raised_by_loop e.
Proof.
  unfold _set_nested_value. destruct path; [done|]. apply set_keys_raises.
Qed.

Lemma build_raises obj p n v e :
  _build_object_from_ijson_event obj p n v = Raise e -> raised_by_loop e.
Proof.
  unfold _build_object_from_ijson_event.
  repeat (match goal with
          | |- context [if ?b then _ else _] => destruct b
          | |- context [match ?x with [] => _ | _ :: _ => _ end] => destruct x
          end); try done; apply set_nested_value_raises.
Qed.

Lemma add_conversation_raises_TypeError self0 conversation e :
  _add_conversation_to_chunk self0 conversation = Raise e -> e = TypeError.
Proof.
  pose proof (json_dumps_decimal_free conversation) as H.
  unfold _add_conversation_to_chunk.
  destruct (decimal_free conversation).
  - destruct H as [s ->]. done.
  - rewrite H. by intros [= <-].
Qed.

(** The only exceptions the event loop can end with. *)
Lemma event_loop_raises evs : forall st e,
  event_loop evs st = Raise e -> raised_by_loop e.
Proof.
  induction evs as [|ev evs IH]; intros st e; [done|].
  cbn [event_loop].
  repeat (match goal with |- context [if ?b then _ else _] => destruct b end);
    try done; try apply IH.
  - destruct (_add_conversation_to_chunk _ _) eqn:Ha.
    + rewrite bind_Ok. apply IH.
    + cbn. intros [= <-]. left. by eapply add_conversation_raises_TypeError.
  - destruct (_build_object_from_ijson_event _ _ _ _) eqn:Hb.
    + rewrite bind_Ok. apply IH.
    + cbn. intros [= <-]. by eapply build_raises.
Qed.

Lemma dot_free_cons c k :
  dot_free (c :: k) = true <-> char_eqb c (chr ".") = false /\ dot_free k = true.
Proof. unfold dot_free. cbn [forallb]. by rewrite andb_true_iff, negb_true_iff. Qed.

Lemma startswith_prefix (p : str) : forall s : str,
  startswith s p = true -> exists r : str, s = p ++ r.
Proof.
  induction p as [|y p IH]; intros s Hs; [by exists s|].
  destruct s as [|x s]; [done|]. cbn [startswith] in Hs.
  apply andb_prop in Hs as [Hx Hs]. apply char_eqb_eq in Hx as ->.
  destruct (IH s Hs) as [r ->]. by exists r.
Qed.

Lemma startswith_item_dot (s : str) :
  startswith s (lit "item.") = true -> dot_free s = false.
Proof.
  intros [r ->]%startswith_prefix. unfold dot_free. by rewrite forallb_app.
Qed.

Lemma dot_free_no_item (s : str) : dot_free s = true -> occurs (lit "item.") s = false.
Proof.
  induction s as [|c s IH]; intros Hs; [done|].
  cbn [occurs]. apply orb_false_iff. split.
  - destruct (startswith (c :: s) (lit "item.")) eqn:E; [|done].
    apply startswith_item_dot in E. congruence.
  - apply dot_free_cons in Hs as [_ Hs]. by apply IH.
Qed.

Lemma remove_all_fuel_absent (old : str) fuel : forall s : str,
  occurs old s = false -> remove_all_fuel fuel old s = s.
Proof.
  induction fuel as [|fuel IH]; intros s Hs; [done|].
  destruct s as [|x s]; [done|].
  cbn [occurs] in Hs. apply orb_false_iff in Hs as [Hs1 Hs2].
  cbn [remove_all_fuel]. rewrite Hs1. f_equal. by apply IH.
Qed.

Lemma startswith_app (old s : str) : startswith (old ++ s) old = true.
Proof.
  induction old as [|c old IH]; [by destruct s|].
  cbn [app startswith]. unfold char_eqb. by rewrite N.eqb_refl, IH.
Qed.

Lemma remove_all_item_prefix (s : str) :
  occurs (lit "item.") s = false ->
  remove_all (lit "item.") (lit "item." ++ s) = s.
Proof.
  intros Hs. unfold remove_all.
  change (length (lit "item." ++ s)) with (S (4 + length s)).
  cbn [remove_all_fuel].
  change (lit "item." ++ s)
    with (N_of_ascii "i" :: (lit "tem." ++ s)) at 1. cbv iota.
  rewrite startswith_app.
  change (length (lit "item.")) with 5%nat.
  change (drop 5 (lit "item." ++ s)) with s.
  by apply remove_all_fuel_absent.
Qed.

Lemma split_on_dot_free (k : str) : dot_free k = true -> split_on (chr ".") k = [k].
Proof.
  induction k as [|c k IH]; intros Hk; [done|].
  apply dot_free_cons in Hk as [Hc Hk].
  cbn [split_on]. rewrite Hc, (IH Hk). done.
Qed.

Lemma split_on_app_dot (k s : str) :
  dot_free k = true ->
  split_on (chr ".") (k ++ chr "." :: s) = k :: split_on (chr ".") s.
Proof.
  induction k as [|c k IH]; intros Hk.
  - cbn [app split_on]. unfold char_eqb. by rewrite N.eqb_refl.
  - apply dot_free_cons in Hk as [Hc Hk].
    cbn [app split_on]. rewrite Hc, (IH Hk). done.
Qed.

Lemma count_char_app (a b : str) c :
  count_char (a ++ b) c = (count_char a c + count_char b c)%nat.
Proof. unfold count_char, str, char. by rewrite list.filter_app, length_app. Qed.

Lemma not_top_under_item (s : str) :
  (count_char (lit "item." ++ s) (chr ".") =? 0)%nat = false.
Proof.
  rewrite count_char_app. apply Nat.eqb_neq.
  change (count_char (lit "item.") (chr ".")) with 1%nat. lia.
Qed.

Lemma event_loop_inner e rest st :
  in_array st = true -> inner e ->
  event_loop (e :: rest) st
  = obj ← _build_object_from_ijson_event (current_object st) (prefix e) (name e) (value e);
    event_loop rest {| current_object := obj; in_array := in_array st; self := self st |}.
Proof.
  intros Ha [Hp Hi]. cbn [event_loop]. rewrite Ha.
  destruct (prefix e) as [|c p] eqn:Ep; [done|]. cbn [andb].
  destruct Hi as [Htop|[Hs He]].
  - rewrite Htop, !andb_false_r. done.
  - destruct (name e); try done.
Qed.

Lemma child_under (p segment : str) :
  p <> [] -> Ijson.child p segment = p ++ lit "." ++ segment.
Proof. by destruct p. Qed.

Lemma count_char_child (p segment : str) :
  p <> [] ->
  (count_char (Ijson.child p segment) (chr ".") =? 0)%nat = false.
Proof.
  intros Hp. rewrite child_under by done. rewrite !count_char_app.
  apply Nat.eqb_neq. change (count_char (lit ".") (chr ".")) with 1%nat. lia.
Qed.

(** Below a prefix that holds a dot, every event is an inner one. *)
Lemma events_inner v : forall p : str,
  p <> [] -> (count_char p (chr ".") =? 0)%nat = false ->
  Forall inner (Ijson.events p v).
Proof.
  induction v as [| | | | | |l IH|d IH] using json_ind; intros p Hp Hdots;
    cbn [Ijson.events];
    try (by constructor; [split; [done|by left]|constructor]).
  - constructor; [by split; [|left]|].
    apply Forall_app. split; [|by constructor; [split; [done|by left]|constructor]].
    induction IH as [|x l Hx _ IHl]; [done|]. cbn [flat_map].
    apply Forall_app. split; [|done].
    apply Hx; [by apply child_not_root|by apply count_char_child].
  - constructor; [by split; [|left]|].
    apply Forall_app. split; [|by constructor; [split; [done|by left]|constructor]].
    induction IH as [|kv d Hkv _ IHd]; [done|]. cbn [flat_map].
    constructor; [by split; [|left]|].
    apply Forall_app. split; [|done].
    apply Hkv; [by apply child_not_root|by apply count_char_child].
Qed.

Lemma member_events_inner kv : Forall inner (member_events kv).
Proof.
  unfold member_events. constructor.
  - split; [done|]. right. done.
  - apply events_inner; [done|]. apply (not_top_under_item kv.1).
Qed.

Lemma set_keys_keeps_dict value keys : forall d r,
  set_keys (JDict d) keys value = Ok r -> exists d', r = JDict d'.
Proof.
  intros d r. destruct keys as [|key keys]; [intros [= <-]; by eexists|].
  rewrite set_keys_segment. unfold segment_step.
  destruct (isdigit key).
  - destruct (int_of_str key); [|done]. rewrite bind_Ok.
    destruct keys; intros [= <-]; by eexists.
  - destruct keys; try (intros [= <-]; by eexists).
    destruct (set_keys _ _ _); [|done]. intros [= <-]. by eexists.
Qed.

Lemma build_keeps_dict d p n v r :
  _build_object_from_ijson_event (JDict d) p n v = Ok r -> exists d', r = JDict d'.
Proof.
  unfold _build_object_from_ijson_event, _set_nested_value.
  repeat (match goal with
          | |- context [if ?b then _ else _] => destruct b
          | |- context [match ?x with [] => _ | _ :: _ => _ end] => destruct x
          end); try (intros [= <-]; by eexists); apply set_keys_keeps_dict.
Qed.

(** Inner events either raise or leave a dictionary in [current_object],
    and touch nothing else. *)
Lemma inner_events_keep_dict evs : forall rest st d,
  Forall inner evs -> in_array st = true -> current_object st = JDict d ->
  (exists e, event_loop (evs ++ rest) st = Raise e /\ raised_by_loop e) \/
  exists d', event_loop (evs ++ rest) st
             = event_loop rest {| current_object := JDict d'; in_array := true;
                                  self := self st |}.
Proof.
  induction evs as [|e evs IH]; intros rest st d Hall Ha Hc.
  - right. exists d. destruct st. cbn in *. by subst.
  - apply Forall_cons_1 in Hall as [He Hall].
    cbn [app]. rewrite event_loop_inner by done. rewrite Hc.
    destruct (_build_object_from_ijson_event _ _ _ _) as [obj|e'] eqn:Hb.
    + rewrite bind_Ok. apply build_keeps_dict in Hb as [d' ->].
      rewrite Ha.
      destruct (IH rest {| current_object := JDict d'; in_array := true;
                           self := self st |} d' Hall eq_refl eq_refl) as [H|[d'' H]];
        [by left|right; by exists d''].
    + left. exists e'. split; [done|]. by eapply build_raises.
Qed.

(** *** A record that holds a non-empty array *)

Lemma parse_array (l : list json) :
  Ijson.parse (JList l)
  = {| prefix := []; name := start_array; value := JNull |}
    :: flat_map (Ijson.events (lit "item")) l
    ++ [{| prefix := []; name := end_array; value := JNull |}].
Proof. reflexivity. Qed.

Lemma events_of_element (d : list (str * json)) :
  Ijson.events (lit "item") (JDict d)
  = {| prefix := lit "item"; name := start_map; value := JNull |}
    :: flat_map member_events d
    ++ [{| prefix := lit "item"; name := end_map; value := JNull |}].
Proof. reflexivity. Qed.

Lemma first_event (p : str) x :
  exists n v evs,
    Ijson.events p x = {| prefix := p; name := n; value := v |} :: evs /\
    (is_scalar_event n = true \/ n = start_map \/ n = start_array).
Proof.
  destruct x; cbn [Ijson.events]; do 3 eexists; (split; [reflexivity|]); cbn; auto.
Qed.

Lemma good_key_spec k :
  good_key k = true -> k <> [] /\ dot_free k = true /\ isdigit k = false.
Proof.
  unfold good_key. rewrite !andb_true_iff, negb_true_iff.
  intros [[Hne Hdot] Hdig]. by destruct k.
Qed.

Lemma set_nested_value_nonempty obj (path : str) value :
  path <> [] ->
  _set_nested_value obj path value = set_keys obj (split_on (chr ".") path) value.
Proof. by destruct path. Qed.

Lemma set_nested_value_or_nothing obj (path : str) value :
  match path with
  | [] => Ok obj
  | _ :: _ => _set_nested_value obj path value
  end = _set_nested_value obj path value.
Proof. by destruct path. Qed.

Lemma set_under_array_raises d (k : str) value :
  good_key k = true ->
  _set_nested_value (JDict (dict_set d k (JList []))) (k ++ lit ".item") value
  = Raise TypeError.
Proof.
  intros (Hne & Hdot & Hdig)%good_key_spec.
  rewrite set_nested_value_nonempty by (by destruct k).
  change (lit ".item") with (chr "." :: lit "item").
  rewrite split_on_app_dot by done.
  change (split_on (chr ".") (lit "item")) with [lit "item"].
  rewrite set_keys_segment. unfold segment_step. rewrite Hdig.
  rewrite dict_get_set_same. cbn [default from_option id]. reflexivity.
Qed.

Lemma build_under_array_raises d (k : str) n v :
  array_key k = true ->
  is_scalar_event n = true \/ n = start_map \/ n = start_array ->
  _build_object_from_ijson_event (JDict (dict_set d k (JList [])))
    (lit "item." ++ k ++ lit ".item") n v = Raise TypeError.
Proof.
  unfold array_key. rewrite andb_true_iff, negb_true_iff. intros [Hk Hocc] Hn.
  unfold _build_object_from_ijson_event.
  rewrite startswith_app, orb_true_r, remove_all_item_prefix by done.
  rewrite !set_nested_value_or_nothing.
  destruct Hn as [Hs|[->| ->]].
  - rewrite Hs. by apply set_under_array_raises.
  - cbn [is_scalar_event event_name_eqb]. by apply set_under_array_raises.
  - cbn [is_scalar_event event_name_eqb]. by apply set_under_array_raises.
Qed.

Lemma build_array_start d (k : str) :
  good_key k = true ->
  _build_object_from_ijson_event (JDict d) (lit "item." ++ k) start_array JNull
  = Ok (JDict (dict_set d k (JList []))).
Proof.
  intros (Hne & Hdot & Hdig)%good_key_spec.
  unfold _build_object_from_ijson_event.
  rewrite startswith_app, orb_true_r, remove_all_item_prefix by (by apply dot_free_no_item).
  cbn [is_scalar_event event_name_eqb].
  rewrite set_nested_value_or_nothing, set_nested_value_nonempty by done.
  rewrite split_on_dot_free by done. cbn [set_keys]. by rewrite Hdig.
Qed.

(** The events of a member that is a non-empty array under a key without
    a dot end the loop with a [TypeError]. *)
Lemma array_member_raises k x l rest st d :
  array_key k = true ->
  in_array st = true -> current_object st = JDict d ->
  event_loop (member_events (k, JList (x :: l)) ++ rest) st = Raise TypeError.
Proof.
  intros Hk Ha Hc. pose proof Hk as [Hgood _]%andb_prop.
  unfold member_events. cbn [fst snd Ijson.events app flat_map].
  rewrite event_loop_inner; [|done|by split; [|right]].
  cbn [prefix name value]. rewrite Hc.
  change (_build_object_from_ijson_event (JDict d) (lit "item") map_key (JStr k))
    with (Ok (JDict d)).
  rewrite bind_Ok.
  change (Ijson.child (lit "item") k) with (lit "item." ++ k).
  rewrite event_loop_inner; [|done|by split; [|left; apply not_top_under_item]].
  cbn [prefix name value current_object in_array self].
  rewrite build_array_start, bind_Ok by done.
  destruct (first_event (Ijson.child (lit "item." ++ k) (lit "item")) x)
    as (n & v & evs & -> & Hn).
  cbn [app].
  rewrite event_loop_inner; [|done|].
  - cbn [prefix name value current_object in_array self].
    rewrite child_under by done. rewrite <- app_assoc.
    change (lit "." ++ lit "item") with (lit ".item").
    by rewrite build_under_array_raises.
  - split; [by apply child_not_root|]. left. by apply count_char_child.
Qed.

(** *** Flat objects *)

Lemma build_at_end d (p : str) n v :
  n = end_map \/ n = end_array \/ n = map_key ->
  _build_object_from_ijson_event (JDict d) p n v = Ok (JDict d).
Proof.
  intros Hn. unfold _build_object_from_ijson_event.
  destruct Hn as [->|[->| ->]]; cbn [is_scalar_event event_name_eqb];
    by destruct (_ || _).
Qed.

Lemma build_scalar d (k : str) n v :
  good_key k = true -> is_scalar_event n = true ->
  _build_object_from_ijson_event (JDict d) (lit "item." ++ k) n v
  = Ok (JDict (dict_set d k v)).
Proof.
  intros (Hne & Hdot & Hdig)%good_key_spec Hn.
  unfold _build_object_from_ijson_event.
  rewrite startswith_app, orb_true_r, remove_all_item_prefix by (by apply dot_free_no_item).
  rewrite Hn, set_nested_value_nonempty by done.
  rewrite split_on_dot_free by done. cbn [set_keys]. by rewrite Hdig.
Qed.

Lemma build_map_start d (k : str) :
  good_key k = true ->
  _build_object_from_ijson_event (JDict d) (lit "item." ++ k) start_map JNull
  = Ok (JDict (dict_set d k (JDict []))).
Proof.
  intros (Hne & Hdot & Hdig)%good_key_spec.
  unfold _build_object_from_ijson_event.
  rewrite startswith_app, orb_true_r, remove_all_item_prefix by (by apply dot_free_no_item).
  cbn [is_scalar_event event_name_eqb].
  rewrite set_nested_value_or_nothing, set_nested_value_nonempty by done.
  rewrite split_on_dot_free by done. cbn [set_keys]. by rewrite Hdig.
Qed.

Lemma inner_under_item (k : str) n v :
  inner {| prefix := lit "item." ++ k; name := n; value := v |}.
Proof. split; [done|]. left. apply not_top_under_item. Qed.

Lemma plain_key_spec k :
  plain_key k = true ->
  dot_free k = true /\ (isdigit k = true -> exists n, int_of_str k = Ok n).
Proof.
  unfold plain_key. intros [Hdot Hint]%andb_prop. split; [done|].
  intros Hdig. rewrite Hdig in Hint. cbn [negb orb] in Hint.
  destruct (int_of_str k) as [n|]; [by exists n|done].
Qed.

Lemma set_dropped d (k : str) value :
  plain_key k = true -> good_key k = false ->
  _set_nested_value (JDict d) k value = Ok (JDict d).
Proof.
  intros [Hdot Hint]%plain_key_spec Hk.
  assert (k = [] \/ (k <> [] /\ isdigit k = true)) as [->|[Hne Hdig]].
  { unfold good_key in Hk. rewrite Hdot in Hk.
    destruct k; [by left|right]. cbn [andb] in Hk.
    by apply negb_false_iff in Hk. }
  - done.
  - rewrite set_nested_value_nonempty by done.
    rewrite split_on_dot_free by done. cbn [set_keys].
    destruct (Hint Hdig) as [n Hn]. by rewrite Hdig, Hn.
Qed.

(** Under a key that is empty or a number nothing is stored. *)
Lemma build_dropped d (k : str) n v :
  plain_key k = true -> good_key k = false ->
  _build_object_from_ijson_event (JDict d) (lit "item." ++ k) n v = Ok (JDict d).
Proof.
  intros Hplain Hk. pose proof Hplain as [Hdot _]%plain_key_spec.
  unfold _build_object_from_ijson_event.
  rewrite startswith_app, orb_true_r, remove_all_item_prefix by (by apply dot_free_no_item).
  rewrite !set_nested_value_or_nothing, !set_dropped by done.
  by repeat (match goal with |- context [if ?b then _ else _] => destruct b end).
Qed.

(** The events of a member with a flat value store the value under its
    key if the key is a good one, and nothing otherwise. *)
Lemma flat_member_events (k : str) v d rest st :
  plain_key k = true -> flat_value v = true ->
  in_array st = true -> current_object st = JDict d ->
  event_loop (member_events (k, v) ++ rest) st
  = event_loop rest
      {| current_object := JDict (if good_key k then dict_set d k v else d);
         in_array := true; self := self st |}.
Proof.
  intros Hdot Hv Ha Hc. unfold member_events. cbn [fst snd app].
  rewrite event_loop_inner; [|done|by split; [|right]].
  cbn [prefix name value]. rewrite Hc, build_at_end, bind_Ok by auto.
  change (Ijson.child (lit "item") k) with (lit "item." ++ k). rewrite Ha.
  destruct (good_key k) eqn:Hk.
  - destruct v as [| | | | | |[|x l]|[|kv d']]; try done; cbn [Ijson.events app flat_map];
      rewrite event_loop_inner by (done || apply inner_under_item);
      cbn [prefix name value current_object in_array self];
      rewrite ?build_scalar, ?build_array_start, ?build_map_start, ?bind_Ok by done;
      try reflexivity;
      rewrite event_loop_inner by (done || apply inner_under_item);
      cbn [prefix name value current_object in_array self];
      by rewrite build_at_end, bind_Ok by auto.
  - destruct v as [| | | | | |[|x l]|[|kv d']]; try done; cbn [Ijson.events app flat_map];
      rewrite event_loop_inner by (done || apply inner_under_item);
      cbn [prefix name value current_object in_array self];
      rewrite build_dropped, bind_Ok by done;
      try reflexivity;
      rewrite event_loop_inner by (done || apply inner_under_item);
      cbn [prefix name value current_object in_array self];
      by rewrite build_dropped, bind_Ok by done.
Qed.

Lemma event_loop_root_start v rest st :
  event_loop ({| prefix := []; name := start_array; value := v |} :: rest) st
  = event_loop rest {| current_object := current_object st; in_array := true;
                       self := self st |}.
Proof. reflexivity. Qed.

Lemma event_loop_element_start v rest st :
  in_array st = true ->
  event_loop ({| prefix := lit "item"; name := start_map; value := v |} :: rest) st
  = event_loop rest {| current_object := JDict []; in_array := true; self := self st |}.
Proof. intros Ha. cbn [event_loop prefix name]. rewrite Ha. reflexivity. Qed.

Lemma flat_map_events_below_root (l : list json) :
  Forall below_root (flat_map (Ijson.events (lit "item")) l).
Proof.
  induction l as [|x l IH]; [done|]. cbn [flat_map].
  apply Forall_app. split; [by apply events_below_root|done].
Qed.

Lemma flat_map_member_events_inner d : Forall inner (flat_map member_events d).
Proof.
  induction d as [|kv d IH]; [done|]. cbn [flat_map].
  apply Forall_app. split; [apply member_events_inner|done].
Qed.

(** X12.  [LargeJSONChunkerIjson] cannot take a record that holds a
    non-empty array: whenever some object of the source array has a member
    whose value is a non-empty array, under a key that is not empty, holds
    no dot, is not a number and does not end in [item], the run ends with
    an exception, a [TypeError] or a [ValueError], whatever the other
    members and the other elements are. *)
Theorem record_with_a_nonempty_array_raises
    (input_file : str) (chunk_size_mb : Z) (file_size : nat)
    (before after : list json) (members_before members_after : list (str * json))
    (k : str) (x : json) (l : list json) :
  array_key k = true ->
  exists e,
    LargeJSONChunkerIjson.chunk_file (init input_file chunk_size_mb)
      (Some (JList (before
                    ++ JDict (members_before ++ (k, JList (x :: l)) :: members_after)
                    :: after),
             file_size))
    = Raise e /\
    (e = TypeError \/ e = ValueError).
Proof.
  intros Hk. unfold chunk_file, _process_file_with_ijson.
  rewrite parse_array, event_loop_root_start.
  rewrite flat_map_app. cbn [flat_map]. rewrite <- !app_assoc.
  rewrite event_loop_below_root_app by apply flat_map_events_below_root.
  destruct (event_loop (flat_map _ before) _) as [st1|e] eqn:Hbefore.
  - apply event_loop_below_root_in_array in Hbefore as Ha;
      [|apply flat_map_events_below_root]. cbn [in_array] in Ha.
    rewrite bind_Ok, events_of_element. cbn [app].
    rewrite event_loop_element_start by done.
    rewrite flat_map_app. cbn [flat_map]. rewrite <- !app_assoc.
    match goal with
    | |- context [event_loop (flat_map member_events members_before ++ ?rest) ?st] =>
        destruct (inner_events_keep_dict (flat_map member_events members_before)
                    rest st []) as [(e & -> & He)|[d' ->]];
          [apply flat_map_member_events_inner|done|done|by exists e|]
    end.
    rewrite (array_member_raises k x l _ _ d') by done.
    exists TypeError. split; [done|by left].
  - exists e. split; [done|]. by eapply event_loop_raises.
Qed.

Lemma dict_set_fresh d (k : str) v :
  dict_get d k = None -> dict_set d k v = d ++ [(k, v)].
Proof.
  induction d as [|[k' v'] d IH]; [done|]. cbn [dict_get dict_set app].
  destruct (str_eqb k' k); [done|]. intros H. by rewrite IH.
Qed.

Lemma dict_get_app d1 d2 (k : str) :
  dict_get (d1 ++ d2) k
  = match dict_get d1 k with Some v => Some v | None => dict_get d2 k end.
Proof.
  induction d1 as [|[k' v'] d1 IH]; [done|]. cbn [dict_get app].
  by destruct (str_eqb k' k).
Qed.

Lemma distinct_keys_middle d1 (k : str) v d2 :
  distinct_keys (d1 ++ (k, v) :: d2) = true -> dict_get d1 k = None.
Proof.
  induction d1 as [|[k1 v1] d1 IH]; [done|]. cbn [app distinct_keys dict_get].
  intros [Hk1 Hd]%andb_prop. apply negb_true_iff in Hk1.
  destruct (str_eqb k1 k) eqn:E; [|by apply IH].
  apply str_eqb_eq in E as ->. unfold dict_mem in Hk1.
  rewrite dict_get_app in Hk1. cbn [dict_get] in Hk1. rewrite str_eqb_refl in Hk1.
  by destruct (dict_get d1 k).
Qed.

Lemma distinct_keys_without d1 kv d2 :
  distinct_keys (d1 ++ kv :: d2) = true -> distinct_keys (d1 ++ d2) = true.
Proof.
  induction d1 as [|[k1 v1] d1 IH]; cbn [app distinct_keys].
  - destruct kv. by intros [_ ?]%andb_prop.
  - intros [Hk1 Hd]%andb_prop. rewrite (IH Hd), andb_true_r.
    apply negb_true_iff in Hk1. apply negb_true_iff.
    unfold dict_mem in *. rewrite dict_get_app in *.
    destruct (dict_get d1 k1); [done|]. destruct kv as [k v]. cbn [dict_get] in Hk1.
    by destruct (str_eqb k k1).
Qed.

Lemma fold_rebuilt d2 : forall d1,
  distinct_keys (d1 ++ d2) = true ->
  fold_left (fun acc kv => if good_key kv.1 then dict_set acc kv.1 kv.2 else acc) d2 d1
  = d1 ++ rebuilt d2.
Proof.
  unfold rebuilt.
  induction d2 as [|[k v] d2 IH]; intros d1 Hd; [by rewrite app_nil_r|].
  cbn [fold_left fst snd List.filter]. destruct (good_key k).
  - rewrite dict_set_fresh by (by eapply distinct_keys_middle).
    rewrite IH by (by rewrite <- app_assoc). by rewrite <- app_assoc.
  - apply IH. by eapply distinct_keys_without.
Qed.

Lemma flat_members d2 : forall d1 rest st,
  forallb (fun kv => plain_key kv.1 && flat_value kv.2) d2 = true ->
  in_array st = true -> current_object st = JDict d1 ->
  event_loop (flat_map member_events d2 ++ rest) st
  = event_loop rest
      {| current_object :=
           JDict (fold_left (fun acc kv =>
                               if good_key kv.1 then dict_set acc kv.1 kv.2 else acc)
                            d2 d1);
         in_array := true; self := self st |}.
Proof.
  induction d2 as [|[k v] d2 IH]; intros d1 rest st Hall Ha Hc.
  - cbn. destruct st. cbn in *. by subst.
  - cbn [forallb fst snd] in Hall.
    apply andb_prop in Hall as [[Hk Hv]%andb_prop Hall].
    cbn [flat_map fold_left fst snd]. rewrite <- app_assoc.
    rewrite (flat_member_events k v d1) by done.
    by rewrite (IH (if good_key k then dict_set d1 k v else d1)).
Qed.

Lemma event_loop_element_end v rest st :
  in_array st = true ->
  event_loop ({| prefix := lit "item"; name := end_map; value := v |} :: rest) st
  = self' ← (if truthy (current_object st)
             then _add_conversation_to_chunk (self st) (current_object st)
             else Ok (self st));
    event_loop rest {| current_object := JDict []; in_array := true; self := self' |}.
Proof. intros Ha. cbn [event_loop prefix name]. rewrite Ha. reflexivity. Qed.

(** The events of a flat object rebuild its members with a good key; the
    result is handed to the assembler unless it is empty. *)
Lemma flat_element_events d rest st :
  flat_object d = true -> in_array st = true ->
  event_loop (Ijson.events (lit "item") (JDict d) ++ rest) st
  = self' ← (if nonempty_object (rebuilt d)
             then _add_conversation_to_chunk (self st) (JDict (rebuilt d))
             else Ok (self st));
    event_loop rest {| current_object := JDict []; in_array := true; self := self' |}.
Proof.
  intros [Hall Hd]%andb_prop Ha.
  rewrite events_of_element. cbn [app].
  rewrite event_loop_element_start by done. rewrite <- app_assoc.
  rewrite (flat_members d []) by done.
  rewrite fold_rebuilt by done. cbn [app].
  rewrite event_loop_element_end by done.
  cbn [current_object self]. by destruct (rebuilt d).
Qed.

Lemma flat_elements elements : forall rest st,
  Forall (fun d => flat_object d = true) elements ->
  in_array st = true -> current_object st = JDict [] ->
  event_loop (flat_map (Ijson.events (lit "item")) (JDict <$> elements) ++ rest) st
  = self' ← SimpleIjsonChunker.loop
              (JDict <$> List.filter nonempty_object (rebuilt <$> elements)) (self st);
    event_loop rest {| current_object := JDict []; in_array := true; self := self' |}.
Proof.
  induction elements as [|d elements IH]; intros rest st Hall Ha Hc.
  - cbn. destruct st. cbn in *. by subst.
  - apply Forall_cons_1 in Hall as [Hd Hall].
    cbn [fmap list_fmap flat_map List.filter]. rewrite <- app_assoc.
    rewrite flat_element_events by done.
    destruct (nonempty_object (rebuilt d)).
    + cbn [fmap list_fmap SimpleIjsonChunker.loop].
      unfold SimpleIjsonChunker.step at 1.
      change (conversation_str ← json_dumps (JDict (rebuilt d));
              Ok (add_sized (self st) (JDict (rebuilt d)) (encoded_len conversation_str)))
        with (_add_conversation_to_chunk (self st) (JDict (rebuilt d))).
      destruct (_add_conversation_to_chunk (self st) (JDict (rebuilt d)))
        as [self1|e]; [|done].
      rewrite !bind_Ok. by rewrite IH.
    + rewrite bind_Ok. by rewrite IH.
Qed.

(** X13.  On an array of flat objects (distinct keys without a dot, which
    [int] reads when they are numbers; values that are scalars or empty
    containers) [LargeJSONChunkerIjson] rebuilds of every object the
    members whose key is not empty and not a number, as they are and in
    their order, and drops the other members without a message: the run is
    the run of [SimpleIjsonChunker] on the array of the objects so rebuilt,
    without those that are left empty. *)
Theorem flat_objects_are_rebuilt_from_their_good_keys
    (input_file : str) (chunk_size_mb : Z) (file_size : nat)
    (elements : list (list (str * json))) :
  Forall (fun d => flat_object d = true) elements ->
  LargeJSONChunkerIjson.chunk_file (init input_file chunk_size_mb)
    (Some (array_of_objects elements, file_size))
  = SimpleIjsonChunker.chunk_file_simple input_file chunk_size_mb
      (Some (JList (JDict <$> List.filter nonempty_object (rebuilt <$> elements)),
             file_size)).
Proof.
  intros Hall. unfold chunk_file, _process_file_with_ijson,
    SimpleIjsonChunker.chunk_file_simple, array_of_objects.
  rewrite parse_array, event_loop_root_start, items_of_array.
  rewrite flat_elements by done. cbn [self].
  destruct (SimpleIjsonChunker.loop _ _) as [locals|e]; [|done].
  reflexivity.
Qed.

End AdvancedFacts.

Lemma record_with_a_nonempty_array_raises_witness :
  exists e,
    LargeJSONChunkerIjson.chunk_file (init (lit "conversations.json") 100)
      (Some (JList ([] ++ JDict ([(lit "id", JInt 7)]
                                 ++ (lit "messages", JList (JStr (lit "hello") :: [])) :: [])
                       :: []),
             34%nat))
    = Raise e /\
    (e = TypeError \/ e = ValueError).
Proof.
  apply (record_with_a_nonempty_array_raises (lit "conversations.json") 100 34%nat
           [] [] [(lit "id", JInt 7)] [] (lit "messages") (JStr (lit "hello")) []).
  reflexivity.
Defined.

Lemma value_set_under_a_path_is_found_witness :
  get_keys (JDict [(lit "a", JDict [(lit "b", JInt 1)])]) (split_on (chr ".") (lit "a.b"))
  = Some (JInt 1).
Proof.
  apply (value_set_under_a_path_is_found (JDict []) _ (lit "a.b") (JInt 1)).
  - discriminate.
  - repeat constructor.
  - reflexivity.
Defined.


Lemma flat_objects_are_rebuilt_from_their_good_keys_witness :
  LargeJSONChunkerIjson.chunk_file (init (lit "conversations.json") 100)
    (Some (array_of_objects flat_elements_sample, 90%nat))
  = SimpleIjsonChunker.chunk_file_simple (lit "conversations.json") 100
      (Some (JList (JDict <$> List.filter nonempty_object
                                (rebuilt <$> flat_elements_sample)), 90%nat)).
Proof.
  apply (flat_objects_are_rebuilt_from_their_good_keys (lit "conversations.json") 100
           90%nat flat_elements_sample).
  repeat constructor.
Defined.

Section ItemKey.

Import LargeJSONChunkerIjson.

Lemma remove_all_item_twice (s : str) :
  occurs (lit "item.") s = false ->
  remove_all (lit "item.") (lit "item.item." ++ s) = s.
Proof.
  intros Hs. unfold remove_all.
  change (length (lit "item.item." ++ s)) with (S (S (8 + length s))).
  change (lit "item.item." ++ s) with (lit "item." ++ (lit "item." ++ s)).
  cbn [remove_all_fuel].
  change (lit "item." ++ lit "item." ++ s)
    with (N_of_ascii "i" :: (lit "tem." ++ lit "item." ++ s)) at 1. cbv iota.
  rewrite startswith_app.
  change (length (lit "item.")) with 5%nat.
  change (drop 5 (lit "item." ++ lit "item." ++ s)) with (lit "item." ++ s).
  change (lit "item." ++ s) with (N_of_ascii "i" :: (lit "tem." ++ s)) at 1. cbv iota.
  change (N_of_ascii "i" :: lit "tem." ++ s) with (lit "item." ++ s).
  rewrite startswith_app.
  change (drop 5 (lit "item." ++ s)) with s.
  by apply remove_all_fuel_absent.
Qed.

Lemma scalar_events (p : str) v :
  scalar v = true ->
  exists n, Ijson.events p v = [{| prefix := p; name := n; value := v |}]
            /\ is_scalar_event n = true.
Proof. destruct v as [| [|] | | | | | |]; try done; intros _; by eexists. Qed.

Lemma build_scalar_under_item d (k : str) n v :
  good_key k = true -> is_scalar_event n = true ->
  _build_object_from_ijson_event (JDict d) (lit "item.item." ++ k) n v
  = Ok (JDict (dict_set d k v)).
Proof.
  intros (Hne & Hdot & Hdig)%good_key_spec Hn.
  unfold _build_object_from_ijson_event.
  assert (startswith (lit "item.item." ++ k) (lit "item.") = true) as -> by reflexivity.
  rewrite orb_true_r.
  rewrite remove_all_item_twice by (by apply dot_free_no_item).
  rewrite Hn, set_nested_value_nonempty by done.
  rewrite split_on_dot_free by done. cbn [set_keys]. by rewrite Hdig.
Qed.

Lemma inner_under_item_item (k : str) n v :
  inner {| prefix := lit "item.item." ++ k; name := n; value := v |}.
Proof. split; [done|]. left. apply (not_top_under_item (lit "item." ++ k)). Qed.

(** X14.  A member named [item] that holds an object loses its content to
    the top level: for the record [{"item": {k: v}}], with a good key [k]
    and a scalar [v], [LargeJSONChunkerIjson] hands the assembler the
    record [{"item": {}, k: v}] (and [{"item": v}] when [k] is [item]
    itself), without a message; the run is the run of
    [SimpleIjsonChunker] on that other record. *)
Theorem content_under_a_key_item_moves_to_the_top
    (input_file : str) (chunk_size_mb : Z) (file_size : nat) (k : str) (v : json) :
  good_key k = true -> scalar v = true ->
  LargeJSONChunkerIjson.chunk_file (init input_file chunk_size_mb)
    (Some (JList [JDict [(lit "item", JDict [(k, v)])]], file_size))
  = SimpleIjsonChunker.chunk_file_simple input_file chunk_size_mb
      (Some (JList [JDict (dict_set [(lit "item", JDict [])] k v)], file_size)).
Proof.
  intros Hk Hv. unfold chunk_file, _process_file_with_ijson,
    SimpleIjsonChunker.chunk_file_simple.
  rewrite parse_array, event_loop_root_start, items_of_array.
  cbn [flat_map app]. rewrite events_of_element.
  cbn [app]. rewrite event_loop_element_start by done.
  cbn [flat_map member_events fst snd app Ijson.events].
  rewrite event_loop_inner; [|done|by split; [|right]].
  cbn [prefix name value current_object in_array self].
  rewrite build_at_end, bind_Ok by auto.
  change (Ijson.child (lit "item") (lit "item")) with (lit "item." ++ lit "item").
  rewrite event_loop_inner by (done || apply inner_under_item).
  cbn [prefix name value current_object in_array self].
  rewrite build_map_start, bind_Ok by done.
  rewrite event_loop_inner; [|done|by split; [|right]].
  cbn [prefix name value current_object in_array self].
  rewrite build_at_end, bind_Ok by auto.
  change (Ijson.child (lit "item." ++ lit "item") k) with (lit "item.item." ++ k).
  destruct (scalar_events (lit "item.item." ++ k) v Hv) as (n & -> & Hn).
  cbn [app].
  rewrite event_loop_inner by (done || apply inner_under_item_item).
  cbn [prefix name value current_object in_array self].
  rewrite build_scalar_under_item, bind_Ok by done.
  rewrite event_loop_inner; [|done|by split; [done|left]].
  cbn [prefix name value current_object in_array self].
  rewrite build_at_end, bind_Ok by auto.
  rewrite event_loop_element_end by done.
  cbn [current_object self SimpleIjsonChunker.loop].
  assert (truthy (JDict (dict_set (dict_set [] (lit "item") (JDict [])) k v)) = true)
    as -> by (cbn [dict_set]; by destruct (str_eqb _ _)).
  unfold SimpleIjsonChunker.step.
  change (dict_set [] (lit "item") (JDict [])) with [(lit "item", JDict [])].
  change (_add_conversation_to_chunk ?s ?c)
    with (conversation_str ← json_dumps c;
          Ok (add_sized s c (encoded_len conversation_str))).
  destruct (json_dumps _) as [s|e]; [|done].
  reflexivity.
Qed.

End ItemKey.

Lemma content_under_a_key_item_moves_to_the_top_witness :
  LargeJSONChunkerIjson.chunk_file (init (lit "conversations.json") 100)
    (Some (JList [JDict [(lit "item", JDict [(lit "price", JInt 3)])]], 22%nat))
  = SimpleIjsonChunker.chunk_file_simple (lit "conversations.json") 100
      (Some (JList [JDict (dict_set [(lit "item", JDict [])] (lit "price") (JInt 3))],
             22%nat)).
Proof.
  apply (content_under_a_key_item_moves_to_the_top (lit "conversations.json") 100
           22%nat (lit "price") (JInt 3)); reflexivity.
Defined.

Section FileNames.

Local Open Scope nat_scope.

Lemma int_of_digits_acc (d : Decimal.uint) : forall acc,
  fold_left (fun acc c => 10 * acc + decimal_value c)
            (lit (DecimalString.NilEmpty.string_of_uint d)) acc
  = Nat.of_uint_acc d acc.
Proof.
  induction d as [|d IH|d IH|d IH|d IH|d IH|d IH|d IH|d IH|d IH|d IH]; intros acc;
    [done|..];
    cbn [DecimalString.NilEmpty.string_of_uint Nat.of_uint_acc];
    unfold lit; cbn [list_ascii_of_string map fold_left]; fold (lit (DecimalString.NilEmpty.string_of_uint d));
    rewrite IH, Nat.tail_mul_spec; f_equal;
    match goal with |- context [decimal_value ?c] =>
      let v := eval vm_compute in (decimal_value c) in
      change (decimal_value c) with v
    end; lia.
Qed.

Lemma int_of_nat_repr n : int_of_digits (nat_repr n) = n.
Proof.
  unfold int_of_digits, nat_repr.
  rewrite <- (DecimalNat.Unsigned.of_to n) at 2. unfold Nat.of_uint.
  destruct (Nat.to_uint n) eqn:E; try apply int_of_digits_acc. done.
Qed.

Lemma int_of_digits_zeros k (s : str) :
  int_of_digits (replicate k (chr "0") ++ s) = int_of_digits s.
Proof.
  unfold int_of_digits. rewrite fold_left_app. f_equal.
  induction k as [|k IH]; [done|]. cbn [replicate fold_left]. exact IH.
Qed.

Lemma int_of_format_03d n : int_of_digits (format_03d n) = n.
Proof. unfold format_03d. by rewrite int_of_digits_zeros, int_of_nat_repr. Qed.

Lemma format_03d_inj n m : format_03d n = format_03d m -> n = m.
Proof. intros H. by rewrite <- (int_of_format_03d n), H, int_of_format_03d. Qed.


Lemma zainjo_chunk_filename_inj n m :
  zainjo_chunk_filename n = zainjo_chunk_filename m -> n = m.
Proof.
  unfold zainjo_chunk_filename. intros H%app_inv_head%app_inv_tail.
  by apply format_03d_inj.
Qed.

End FileNames.

Section DistinctNames.



End DistinctNames.


Section ZainjoFacts.

Import Zainjo.

Local Open Scope nat_scope.

Implicit Types (st : locals) (groups : list (list json)).

(** The truth value of the script at hand. *)
Variable truth : json -> bool.

Lemma has_required_fields_dict chatter :
  has_required_fields truth (JDict chatter) = Ok (has_fields truth chatter).
Proof.
  unfold has_required_fields, has_fields. cbn [get]. rewrite bind_Ok.
  destruct (truth (default JNull (dict_get chatter (lit "SenderID")))); [|done].
  by rewrite bind_Ok.
Qed.

Lemma max_chatters_positive : 0 < max_chatters_per_chunk.
Proof. unfold max_chatters_per_chunk. lia. Qed.

Lemma chunked_initial : chunked initial [] [].
Proof. split; simpl; try done. apply max_chatters_positive. Qed.

Lemma chunked_step st kept groups chatter :
  chunked st kept groups ->
  exists st' groups',
    step truth save_any st (JDict chatter) = Ok st' /\
    chunked st' (kept ++ (if has_fields truth chatter then [JDict chatter] else []))
            groups'.
Proof.
  intros [Hw Hn Hf Ho Hk Hc]. unfold step.
  rewrite has_required_fields_dict, bind_Ok.
  destruct (has_fields truth chatter).
  - destruct (Nat.leb_spec max_chatters_per_chunk
                (length (current_chunk_data st ++ [JDict chatter]))) as [Hfull|Hroom].
    + unfold save_any. rewrite bind_Ok.
      eexists; exists (groups ++ [current_chunk_data st ++ [JDict chatter]]).
      split; [done|]. rewrite length_app in Hfull. simpl in Hfull.
      split; simpl.
      * rewrite imap_app. simpl. by rewrite Hw, Nat.add_0_r, Hn.
      * rewrite length_app. simpl. lia.
      * apply Forall_app. split; [done|]. apply Forall_singleton.
        rewrite length_app. simpl. lia.
      * apply max_chatters_positive.
      * rewrite concat_app. simpl. rewrite !app_nil_r, <- Hk. by rewrite app_assoc.
      * rewrite length_app. simpl. lia.
    + eexists; exists groups. split; [done|].
      split; simpl; try done.
      * rewrite <- Hk. by rewrite app_assoc.
      * rewrite length_app. simpl. lia.
  - eexists; exists groups. split; [done|]. rewrite app_nil_r. by split.
Qed.

Lemma chunked_loop records : forall st kept groups,
  chunked st kept groups ->
  exists st' groups',
    loop truth save_any (JDict <$> records) st = Ok st' /\
    chunked st' (kept ++ (JDict <$> filter (fun c => has_fields truth c = true) records))
            groups'.
Proof.
  induction records as [|chatter records IH]; intros st kept groups H.
  - exists st, groups. by rewrite app_nil_r.
  - destruct (chunked_step _ _ _ chatter H) as (st1 & groups1 & Hs & H1).
    cbn [fmap list_fmap loop]. rewrite Hs, bind_Ok.
    destruct (IH _ _ _ H1) as (st2 & groups2 & Hl & H2).
    exists st2, groups2. split; [done|].
    rewrite filter_cons. destruct (has_fields truth chatter) eqn:E.
    + rewrite decide_True by done. rewrite fmap_cons.
      by rewrite <- app_assoc in H2.
    + rewrite decide_False by congruence. by rewrite app_nil_r in H2.
Qed.

Lemma chunked_finish st kept groups :
  chunked st kept groups ->
  exists out, finish save_any st = Ok out /\ chunks_of_500 out kept.
Proof.
  intros [Hw Hn Hf Ho Hk Hc]. unfold finish, chunks_of_500, save_any.
  assert (forall i g, groups !! i = Some g -> length g = 500) as Hall.
  { intros i g Hg. by eapply (Forall_lookup_1 _ _ _ _ Hf Hg). }
  destruct (current_chunk_data st) as [|x xs] eqn:E.
  - rewrite bind_Ok. eexists. split; [done|].
    exists groups. rewrite app_nil_r in Hk. simpl.
    repeat split; try done; try (rewrite (Hall _ _ H); lia).
  - rewrite !bind_Ok. eexists. split; [done|].
    exists (groups ++ [x :: xs]). simpl.
    rewrite concat_app, imap_app, length_app. simpl.
    rewrite app_nil_r, Nat.add_0_r, Hw, Hn.
    repeat split; try done; try lia.
    + apply lookup_app_Some in H as [H|[_ H]]; [rewrite (Hall _ _ H); lia|].
      apply list_lookup_singleton_Some in H as [_ <-]. simpl. lia.
    + apply lookup_app_Some in H as [H|[_ H]]; [rewrite (Hall _ _ H); lia|].
      apply list_lookup_singleton_Some in H as [_ <-].
      unfold max_chatters_per_chunk in Ho. simpl in *. lia.
    + intros Hi. apply lookup_app_Some in H as [H|[Hge H]]; [by apply (Hall _ _ H)|].
      apply list_lookup_singleton_Some in H as [Hz _]. lia.
Qed.

(** The run of a script whose [save_chunk] refuses nothing. *)
Lemma run_of_any records :
  exists out,
    (st ← loop truth save_any (JDict <$> records) initial; finish save_any st) = Ok out /\
    chunks_of_500 out (JDict <$> filter (fun c => has_fields truth c = true) records).
Proof.
  destruct (chunked_loop records _ _ _ chunked_initial) as (st & groups & Hl & H).
  apply chunked_finish in H as (out & Hf & H). cbn [app] in H.
  exists out. by rewrite Hl, bind_Ok.
Qed.

(** The loop only adds to the files written. *)
Lemma loop_written records : forall st st',
  loop truth save_any (JDict <$> records) st = Ok st' ->
  exists more, written st' = written st ++ more.
Proof.
  induction records as [|c records IH]; intros st st'.
  - intros [= <-]. exists []. by rewrite app_nil_r.
  - cbn [fmap list_fmap loop]. unfold step.
    rewrite has_required_fields_dict, bind_Ok.
    destruct (has_fields truth c); [|rewrite bind_Ok; apply IH].
    destruct (max_chatters_per_chunk <=? _); unfold save_any; rewrite !bind_Ok.
    + intros [more H]%IH. cbn [written] in H. rewrite <- app_assoc in H. eauto.
    + intros [more H]%IH. cbn [written] in H. eauto.
Qed.

Lemma loop_app (save : nat -> list json -> result chunk_data) (l1 l2 : list json) :
  forall st, loop truth save (l1 ++ l2) st = (st' ← loop truth save l1 st; loop truth save l2 st').
Proof.
  induction l1 as [|c l1 IH]; intros st; [done|].
  cbn [app loop]. destruct (step truth save st c) as [st1|e]; [|done].
  rewrite !bind_Ok. apply IH.
Qed.

(** The records of the files written are those of the full chunks. *)
Lemma full_chunks st kept groups :
  chunked st kept groups ->
  concat (chatters <$> written st) = take (length kept / 500 * 500) kept.
Proof.
  intros [Hw Hn Hf Ho Hk Hc]. rewrite Hw, fmap_imap.
  rewrite (imap_ext _ (const id) groups) by done.
  rewrite imap_const, list_fmap_id.
  assert (length (concat groups) = length groups * 500) as Hlen.
  { clear -Hf. induction Hf as [|g gs Hg _ IH]; [done|].
    cbn [concat length]. rewrite length_app, IH, Hg. unfold max_chatters_per_chunk. lia. }
  unfold max_chatters_per_chunk in Ho.
  assert (length kept / 500 = length groups) as ->.
  { symmetry. apply (Nat.div_unique _ _ _ (length (current_chunk_data st))); [lia|].
    rewrite <- Hk, length_app. lia. }
  by rewrite <- Hk, <- Hlen, take_app_length.
Qed.

Lemma forallb_cons_middle {A} (f : A -> bool) (l : list A) x (k : list A) :
  forallb f (l ++ x :: k) = forallb f (l ++ [x]) && forallb f k.
Proof. by rewrite (cons_middle x l k), app_assoc, forallb_app. Qed.

Section Fallible.

(** A [save_chunk] that refuses, with the exception [refusal], the chunks
    of which a record fails the test [taken]. *)
Variable taken : json -> bool.
Variable refusal : exn.
Variable save : nat -> list json -> result chunk_data.
Hypothesis save_spec : forall n c,
  save n c = if forallb taken c then Ok (chunk_holding n c) else Raise refusal.

(** The loop and the last flush of a script, against those that refuse
    nothing. *)
Lemma fallible_run records : forall st,
  (st' ← loop truth save (JDict <$> records) st; finish save st')
  = if forallb taken
         (current_chunk_data st
          ++ (JDict <$> filter (fun c => has_fields truth c = true) records))
    then st' ← loop truth save_any (JDict <$> records) st; finish save_any st'
    else Raise refusal.
Proof.
  induction records as [|c records IH]; intros st.
  - cbn [fmap list_fmap loop filter list_filter]. rewrite !bind_Ok.
    rewrite app_nil_r. unfold finish, save_any.
    destruct (current_chunk_data st) as [|x data] eqn:E; [done|].
    rewrite save_spec.
    by destruct (forallb taken (x :: data)).
  - cbn [fmap list_fmap loop].
    unfold step.
    rewrite has_required_fields_dict, !bind_Ok.
    destruct (has_fields truth c) eqn:Hc.
    + rewrite filter_cons_True by done. cbn [fmap list_fmap].
      destruct (max_chatters_per_chunk <=? length (current_chunk_data st ++ [JDict c]))
        eqn:Hfull.
      * rewrite forallb_cons_middle, save_spec. unfold save_any.
        destruct (forallb taken (current_chunk_data st ++ [JDict c]));
          [|done].
        rewrite !bind_Ok, IH. done.
      * rewrite !bind_Ok, IH. cbn [current_chunk_data].
        by rewrite <- app_assoc.
    + rewrite filter_cons_False by (by rewrite Hc). rewrite !bind_Ok. apply IH.
Qed.

(** On records that are objects the loop raises nothing but the refusal
    of [save_chunk]. *)
Lemma loop_raises records : forall st x,
  loop truth save (JDict <$> records) st = Raise x -> x = refusal.
Proof.
  induction records as [|c records IH]; intros st x; [done|].
  cbn [fmap list_fmap loop]. unfold step at 1.
  rewrite has_required_fields_dict, bind_Ok.
  destruct (has_fields truth c); [|rewrite bind_Ok; apply IH].
  destruct (max_chatters_per_chunk <=? _); [|rewrite bind_Ok; apply IH].
  rewrite save_spec. destruct (forallb taken _).
  - rewrite !bind_Ok. apply IH.
  - cbn. by intros [= <-].
Qed.

(** When every record is taken the loop is the loop that refuses
    nothing. *)
Lemma loop_all_taken records : forall st,
  forallb taken (current_chunk_data st) = true ->
  forallb taken (JDict <$> records) = true ->
  loop truth save (JDict <$> records) st = loop truth save_any (JDict <$> records) st.
Proof.
  induction records as [|c records IH]; intros st Hst Hall; [done|].
  cbn [fmap list_fmap forallb] in Hall. apply andb_prop in Hall as [Hc Hall].
  cbn [fmap list_fmap loop]. unfold step.
  rewrite has_required_fields_dict, !bind_Ok.
  destruct (has_fields truth c); [|rewrite !bind_Ok; by apply IH].
  assert (forallb taken (current_chunk_data st ++ [JDict c]) = true) as Hdata.
  { rewrite forallb_app, Hst. cbn [forallb]. by rewrite Hc. }
  destruct (max_chatters_per_chunk <=? _).
  - rewrite save_spec, Hdata. unfold save_any. rewrite !bind_Ok. by apply IH.
  - rewrite !bind_Ok. by apply IH.
Qed.

(** A step of the fallible loop, while the files written so far hold
    records that are taken only. *)
Lemma step_fallible st c st1 :
  forallb taken (concat (chatters <$> written st)) = true ->
  step truth save_any st (JDict c) = Ok st1 ->
  step truth save st (JDict c)
  = if forallb taken (concat (chatters <$> written st1)) then Ok st1 else Raise refusal.
Proof.
  intros Hst. unfold step. rewrite has_required_fields_dict, !bind_Ok.
  destruct (has_fields truth c); [|intros [= <-]; by rewrite Hst].
  destruct (max_chatters_per_chunk <=? _).
  - rewrite save_spec. unfold save_any. rewrite bind_Ok. intros [= <-].
    cbn [written]. rewrite fmap_app, concat_app.
    rewrite (forallb_app taken (concat (chatters <$> written st))), Hst.
    cbn [fmap list_fmap concat chunk_holding chatters andb]. rewrite app_nil_r.
    destruct (forallb taken (current_chunk_data st ++ [JDict c])); [|done].
    by rewrite bind_Ok.
  - intros [= <-]. cbn [written]. by rewrite Hst.
Qed.

(** The fallible loop ends where the other one does when every record
    written is taken, and with the refusal when one is not. *)
Lemma loop_fallible records : forall st st',
  forallb taken (concat (chatters <$> written st)) = true ->
  loop truth save_any (JDict <$> records) st = Ok st' ->
  loop truth save (JDict <$> records) st
  = if forallb taken (concat (chatters <$> written st')) then Ok st' else Raise refusal.
Proof.
  induction records as [|c records IH]; intros st st' Hst.
  - intros [= <-]. cbn [fmap list_fmap loop]. by rewrite Hst.
  - cbn [fmap list_fmap loop].
    destruct (step truth save_any st (JDict c)) as [st1|e] eqn:Hstep; [|done].
    rewrite bind_Ok, (step_fallible _ _ _ Hst Hstep). intros Hloop.
    destruct (forallb taken (concat (chatters <$> written st1))) eqn:H1.
    + rewrite bind_Ok. by apply IH.
    + destruct (loop_written _ _ _ Hloop) as [more ->].
      rewrite fmap_app, concat_app, forallb_app, H1. done.
Qed.

End Fallible.

End ZainjoFacts.

Section ZainjoEnd.

Import Zainjo.

Local Open Scope nat_scope.

Lemma find_none {A} (f : A -> bool) (l : list A) :
  Forall (fun x => f x = false) l -> List.find f l = None.
Proof.
  induction 1 as [|x l Hx _ IH]; [done|]. cbn [List.find]. by rewrite Hx.
Qed.

Lemma find_app_none {A} (f : A -> bool) (l1 l2 : list A) :
  List.find f l1 = None -> List.find f (l1 ++ l2) = List.find f l2.
Proof.
  induction l1 as [|x l1 IH]; [done|]. cbn [List.find app].
  destruct (f x); [done|]. exact IH.
Qed.

Lemma first_chunk_name : zainjo_chunk_filename 0 = lit "zainjo-chunk-000.json".
Proof. reflexivity. Qed.

(** Reading [zainjo-chunk-000.json] back gives the first group. *)
Lemma read_back_first (g : list json) (gs : list (list json)) :
  ZainjoScripts.read_back (imap chunk_holding (g :: gs)) (lit "zainjo-chunk-000.json")
  = Some (chunk_holding 0 g).
Proof.
  unfold ZainjoScripts.read_back. cbn [imap]. rewrite reverse_cons.
  rewrite find_app_none.
  - cbn [List.find chunk_holding chunkNumber]. rewrite first_chunk_name.
    by rewrite str_eqb_refl.
  - apply find_none, Forall_reverse, list.Forall_forall. intros c Hc.
    apply elem_of_lookup_imap in Hc as (i & g' & -> & _).
    cbn [compose chunk_holding chunkNumber].
    destruct (str_eqb _ _) eqn:E; [|done].
    apply str_eqb_eq in E. rewrite <- first_chunk_name in E.
    by apply zainjo_chunk_filename_inj in E.
Qed.

(** What the chunks of a run look like at their head. *)
Lemma chunks_of_500_head out (kept : list json) :
  chunks_of_500 out kept ->
  match kept with
  | [] => out_files out = [] /\ summary_totalChunks (out_summary out) = 0
  | first :: _ =>
      exists g gs,
        out_files out = imap chunk_holding ((first :: g) :: gs) /\
        summary_totalChunks (out_summary out) = S (length gs)
  end.
Proof.
  intros (groups & Hc & Hf & Hg & _ & Hn).
  destruct groups as [|g gs].
  - cbn in Hc. subst kept. by rewrite Hf, Hn.
  - destruct (Hg 0 g eq_refl) as [[Hlen _] _].
    destruct g as [|c g]; [cbn in Hlen; lia|].
    cbn in Hc. subst kept. exists g, gs. by rewrite Hf, Hn.
Qed.

Lemma verify_first_of_run sample out (kept : list json) :
  chunks_of_500 out kept ->
  ZainjoScripts.verify_first_chunk sample
    (summary_totalChunks (out_summary out)) (out_files out)
  = match kept with
    | [] => Some ()
    | first_chatter :: _ =>
        ZainjoScripts.verify_first_chunk sample 1 [chunk_holding 0 [first_chatter]]
    end.
Proof.
  intros H%chunks_of_500_head. destruct kept as [|first kept].
  - destruct H as [-> ->]. done.
  - destruct H as (g & gs & -> & ->).
    unfold ZainjoScripts.verify_first_chunk.
    rewrite read_back_first.
    change (ZainjoScripts.read_back [chunk_holding 0 [first]] (lit "zainjo-chunk-000.json"))
      with (Some (chunk_holding 0 [first])).
    reflexivity.
Qed.

(** What the [save_chunk] of either script refuses. *)
Lemma save_chunk_writable chunk_number (data : list json) :
  save_chunk chunk_number data
  = if forallb writable data then Ok (chunk_holding chunk_number data)
    else Raise UnicodeEncodeError.
Proof.
  unfold save_chunk, chunk_json.
  change (writable (JDict [(lit "chunkNumber", JInt (Z.of_nat chunk_number));
                           (lit "totalChatters", JInt (Z.of_nat (length data)));
                           (lit "chatters", JList data)]))
    with (true && (true && ((true && forallb writable data) && true))).
  cbn [andb]. rewrite andb_true_r. done.
Qed.

Lemma save_chunk_decimal_free chunk_number (data : list json) :
  ZainjoScripts.save_chunk chunk_number data
  = if forallb decimal_free data then Ok (chunk_holding chunk_number data)
    else Raise TypeError.
Proof.
  unfold ZainjoScripts.save_chunk.
  pose proof (encode_decimal_free (Some 2) (chunk_json chunk_number data) 0) as H.
  change (decimal_free (chunk_json chunk_number data))
    with (true && (true && (forallb decimal_free data && true))) in H.
  cbn [andb] in H. rewrite andb_true_r in H.
  destruct (forallb decimal_free data).
  - by destruct H as [s ->].
  - by rewrite H.
Qed.

Lemma print_value_count console (d : list (str * json)) :
  print_value console (default JNull (dict_get d (lit "Count")))
  = if count_printed console d then Ok () else Raise UnicodeEncodeError.
Proof.
  unfold count_printed. by destruct (dict_get d (lit "Count")) as [[]|].
Qed.

(** The Python script up to the summary, on an array of objects. *)
Lemma python_run console (d : list (str * json)) (records : list (list (str * json))) :
  dict_get d (lit "ActiveChatters") = Some (JList (JDict <$> records)) ->
  let kept := JDict <$> filter (fun c => has_sender_and_history_loaded c = true) records in
  if count_printed console d && forallb writable kept
  then exists out, chunk_zainjo_file console (JDict d) = Ok out /\ chunks_of_500 out kept
  else chunk_zainjo_file console (JDict d) = Raise UnicodeEncodeError.
Proof.
  intros Hd kept. unfold chunk_zainjo_file. cbn [get].
  rewrite bind_Ok, print_value_count.
  destruct (count_printed console d); [|done]. rewrite bind_Ok, Hd.
  cbn [default from_option id iterate andb]. rewrite bind_Ok.
  rewrite (fallible_run truthy_loaded writable UnicodeEncodeError save_chunk
             save_chunk_writable).
  cbn [initial current_chunk_data app]. subst kept.
  unfold has_sender_and_history_loaded.
  destruct (forallb writable _); [|done].
  apply run_of_any.
Qed.

(** The ijson script up to the summary, on items that are objects. *)
Lemma ijson_run (data : json) (records : list (list (str * json))) :
  IjsonItems.items data (lit "ActiveChatters.item") = JDict <$> records ->
  let kept := JDict <$> filter (fun c => has_sender_and_history c = true) records in
  if forallb decimal_free kept
  then exists out, ZainjoScripts.chunk_with_ijson data = Ok out /\ chunks_of_500 out kept
  else ZainjoScripts.chunk_with_ijson data = Raise TypeError.
Proof.
  intros Hitems kept. unfold ZainjoScripts.chunk_with_ijson. rewrite Hitems.
  rewrite (fallible_run truthy decimal_free TypeError ZainjoScripts.save_chunk
             save_chunk_decimal_free).
  cbn [initial current_chunk_data app]. subst kept.
  unfold has_sender_and_history.
  destruct (forallb decimal_free _); [|done].
  apply run_of_any.
Qed.

Lemma has_fields_history (truth : json -> bool) c :
  truth JNull = false ->
  has_fields truth c = true ->
  exists v, dict_get c (lit "ChatHistory") = Some v /\ truth v = true.
Proof.
  unfold has_fields. intros Hnull [_ H]%andb_prop.
  destruct (dict_get c (lit "ChatHistory")) as [v|] eqn:E; [by exists v|].
  cbn [default from_option id] in H. congruence.
Qed.

Lemma filter_head {A} (P : A -> bool) (l : list A) first kept :
  filter (fun c => P c = true) l = first :: kept -> P first = true.
Proof.
  intros H.
  assert (first ∈ filter (fun c => P c = true) l) as Hin by (rewrite H; left).
  by apply list_elem_of_filter in Hin as [? _].
Qed.

(** X16.  [chunk-zainjo-python.py] on a document whose [ActiveChatters] is
    an array of objects.  The records kept are those whose [SenderID] and
    [ChatHistory] are truthy as [json.load] returns them.  When [Count] is
    a text that the console refuses, or a kept record holds a lone
    surrogate, which [json.dump] cannot write, the script ends with
    [sys.exit(1)] before the summary.  Otherwise all chunks and the summary
    are written, and the check of the first chunk takes the [len] of the
    [ChatHistory] of the first kept record: the function returns when no
    record was kept or that value is a text, a list or an object, and the
    script ends with [sys.exit(1)] when it is a number or [true]. *)
Theorem zainjo_python_fails_after_writing_on_an_unsized_history
    (console : str -> bool) (d : list (str * json))
    (records : list (list (str * json))) :
  dict_get d (lit "ActiveChatters") = Some (JList (JDict <$> records)) ->
  ZainjoScripts.chunk_zainjo_file_returns console (JDict d)
  = count_printed console d
    && forallb writable
         (JDict <$> filter (fun c => has_sender_and_history_loaded c = true) records)
    && match filter (fun c => has_sender_and_history_loaded c = true) records with
       | [] => true
       | first_chatter :: _ =>
           has_len (default (JList []) (dict_get first_chatter (lit "ChatHistory")))
       end.
Proof.
  intros Hd. pose proof (python_run console d records Hd) as H. cbv zeta in H.
  unfold ZainjoScripts.chunk_zainjo_file_returns.
  destruct (count_printed console d && forallb writable _).
  - destruct H as (out & -> & H). cbn [andb]. rewrite (verify_first_of_run _ _ _ H).
    destruct (filter _ records) as [|first kept]; [done|].
    cbn [fmap list_fmap]. unfold ZainjoScripts.verify_first_chunk.
    change (ZainjoScripts.read_back [chunk_holding 0 [JDict first]]
              (lit "zainjo-chunk-000.json"))
      with (Some (chunk_holding 0 [JDict first])).
    cbn [Nat.ltb Nat.leb chunk_holding chatters ZainjoScripts.get_or].
    cbn [mbind option_bind].
    by destruct (default (JList []) (dict_get first (lit "ChatHistory"))).
  - by rewrite H.
Qed.

(** X17.  [chunk-zainjo-ijson.py], when the items ijson yields are the
    objects [records]: the function returns [True] exactly when no kept
    record holds a non-integer number (else [json.dump] raises while a
    chunk is saved) and, if a record was kept, the [ChatHistory] of the
    first one is a list that starts with an object whose [MessageText], if
    any, is a text or a list (else the check of the first chunk raises
    after everything is written).  In every other case it returns
    [False] and the script ends with status 1. *)
Theorem zainjo_ijson_returns_true_exactly_when
    (data : json) (records : list (list (str * json))) :
  IjsonItems.items data (lit "ActiveChatters.item") = JDict <$> records ->
  ZainjoScripts.chunk_zainjo_with_ijson data
  = forallb decimal_free
      (JDict <$> filter (fun c => has_sender_and_history c = true) records)
    && match filter (fun c => has_sender_and_history c = true) records with
       | [] => true
       | first_chatter :: _ => sample_message_shown first_chatter
       end.
Proof.
  intros Hitems. pose proof (ijson_run data records Hitems) as H. cbv zeta in H.
  unfold ZainjoScripts.chunk_zainjo_with_ijson.
  destruct (forallb decimal_free _); [|by rewrite H].
  destruct H as (out & -> & H). cbn [andb]. rewrite (verify_first_of_run _ _ _ H).
  destruct (filter _ records) as [|first kept] eqn:Hkept; [done|].
  apply filter_head in Hkept. unfold has_sender_and_history in Hkept.
  apply has_fields_history in Hkept as (v & Hv & Ht); [|done].
  cbn [fmap list_fmap]. unfold ZainjoScripts.verify_first_chunk, sample_message_shown.
  change (ZainjoScripts.read_back [chunk_holding 0 [JDict first]]
            (lit "zainjo-chunk-000.json"))
    with (Some (chunk_holding 0 [JDict first])).
  cbn [Nat.ltb Nat.leb chunk_holding chatters ZainjoScripts.get_or
       ZainjoScripts.subscript].
  rewrite Hv. cbn [default from_option id mbind option_bind].
  destruct v as [| | | | |[|ch s]|[|x l]|[|kv m]]; try done.
  cbn [ZainjoScripts.len ZainjoScripts.subscript_0 truthy_loaded truthy].
  destruct x as [| | | | | | |sample_msg]; try done.
  cbn [mbind option_bind ZainjoScripts.get_or].
  by destruct (dict_get sample_msg (lit "MessageText")) as [[]|].
Qed.

Lemma chunks_of_500_length (groups : list (list json)) :
  (forall i g, groups !! i = Some g ->
     (1 <= length g <= 500) /\ (S i < length groups -> length g = 500)) ->
  (length (concat groups) + 499) / 500 = length groups.
Proof.
  induction groups as [|g gs IH]; intros H; [done|].
  destruct (H 0 g eq_refl) as [Hg Hfull].
  cbn [concat length]. rewrite length_app.
  destruct gs as [|g' gs].
  - cbn [concat length]. rewrite Nat.add_0_r.
    symmetry. apply (Nat.div_unique _ _ _ (length g - 1)); lia.
  - rewrite Hfull by (cbn; lia).
    rewrite <- IH.
    + replace (500 + length (concat (g' :: gs)) + 499)
        with (1 * 500 + (length (concat (g' :: gs)) + 499)) by lia.
      by rewrite Nat.div_add_l.
    + intros i x Hx. destruct (H (S i) x Hx) as [H1 H2]. split; [done|].
      intros Hlt. apply H2. cbn [length] in *. lia.
Qed.

Lemma chunk_numbers (groups : list (list json)) :
  chunkNumber <$> imap chunk_holding groups = seq 0 (length groups).
Proof.
  rewrite fmap_imap.
  assert (forall k, imap (fun i g => chunkNumber (chunk_holding (k + i) g)) groups
                    = seq k (length groups)) as Hseq.
  { induction groups as [|g gs IH]; intros k; [done|].
    cbn [imap length seq chunk_holding chunkNumber]. rewrite Nat.add_0_r. f_equal.
    rewrite <- IH. apply imap_ext. intros i x _. cbn. f_equal. lia. }
  apply (Hseq 0).
Qed.

(** What [chunks_of_500] says of the number of chunks. *)
Lemma chunks_of_500_count out (kept : list json) :
  chunks_of_500 out kept ->
  length (out_files out) = (length kept + 499) / 500 /\
  summary_totalChunks (out_summary out) = (length kept + 499) / 500 /\
  chunkNumber <$> out_files out = seq 0 (length (out_files out)).
Proof.
  intros (groups & Hc & Hf & Hg & _ & Hn).
  pose proof (chunks_of_500_length groups Hg) as Hlen. rewrite Hc in Hlen.
  rewrite Hf, Hn, length_imap, Hlen. split_and!; [done..|].
  apply chunk_numbers.
Qed.

(** X18.  [chunk-zainjo-python.py] on a document whose [ActiveChatters] is
    an array of objects, when [Count] is printed and no kept record holds a
    lone surrogate: chunk [i] of the run holds the [i]-th group of 500 kept
    records, the last chunk the rest; there are as many chunks as 500 goes
    into the number of kept records, rounded up; the summary reports that
    number, and chunk [i] is numbered [i].  When [Count] is a text that the
    console refuses, or a kept record holds a lone surrogate, the run ends
    with [UnicodeEncodeError] and writes no summary. *)
Theorem zainjo_number_of_chunks
    (console : str -> bool) (d : list (str * json))
    (records : list (list (str * json))) :
  dict_get d (lit "ActiveChatters") = Some (JList (JDict <$> records)) ->
  let kept := JDict <$> filter (fun c => has_sender_and_history_loaded c = true) records in
  if count_printed console d && forallb writable kept
  then exists out,
         chunk_zainjo_file console (JDict d) = Ok out /\
         chunks_of_500 out kept /\
         length (out_files out) = (length kept + 499) / 500 /\
         summary_totalChunks (out_summary out) = (length kept + 499) / 500 /\
         chunkNumber <$> out_files out = seq 0 (length (out_files out))
  else chunk_zainjo_file console (JDict d) = Raise UnicodeEncodeError.
Proof.
  intros Hd kept. pose proof (python_run console d records Hd) as H. cbv zeta in H.
  fold kept in H. destruct (count_printed console d && forallb writable kept); [|done].
  destruct H as (out & Hrun & H). exists out.
  split; [done|]. split; [done|]. by apply chunks_of_500_count.
Qed.

End ZainjoEnd.

Lemma zainjo_python_fails_after_writing_on_an_unsized_history_witness :
  (exists out, Zainjo.chunk_zainjo_file encodable (JDict zainjo_number_history_document)
               = Ok out /\
               length (Zainjo.out_files out) = 1%nat) /\
  ZainjoScripts.chunk_zainjo_file_returns encodable (JDict zainjo_number_history_document)
  = false.
Proof.
  split; [by eexists|].
  apply (zainjo_python_fails_after_writing_on_an_unsized_history encodable
           zainjo_number_history_document zainjo_number_history).
  reflexivity.
Defined.

Lemma zainjo_ijson_returns_true_exactly_when_witness :
  IjsonItems.items (JDict zainjo_sample_document) (lit "ActiveChatters.item")
    = JDict <$> zainjo_sample_records /\
  ZainjoScripts.chunk_zainjo_with_ijson (JDict zainjo_sample_document) = false.
Proof.
  split; [reflexivity|].
  apply (zainjo_ijson_returns_true_exactly_when
           (JDict zainjo_sample_document) zainjo_sample_records).
  reflexivity.
Defined.

Lemma zainjo_number_of_chunks_witness :
  exists out,
    Zainjo.chunk_zainjo_file encodable (JDict zainjo_sample_document) = Ok out /\
    chunks_of_500 out
      (JDict <$> filter (fun c => has_sender_and_history_loaded c = true)
                        zainjo_sample_records) /\
    length (Zainjo.out_files out) = 1%nat /\
    Zainjo.summary_totalChunks (Zainjo.out_summary out) = 1%nat /\
    Zainjo.chunkNumber <$> Zainjo.out_files out = seq 0 (length (Zainjo.out_files out)).
Proof.
  exact (zainjo_number_of_chunks encodable zainjo_sample_document zainjo_sample_records
           eq_refl).
Defined.

Section NoArray.

Import PyJsonEncoder.

Local Open Scope nat_scope.

Lemma join_snoc_dot (path : list str) (x : str) :
  path <> [] -> 0 < count_char (join (lit ".") (path ++ [x])) (chr ".").
Proof.
  induction path as [|p path IH]; [done|]. intros _.
  destruct path as [|q path].
  - cbn [app join]. rewrite !count_char_app.
    change (count_char (lit ".") (chr ".")) with 1. lia.
  - change (join (lit ".") ((p :: q :: path) ++ [x]))
      with (p ++ lit "." ++ join (lit ".") ((q :: path) ++ [x])).
    rewrite !count_char_app. change (count_char (lit ".") (chr ".")) with 1. lia.
Qed.

Lemma not_item_with_dot (s : str) :
  0 < count_char s (chr ".") -> str_eqb s (lit "item") = false.
Proof.
  intros H. destruct (str_eqb s (lit "item")) eqn:E; [|done].
  apply str_eqb_eq in E as ->. vm_compute in H. lia.
Qed.

(** Below the first level no prefix is [item]. *)
Lemma items_at_deep v : forall (path : list str) (x : str),
  path <> [] -> IjsonItems.items_at (lit "item") (path ++ [x]) v = [].
Proof.
  induction v as [| | | | | |l IH|d IH] using json_ind; intros path x Hp;
    cbn [IjsonItems.items_at];
    rewrite not_item_with_dot by (by apply join_snoc_dot); try done.
  - induction IH as [|y l Hy _ IHl]; [done|]. cbn [flat_map].
    rewrite IHl, app_nil_r. apply Hy. by destruct path.
  - induction IH as [|kv d Hkv _ IHd]; [done|]. cbn [flat_map].
    rewrite IHd, app_nil_r. apply Hkv. by destruct path.
Qed.

Lemma items_under_key k v :
  str_eqb k (lit "item") = false ->
  IjsonItems.items_at (lit "item") [k] v = [].
Proof.
  intros Hk.
  destruct v; cbn [IjsonItems.items_at join]; rewrite Hk; try done.
  - match goal with |- flat_map _ ?l = [] => induction l as [|y l IHl] end; [done|].
    cbn [flat_map]. rewrite IHl, app_nil_r. by apply (items_at_deep y [k]).
  - match goal with |- flat_map _ ?l = [] => induction l as [|y l IHl] end; [done|].
    cbn [flat_map]. rewrite IHl, app_nil_r. by apply (items_at_deep y.2 [k]).
Qed.

Lemma items_of_members d :
  dict_get d (lit "item") = None ->
  flat_map (fun kv : str * json => IjsonItems.items_at (lit "item") ([] ++ [kv.1]) kv.2) d
  = [].
Proof.
  induction d as [|[k v] d IH]; [done|]. cbn [dict_get flat_map fst snd].
  destruct (str_eqb k (lit "item")) eqn:Hk; [done|]. intros Hd.
  rewrite (IH Hd), app_nil_r. by apply items_under_key.
Qed.

Lemma items_of_object d :
  dict_get d (lit "item") = None ->
  IjsonItems.items (JDict d) (lit "item") = [].
Proof.
  intros Hd. unfold IjsonItems.items. cbn [IjsonItems.items_at].
  change (str_eqb (join (lit ".") []) (lit "item")) with false. cbv iota.
  by apply items_of_members.
Qed.

(** X19.  [SimpleIjsonChunker] on a document that is an object without a
    member named [item]: ijson yields no item, and the run returns
    normally with no chunk and a summary of zero conversations. *)
Theorem simple_chunker_on_an_object_gives_an_empty_run
    (input_file : str) (chunk_size_mb : Z) (d : list (str * json)) (file_size : nat) :
  dict_get d (lit "item") = None ->
  SimpleIjsonChunker.chunk_file_simple input_file chunk_size_mb
    (Some (JDict d, file_size))
  = Ok {| returned := [];
          summary_file :=
            {| originalFile := input_file;
               originalSizeGB := round_hundredths file_size (1024 * 1024 * 1024);
               totalConversations := 0;
               totalChunks := 0;
               targetChunkSizeMB := chunk_size_mb;
               summary_chunks := [] |};
          chunk_files := [];
          skip_messages := [] |}.
Proof.
  intros Hd. unfold SimpleIjsonChunker.chunk_file_simple.
  by rewrite items_of_object.
Qed.

End NoArray.

Lemma simple_chunker_on_an_object_gives_an_empty_run_witness :
  SimpleIjsonChunker.chunk_file_simple (lit "Zainjo.json") 100
    (Some (JDict zainjo_sample_document, 200%nat))
  = Ok {| returned := [];
          summary_file :=
            {| originalFile := lit "Zainjo.json";
               originalSizeGB := round_hundredths 200 (1024 * 1024 * 1024);
               totalConversations := 0;
               totalChunks := 0;
               targetChunkSizeMB := 100;
               summary_chunks := [] |};
          chunk_files := [];
          skip_messages := [] |}.
Proof.
  apply (simple_chunker_on_an_object_gives_an_empty_run (lit "Zainjo.json") 100
           zainjo_sample_document 200%nat).
  reflexivity.
Defined.

Section ObjectDocument.

Import LargeJSONChunkerIjson.

(** Before the array at the root has opened, the loop passes over the
    events that do not open it. *)
Lemma event_loop_passed (evs : list event) (st : loop_state) :
  Forall passed evs -> in_array st = false -> event_loop evs st = Ok st.
Proof.
  intros Hall Ha. induction Hall as [|ev evs Hev _ IH]; [done|].
  cbn [event_loop]. rewrite Ha. cbn [andb].
  destruct Hev as [Hp|[Hs He]].
  - destruct (prefix ev); [done|]. cbn [andb]. exact IH.
  - destruct (name ev); try done; destruct (prefix ev); cbn; exact IH.
Qed.

Lemma members_passed (d : list (str * json)) :
  dict_get d [] = None ->
  Forall passed
    (flat_map (fun kv : str * json =>
                 {| prefix := []; name := map_key; value := JStr kv.1 |}
                 :: Ijson.events (Ijson.child [] kv.1) kv.2) d).
Proof.
  induction d as [|[k v] d IH]; [done|]. cbn [dict_get flat_map fst snd].
  destruct k as [|c k]; [done|]. cbn [str_eqb]. intros Hd.
  constructor; [by right|]. apply Forall_app. split; [|by apply IH].
  eapply list.Forall_impl; [by apply (events_below_root v (c :: k))|].
  intros e He. by left.
Qed.

(** X20.  [LargeJSONChunkerIjson] on a document that is an object without
    an empty key: the array at the root never opens, no event is used, and
    the run returns normally with no chunk and a summary of zero
    conversations. *)
Theorem advanced_chunker_on_an_object_gives_an_empty_run
    (input_file : str) (chunk_size_mb : Z) (d : list (str * json)) (file_size : nat) :
  dict_get d [] = None ->
  LargeJSONChunkerIjson.chunk_file (init input_file chunk_size_mb)
    (Some (JDict d, file_size))
  = Ok {| returned := [];
          summary_file :=
            {| originalFile := input_file;
               originalSizeGB := round_hundredths file_size (1024 * 1024 * 1024);
               totalConversations := 0;
               totalChunks := 0;
               targetChunkSizeMB := chunk_size_mb;
               summary_chunks := [] |};
          chunk_files := [];
          skip_messages := [] |}.
Proof.
  intros Hd. unfold chunk_file, _process_file_with_ijson, Ijson.parse.
  rewrite event_loop_passed; [reflexivity| |reflexivity].
  cbn [Ijson.events]. constructor; [by right|].
  apply Forall_app. split; [by apply members_passed|].
  constructor; [by right|constructor].
Qed.

End ObjectDocument.

Lemma advanced_chunker_on_an_object_gives_an_empty_run_witness :
  LargeJSONChunkerIjson.chunk_file (init (lit "Zainjo.json") 100)
    (Some (JDict zainjo_sample_document, 200%nat))
  = Ok {| returned := [];
          summary_file :=
            {| originalFile := lit "Zainjo.json";
               originalSizeGB := round_hundredths 200 (1024 * 1024 * 1024);
               totalConversations := 0;
               totalChunks := 0;
               targetChunkSizeMB := 100;
               summary_chunks := [] |};
          chunk_files := [];
          skip_messages := [] |}.
Proof.
  apply (advanced_chunker_on_an_object_gives_an_empty_run (lit "Zainjo.json") 100
           zainjo_sample_document 200%nat).
  reflexivity.
Defined.

Section NoObject.

Import Zainjo.

Local Open Scope nat_scope.

Lemma has_required_fields_no_object (truth : json -> bool) (x : json) :
  is_object x = false -> has_required_fields truth x = Raise AttributeError.
Proof. by destruct x. Qed.

(** X21.  [chunk-zainjo-python.py] on a document whose [ActiveChatters]
    holds, after objects only, an element that is no object: the loop
    raises [AttributeError] at that element, so that no summary is written
    and the script ends with [sys.exit(1)], whatever the records before
    and after it are; unless [Count] is a text that the console refuses, or
    a kept record of the full chunks of 500 before that element holds a
    lone surrogate, in which case the script has ended before, with
    [UnicodeEncodeError] and in the same way. *)
Theorem zainjo_python_aborts_on_a_record_that_is_no_object
    (console : str -> bool) (d : list (str * json))
    (before : list (list (str * json))) (x : json) (after : list json) :
  dict_get d (lit "ActiveChatters") = Some (JList ((JDict <$> before) ++ x :: after)) ->
  is_object x = false ->
  let kept := JDict <$> filter (fun c => has_sender_and_history_loaded c = true) before in
  chunk_zainjo_file console (JDict d)
  = (if count_printed console d && forallb writable (take (length kept / 500 * 500) kept)
     then Raise AttributeError else Raise UnicodeEncodeError) /\
  ZainjoScripts.chunk_zainjo_file_returns console (JDict d) = false.
Proof.
  intros Hd Hx kept.
  assert (chunk_zainjo_file console (JDict d)
          = if count_printed console d
               && forallb writable (take (length kept / 500 * 500) kept)
            then Raise AttributeError else Raise UnicodeEncodeError) as H.
  { unfold chunk_zainjo_file. cbn [get]. rewrite bind_Ok, print_value_count.
    destruct (count_printed console d); [|done]. rewrite bind_Ok, Hd.
    cbn [default from_option id iterate andb]. rewrite bind_Ok, loop_app.
    destruct (chunked_loop truthy_loaded before _ _ _ (chunked_initial))
      as (st & groups & Hl & Hch).
    rewrite (loop_fallible truthy_loaded writable UnicodeEncodeError save_chunk
               save_chunk_writable before initial st eq_refl Hl).
    rewrite (full_chunks _ _ _ Hch). cbn [app]. fold kept.
    destruct (forallb writable _); [|done].
    rewrite bind_Ok. cbn [loop]. unfold step.
    by rewrite has_required_fields_no_object. }
  split; [done|]. unfold ZainjoScripts.chunk_zainjo_file_returns. rewrite H.
  by destruct (_ && _).
Qed.

(** X22.  [chunk-zainjo-ijson.py], when ijson yields, after objects only,
    an item that is no object: the function returns [False], whatever the
    records before and after it are. *)
Theorem zainjo_ijson_returns_false_on_a_record_that_is_no_object
    (data : json) (before : list (list (str * json))) (x : json) (after : list json) :
  IjsonItems.items data (lit "ActiveChatters.item") = (JDict <$> before) ++ x :: after ->
  is_object x = false ->
  ZainjoScripts.chunk_zainjo_with_ijson data = false.
Proof.
  intros Hitems Hx.
  unfold ZainjoScripts.chunk_zainjo_with_ijson, ZainjoScripts.chunk_with_ijson.
  rewrite Hitems, loop_app.
  destruct (loop truthy ZainjoScripts.save_chunk (JDict <$> before) initial) as [st|e];
    [|done].
  rewrite bind_Ok. cbn [loop]. unfold step.
  by rewrite has_required_fields_no_object.
Qed.

End NoObject.

Lemma zainjo_python_aborts_on_a_record_that_is_no_object_witness :
  Zainjo.chunk_zainjo_file encodable (JDict zainjo_text_record_document)
  = Raise AttributeError /\
  ZainjoScripts.chunk_zainjo_file_returns encodable (JDict zainjo_text_record_document)
  = false.
Proof.
  apply (zainjo_python_aborts_on_a_record_that_is_no_object encodable
           zainjo_text_record_document zainjo_sample_records (JStr (lit "a")) []).
  - reflexivity.
  - reflexivity.
Defined.

Lemma zainjo_ijson_returns_false_on_a_record_that_is_no_object_witness :
  ZainjoScripts.chunk_zainjo_with_ijson (JDict zainjo_text_record_document) = false.
Proof.
  apply (zainjo_ijson_returns_false_on_a_record_that_is_no_object
           (JDict zainjo_text_record_document) zainjo_sample_records (JStr (lit "a")) []).
  - reflexivity.
  - reflexivity.
Defined.

Section ZainjoIjsonRun.

Import Zainjo.

Local Open Scope nat_scope.

(** X23.  [chunk-zainjo-ijson.py] up to its summary, when the items ijson
    yields are the objects [records]: when no kept record holds a
    non-integer number, chunk [i] of the run holds the [i]-th group of 500
    kept records and the last chunk the rest, with as many chunks as 500
    goes into the number of kept records, rounded up; when one does, the
    run ends with the [TypeError] of [json.dump], before any summary. *)
Theorem zainjo_ijson_number_of_chunks
    (data : json) (records : list (list (str * json))) :
  IjsonItems.items data (lit "ActiveChatters.item") = JDict <$> records ->
  let kept := JDict <$> filter (fun c => has_sender_and_history c = true) records in
  if forallb decimal_free kept
  then exists out,
         ZainjoScripts.chunk_with_ijson data = Ok out /\
         chunks_of_500 out kept /\
         length (out_files out) = (length kept + 499) / 500 /\
         summary_totalChunks (out_summary out) = (length kept + 499) / 500 /\
         chunkNumber <$> out_files out = seq 0 (length (out_files out))
  else ZainjoScripts.chunk_with_ijson data = Raise TypeError.
Proof.
  intros Hitems kept. pose proof (ijson_run data records Hitems) as H. cbv zeta in H.
  fold kept in H. destruct (forallb decimal_free kept); [|done].
  destruct H as (out & Hrun & H). exists out.
  split; [done|]. split; [done|]. by apply chunks_of_500_count.
Qed.

End ZainjoIjsonRun.

Lemma zainjo_ijson_number_of_chunks_witness :
  IjsonItems.items (JDict zainjo_sample_document) (lit "ActiveChatters.item")
    = JDict <$> zainjo_sample_records /\
  exists out,
    ZainjoScripts.chunk_with_ijson (JDict zainjo_sample_document) = Ok out /\
    chunks_of_500 out
      (JDict <$> filter (fun c => has_sender_and_history c = true)
                        zainjo_sample_records) /\
    length (Zainjo.out_files out) = 1%nat /\
    Zainjo.summary_totalChunks (Zainjo.out_summary out) = 1%nat /\
    Zainjo.chunkNumber <$> Zainjo.out_files out = seq 0 (length (Zainjo.out_files out)).
Proof.
  split; [reflexivity|].
  exact (zainjo_ijson_number_of_chunks (JDict zainjo_sample_document)
           zainjo_sample_records eq_refl).
Defined.

(** X24.  [chunk-zainjo-python.py] on a document of 500 records that have
    both fields and hold a lone surrogate, followed by a text: the first
    chunk is full at the 500th record, [json.dump] raises
    [UnicodeEncodeError] while it is saved, and the script ends with
    [sys.exit(1)] before it reaches the element that is no object,
    whatever the console takes. *)
Theorem zainjo_python_write_error_comes_before_a_record_that_is_no_object
    (console : str -> bool) :
  is_object (JStr (lit "a")) = false /\
  dict_get zainjo_surrogate_document (lit "ActiveChatters")
    = Some (JList ((JDict <$> replicate 500 zainjo_surrogate_record)
                   ++ [JStr (lit "a")])) /\
  Zainjo.chunk_zainjo_file console (JDict zainjo_surrogate_document)
    = Raise UnicodeEncodeError /\
  ZainjoScripts.chunk_zainjo_file_returns console (JDict zainjo_surrogate_document)
    = false.
Proof. split_and!; vm_compute; reflexivity. Qed.



(** X26.  [LargeJSONChunkerIjson] on the document [[{"²": 1}]], whose
    record has a superscript two for a key: the run ends with the
    [ValueError] of [int], and writes nothing. *)
Theorem advanced_chunker_raises_on_a_superscript_key :
  LargeJSONChunkerIjson.chunk_file (init (lit "data.json") 100)
    (Some (superscript_key_document, 12%nat))
  = Raise ValueError.
Proof. vm_compute. reflexivity. Qed.
